(** * Retrieval pipeline and lead-capture dialogue of the chat assistant

    A shallow embedding of the retrieval core of the repository
    ([services/geminiService.ts], [services/pdfService.ts]), of the
    lead-capture branch of [components/ChatInterface.tsx] and of the code
    around them: the store ([services/mockFirebase.ts]), the handlers of the
    admin panel and of the login page, the text extraction and the audio
    helpers of the live session; together with the properties the
    specification states about them and further properties of the code.

    Conventions.
    - A JavaScript [number] is an IEEE-754 binary64 value: Rocq's primitive
      [float], whose operations are the same correctly rounded ones.
    - A JavaScript [string] is a sequence of UTF-16 code units ([list N]);
      [.length] is [length], [+] is [++].
    - Remote calls (embedding, generation, transcription) and the clock are
      the fields of a provider, a parameter of the functions that call them;
      a call is a step of a state monad over the state of the world.
    - A handler of the chat component runs from its first statement to its
      last as one step; a handler whose awaited promise stays pending ends
      where it waits.  The embedding and the generation service catch the
      failures of the remote calls themselves and return an empty list or an
      apologetic answer, so that the [catch] branches of [processQuery] and
      [handleSend] are not reached and are not modelled.
    - The number of chunks asked for, [topK], is a count ([nat]); the program
      passes the literals 3, 5 and 8.
    - What [localStorage] holds is read back as it was written: the values
      are arrays, strings, booleans and finite numbers, which
      [JSON.stringify] and [JSON.parse] preserve.

    The file has three parts: the program, the vocabulary of the properties
    (orders, contents, logging providers, sample data), and the properties
    with their proofs. *)

From Stdlib Require Import List Bool Arith ZArith NArith Lia.
From Stdlib Require Import Floats.
From Stdlib Require String Ascii DecimalString DecimalN DecimalPos.
Import String.StringSyntax.
Delimit Scope string_scope with string.
From Stdlib Require Import Sorting.Permutation Sorting.Sorted.
Import ListNotations.

Set Implicit Arguments.

(* ================================================================== *)
(** ** JavaScript numbers *)

Module JSNumber.

Local Open Scope float_scope.

Definition number := float.

(** [Number.isNaN]. *)
Definition isNaN (x : number) : bool := negb (x =? x).

(** The relational operators of JavaScript on numbers; every comparison with
    [NaN] is [false]. *)
Definition gt (x y : number) : bool := y <? x.
Definition ge (x y : number) : bool := y <=? x.

(** Reading an array slot as a number operand: an index past the end reads
    [undefined], and [ToNumber(undefined)] is [NaN]. *)
Definition index (v : list number) (i : nat) : number := nth i v nan.

End JSNumber.

(* ================================================================== *)
(** ** Arrays: [Array.prototype.sort] with a comparator *)

Module JSArray.

Import JSNumber.
Local Open Scope float_scope.

Section Sort.

Variable A : Type.

(** The comparator passed to [sort]; it returns a number. *)
Variable comparefn : A -> A -> number.

(** [SortCompare] of ECMAScript: a [NaN] returned by the comparator is
    read as [+0]. *)
Definition SortCompare (x y : A) : number :=
  let v := comparefn x y in if isNaN v then 0 else v.

(** [x] has to come after [y]. *)
Definition after (x y : A) : bool := gt (SortCompare x y) 0.

(** [sort] is stable: an element moves behind another one only when the
    comparator says it must come after it.  [insert x l] places [x], which
    precedes every element of [l] in the source array, in the sorted [l].

    For a comparator that orders the elements consistently, ECMAScript
    determines the result: the stable sorted permutation, which is what
    [sort] computes ([SortFacts.sort_sorted], [SortFacts.sort_stable]).  For
    an inconsistent comparator the standard leaves the order to the engine;
    [sort] then computes one of the permitted permutations
    ([SortFacts.sort_perm]). *)
Fixpoint insert (x : A) (l : list A) : list A :=
  match l with
  | [] => [x]
  | y :: l' => if after x y then y :: insert x l' else x :: l
  end.

Fixpoint sort (l : list A) : list A :=
  match l with
  | [] => []
  | x :: l' => insert x (sort l')
  end.

(** [slice(0, n)] for a count [n]: the first [n] elements, all of them when
    the array is shorter. *)
Definition slice0 (n : nat) (l : list A) : list A := firstn n l.

End Sort.

End JSArray.

(* ================================================================== *)
(** ** Strings *)

Module JSString.

(** UTF-16 code units. *)
Definition jsstring := list N.

Definition js (s : String.string) : jsstring :=
  map Ascii.N_of_ascii (String.list_ascii_of_string s).

Arguments js s%_string.

Local Open Scope N_scope.

(** The characters matched by [\s] and removed by [trim]: white space and
    line terminators. *)
Definition isWhiteSpace (c : N) : bool :=
  ((9 <=? c) && (c <=? 13)) || (c =? 32) || (c =? 160) || (c =? 5760)
  || ((8192 <=? c) && (c <=? 8202)) || (c =? 8232) || (c =? 8233)
  || (c =? 8239) || (c =? 8287) || (c =? 12288) || (c =? 65279).

(** [0-9]. *)
Definition isDigit (c : N) : bool := (48 <=? c) && (c <=? 57).

Fixpoint takeWhile (p : N -> bool) (s : jsstring) : jsstring :=
  match s with
  | c :: s' => if p c then c :: takeWhile p s' else []
  | [] => []
  end.

Fixpoint dropWhile (p : N -> bool) (s : jsstring) : jsstring :=
  match s with
  | c :: s' => if p c then dropWhile p s' else s
  | [] => []
  end.

Definition trimStart (s : jsstring) : jsstring := dropWhile isWhiteSpace s.
Definition trimEnd (s : jsstring) : jsstring := rev (dropWhile isWhiteSpace (rev s)).
Definition trim (s : jsstring) : jsstring := trimEnd (trimStart s).

(** A string is truthy when it is not empty. *)
Definition truthy (s : jsstring) : bool :=
  match s with [] => false | _ :: _ => true end.

(** [s || d] on strings. *)
Definition orElse (s d : jsstring) : jsstring := if truthy s then s else d.

(** [a === b] on strings. *)
Fixpoint strictEq (a b : jsstring) : bool :=
  match a, b with
  | [], [] => true
  | x :: a', y :: b' => (x =? y) && strictEq a' b'
  | _, _ => false
  end.

(** [s.replace(/[^0-9]/g, '')]. *)
Definition stripNonDigits (s : jsstring) : jsstring := filter isDigit s.

(** [s.substring(0, n)]. *)
Definition substring0 (n : nat) (s : jsstring) : jsstring := firstn n s.

(** [parts.join(sep)]. *)
Fixpoint join (sep : jsstring) (parts : list jsstring) : jsstring :=
  match parts with
  | [] => []
  | [p] => p
  | p :: rest => p ++ sep ++ join sep rest
  end.

(** [s.replace(/\*\*/g, '')]: every pair of asterisks, left to right. *)
Fixpoint removeBold (s : jsstring) : jsstring :=
  match s with
  | [] => []
  | c :: t =>
      match t with
      | c' :: r => if (c =? 42) && (c' =? 42) then removeBold r else c :: removeBold t
      | [] => [c]
      end
  end.

(** [n.toString()] for a non-negative integer. *)
Definition toString (n : N) : jsstring :=
  js (DecimalString.NilZero.string_of_uint (N.to_uint n)).

Definition newline : jsstring := [10].
Definition quote : jsstring := [34].

End JSString.

(* ================================================================== *)
(** ** The matcher: [cosineSimilarity] and [findBestMatches] *)

Module Matcher.

Import JSNumber JSArray JSString.
Local Open Scope float_scope.

(** [types.ts]: [DocumentChunk]; [embedding] is an optional field. *)
Record DocumentChunk := {
  id : jsstring;
  docId : jsstring;
  docTitle : jsstring;
  text : jsstring;
  embedding : option (list number)
}.

(** [vecA.reduce((sum, a, i) => sum + a * vecB[i], 0)], from index [i]. *)
Fixpoint dotFrom (i : nat) (vecA vecB : list number) (sum : number) : number :=
  match vecA with
  | [] => sum
  | a :: rest => dotFrom (S i) rest vecB (sum + a * index vecB i)
  end.

(** [vec.reduce((sum, a) => sum + a * a, 0)]. *)
Definition sumSquares (vec : list number) : number :=
  fold_left (fun sum a => sum + a * a) vec 0.

Definition cosineSimilarity (vecA vecB : list number) : number :=
  let dotProduct := dotFrom 0 vecA vecB 0 in
  let magnitudeA := sqrt (sumSquares vecA) in
  let magnitudeB := sqrt (sumSquares vecB) in
  dotProduct / (magnitudeA * magnitudeB).

(** An element of the array [scored]. *)
Record scoredChunk := { chunk : DocumentChunk; score : number }.

(** [chunk.embedding ? cosineSimilarity(queryEmbedding, chunk.embedding) : -1]:
    an array, also the empty one, is truthy; only an absent field is not. *)
Definition scoreOf (queryEmbedding : list number) (c : DocumentChunk) : number :=
  match embedding c with
  | Some e => cosineSimilarity queryEmbedding e
  | None => -1
  end.

Definition scoreChunk (queryEmbedding : list number) (c : DocumentChunk) : scoredChunk :=
  {| chunk := c; score := scoreOf queryEmbedding c |}.

(** The comparator [(a, b) => b.score - a.score]. *)
Definition byScoreDesc (a b : scoredChunk) : number := score b - score a.

Definition findBestMatches (queryEmbedding : list number)
    (chunks : list DocumentChunk) (topK : nat) : list DocumentChunk :=
  let scored := map (scoreChunk queryEmbedding) chunks in
  let scored := sort byScoreDesc scored in
  map chunk (slice0 topK scored).

End Matcher.

(* ================================================================== *)
(** ** The chunker: [chunkText] *)

Module Chunker.

Import JSString.

Local Open Scope N_scope.

(** [.!?] *)
Definition isTerminator (c : N) : bool := (c =? 46) || (c =? 33) || (c =? 63).

Definition notTerminator (c : N) : bool := negb (isTerminator c).

(** [text.match(/[^.!?]+[.!?]+|\s\n/g)]: the matches from left to right.  At
    a position the first alternative matches the longest run of
    non-terminators when at least one terminator follows it, together with
    all the terminators that follow; otherwise the second alternative
    matches a white-space character followed by a line feed; otherwise the
    search moves on by one character.  Every step consumes a character, so
    [length s] steps are enough. *)
Fixpoint matchesFrom (steps : nat) (s : jsstring) : list jsstring :=
  match steps, s with
  | S steps', c :: rest =>
      let run := takeWhile notTerminator s in
      let behind := dropWhile notTerminator s in
      let marks := takeWhile isTerminator behind in
      if truthy run && truthy marks then
        (run ++ marks) :: matchesFrom steps' (dropWhile isTerminator behind)
      else
        match rest with
        | c' :: rest' =>
            if isWhiteSpace c && (c' =? 10)
            then [c; c'] :: matchesFrom steps' rest'
            else matchesFrom steps' rest
        | [] => []
        end
  | _, _ => []
  end.

Definition matchSentences (text : jsstring) : list jsstring :=
  matchesFrom (length text) text.

(** [text.match(...) || [text]]: without a match the result is [null]. *)
Definition sentencesOf (text : jsstring) : list jsstring :=
  match matchSentences text with
  | [] => [text]
  | found => found
  end.

(** The body of the loop, on the pair of [chunks] and [currentChunk]. *)
Definition addSentence (chunkSize : nat) (st : list jsstring * jsstring)
    (sentence : jsstring) : list jsstring * jsstring :=
  let '(chunks, currentChunk) := st in
  if (chunkSize <? length (currentChunk ++ sentence))%nat
  then (chunks ++ [trim currentChunk], sentence)
  else (chunks, currentChunk ++ sentence).

Definition chunkText (text : jsstring) (chunkSize : nat) : list jsstring :=
  let sentences := sentencesOf text in
  let '(chunks, currentChunk) := fold_left (addSentence chunkSize) sentences ([], []) in
  let chunks := if truthy (trim currentChunk) then chunks ++ [trim currentChunk] else chunks in
  filter (fun c => (0 <? length c)%nat) chunks.

End Chunker.

(* ================================================================== *)
(** ** The remote provider and the clock

    The calls of the SDK ([ai.models.embedContent],
    [ai.models.generateContent]) and [Date.now] are the outside world of the
    program.  A computation that awaits them threads a state of the world
    [W]; what they answer is not constrained. *)

Module World.

Import JSNumber JSString.

(** [await ai.models.embedContent(...)]: the call throws, or returns a
    result without [embedding.values], or returns the values. *)
Inductive embedResult :=
| EmbedThrows
| EmbedNoValues
| EmbedValues (values : list number).

(** The part of a generation response that the program reads. *)
Record groundingWeb := { uri : option jsstring; title : option jsstring }.
Record groundingChunk := { web : option groundingWeb }.
Record generateResponse := {
  responseText : option jsstring;
  groundingChunks : option (list groundingChunk)
}.

Inductive generateResult :=
| GenerateThrows
| GenerateReturns (response : generateResponse).

Section Monad.

Variable W : Type.

Definition M (A : Type) : Type := W -> A * W.

Definition ret (A : Type) (a : A) : M A := fun w => (a, w).

Definition bind (A B : Type) (c : M A) (k : A -> M B) : M B :=
  fun w => let '(a, w') := c w in k a w'.

(** The provider: [embedContent text], [generateContent prompt
    systemInstruction], [transcribeAudio audioBase64] (the data handed over,
    [None] for [undefined]; the answer is [None] when [transcribeAudio]
    throws) and [Date.now()]. *)
Record provider := {
  embedContent : jsstring -> M embedResult;
  generateContent : jsstring -> jsstring -> M generateResult;
  transcribeAudio : option jsstring -> M (option jsstring);
  dateNow : M N
}.

End Monad.

Arguments ret {W A} a.
Arguments bind {W A B} c k.

Notation "x <- c ;; k" := (bind c (fun x => k))
  (at level 61, c at next level, right associativity).

End World.

(* ================================================================== *)
(** ** The embedding client: [getEmbeddings] *)

Module Embedding.

Import JSNumber JSString World.

Section Client.

Variable W : Type.
Variable P : provider W.

(** One turn of the loop [for (const text of texts)]: what is pushed. *)
Definition embedOne (text : jsstring) : M W (list number) :=
  if negb (truthy text) || negb (truthy (trim text)) then ret []
  else
    result <- embedContent P text ;;
    match result with
    | EmbedValues values => ret values
    | EmbedNoValues => ret []
    | EmbedThrows => ret []
    end.

(** The loop, with the array [embeddings] built so far. *)
Fixpoint embedFrom (texts : list jsstring) (embeddings : list (list number))
    : M W (list (list number)) :=
  match texts with
  | [] => ret embeddings
  | text :: rest =>
      e <- embedOne text ;;
      embedFrom rest (embeddings ++ [e])
  end.

Definition getEmbeddings (texts : list jsstring) : M W (list (list number)) :=
  embedFrom texts [].

End Client.

End Embedding.

(* ================================================================== *)
(** ** The store: [mockDB] *)

Module Store.

Import JSString.

(** [types.ts]: [Lead]. *)
Record Lead := {
  id : jsstring;
  phoneNumber : jsstring;
  queryContext : jsstring;
  timestamp : N
}.

(** The fields of [AppSettings] that the modelled functions read, as
    [getSettings] returns them. *)
Record AppSettings := {
  appName : jsstring;
  appDescription : jsstring;
  systemInstruction : option jsstring
}.

(** The collections kept in [localStorage]. *)
Record DB := {
  chunks : list Matcher.DocumentChunk;
  leads : list Lead;
  settings : AppSettings
}.

Definition getChunks (db : DB) : list Matcher.DocumentChunk := chunks db.
Definition getSettings (db : DB) : AppSettings := settings db.

(** [leads.push(lead)] on the stored list. *)
Definition addLead (lead : Lead) (db : DB) : DB :=
  {| chunks := chunks db; leads := leads db ++ [lead]; settings := settings db |}.

End Store.

(* ================================================================== *)
(** ** The answer generator: [generateRAGResponse] *)

Module Generator.

Import JSString World.

Record ragResponse := {
  text : jsstring;
  language : jsstring;
  citations : option (list jsstring)
}.

(** [`[Source: ${c.docTitle}]: ${c.text}`], joined by blank lines. *)
Definition contextTextOf (contextChunks : list Matcher.DocumentChunk) : jsstring :=
  join (newline ++ newline)
    (map (fun c => js "[Source: " ++ Matcher.docTitle c ++ js "]: " ++ Matcher.text c)
         contextChunks).

Definition optString (o : option jsstring) : jsstring :=
  match o with Some s => s | None => [] end.

(** [if (c.web?.uri) webCitations.push(c.web.title || c.web.uri)]. *)
Definition webCitationsOf (groundingChunks : option (list groundingChunk)) : list jsstring :=
  match groundingChunks with
  | None => []
  | Some gs =>
      flat_map (fun c =>
        match web c with
        | Some wb =>
            if truthy (optString (uri wb))
            then [orElse (optString (title wb)) (optString (uri wb))]
            else []
        | None => []
        end) gs
  end.

Section Generate.

Variable W : Type.
Variable P : provider W.

Definition generateRAGResponse (db : Store.DB) (query : jsstring)
    (contextChunks : list Matcher.DocumentChunk) : M W ragResponse :=
  let contextText := contextTextOf contextChunks in
  let settings := Store.getSettings db in
  let baseInstruction :=
    orElse (optString (Store.systemInstruction settings)) (js "You are an AI assistant.") in
  let systemInstruction :=
    baseInstruction ++ newline ++ newline ++ js "Your name is "
    ++ orElse (Store.appName settings) (js "Samastha AI") ++ js "." in
  let prompt :=
    newline ++ js "Context Information:" ++ newline ++ contextText ++ newline
    ++ newline ++ js "User Query:" ++ newline ++ query ++ newline ++ js "  " in
  result <- generateContent P prompt systemInstruction ;;
  match result with
  | GenerateReturns response =>
      let text := orElse (optString (responseText response)) (js "No response generated.") in
      let webCitations := webCitationsOf (groundingChunks response) in
      ret {| text := text;
             language := js "Detected";
             citations := match webCitations with [] => None | _ => Some webCitations end |}
  | GenerateThrows =>
      ret {| text := js "Error generating response. Please try again.";
             language := js "Error";
             citations := None |}
  end.

End Generate.

End Generator.

(* ================================================================== *)
(** ** The conversation: [processQuery], [handleSend], [handleKnowMore] *)

Module Chat.

Import JSNumber JSString World Embedding.

Inductive Role := user | model.

Definition roleEq (a b : Role) : bool :=
  match a, b with user, user | model, model => true | _, _ => false end.

(** [types.ts]: [Message]. *)
Record Message := {
  id : jsstring;
  role : Role;
  content : jsstring;
  timestamp : N;
  language : option jsstring;
  citations : option (list jsstring);
  isAudio : option bool;
  shareContent : option jsstring
}.

(** The state of the component that the handlers read and set ([settings]
    is the component's copy of the stored settings), and the store. *)
Record State := {
  messages : list Message;
  input : jsstring;
  isLoading : bool;
  waitingForNumber : bool;
  settings : Store.AppSettings;
  db : Store.DB
}.

Definition setMessages (f : list Message -> list Message) (st : State) : State :=
  {| messages := f (messages st); input := input st; isLoading := isLoading st;
     waitingForNumber := waitingForNumber st; settings := settings st;
     db := db st |}.

Definition setInput (s : jsstring) (st : State) : State :=
  {| messages := messages st; input := s; isLoading := isLoading st;
     waitingForNumber := waitingForNumber st; settings := settings st;
     db := db st |}.

Definition setIsLoading (b : bool) (st : State) : State :=
  {| messages := messages st; input := input st; isLoading := b;
     waitingForNumber := waitingForNumber st; settings := settings st;
     db := db st |}.

Definition setWaitingForNumber (b : bool) (st : State) : State :=
  {| messages := messages st; input := input st; isLoading := isLoading st;
     waitingForNumber := b; settings := settings st; db := db st |}.

Definition setDb (d : Store.DB) (st : State) : State :=
  {| messages := messages st; input := input st; isLoading := isLoading st;
     waitingForNumber := waitingForNumber st; settings := settings st; db := d |}.

(** A message with the four fields every message literal sets. *)
Definition plainMessage (i : jsstring) (r : Role) (c : jsstring) (t : N) : Message :=
  {| id := i; role := r; content := c; timestamp := t; language := None;
     citations := None; isAudio := None; shareContent := None |}.

(** [xs.slice(-1)[0]]: the last element, if any. *)
Definition lastOf (A : Type) (xs : list A) : option A :=
  match rev xs with x :: _ => Some x | [] => None end.

(** [messages.filter(m => m.role === 'model').slice(-1)[0]?.content
     || "User asked for details"]. *)
Definition lastContextOf (messages : list Message) : jsstring :=
  let c := match lastOf (filter (fun m => roleEq (role m) model) messages) with
           | Some m => content m
           | None => []
           end in
  orElse c (js "User asked for details").

(** [messages.slice().reverse().find(m => m.role === 'user' && m.content !== text)]
    and the topic taken from it. *)
Definition lastUserMsgOf (messages : list Message) (text : jsstring) : option Message :=
  find (fun m => roleEq (role m) user && negb (strictEq (content m) text)) (rev messages).

Definition topicQueryOf (messages : list Message) (text : jsstring) : jsstring :=
  match lastUserMsgOf messages text with
  | Some m => content m
  | None => js "Samastha Kerala Jamiyyathul Ulama"
  end.

(** The template of the detailed prompt. *)
Definition detailedPromptOf (topicQuery : jsstring) : jsstring :=
  newline ++ js "                The user has requested a detailed report on: "
  ++ quote ++ topicQuery ++ quote ++ js "." ++ newline
  ++ js "                Provide a comprehensive explanation using the context provided."
  ++ newline
  ++ js "                Structure it clearly with a Title, Introduction, Key Points (bulleted), and Conclusion."
  ++ newline ++ js "             ".

(** The head of the report message, with the three characters the source
    file has in front of it. *)
Definition reportContentOf (topicQuery responseText : jsstring) : jsstring :=
  [226; 339; 8230]%N ++ js " **Lead Verified.**" ++ newline ++ newline
  ++ js "Here is your detailed report on **" ++ quote ++ topicQuery ++ quote
  ++ js "**:" ++ newline ++ newline ++ js "---" ++ newline ++ newline ++ responseText.

(** [s.split(',')]: the fields between the commas. *)
Fixpoint splitComma (s : jsstring) : list jsstring :=
  match s with
  | [] => [[]]
  | c :: rest =>
      if (c =? 44)%N then [] :: splitComma rest
      else match splitComma rest with
           | field :: fields => (c :: field) :: fields
           | [] => [[c]]
           end
  end.

(** [blobToBase64], on the [reader.result] that [onloadend] finds: the data
    URL of the blob, or [null] (here [None]) when the reader has failed.
    The promise is resolved with [reader.result.split(',')[1]], which is
    [undefined] (the inner [None]) for a text without comma.  On [null] the
    callback throws, and the promise, which has no other way to settle,
    stays pending: the outer [None]. *)
Definition blobToBase64 (result : option jsstring) : option (option jsstring) :=
  match result with
  | Some dataUrl => Some (nth_error (splitComma dataUrl) 1)
  | None => None
  end.

Section Handlers.

Variable W : Type.
Variable P : provider W.

(** [queryEmbedding.length > 0 && queryEmbedding[0].length > 0
     ? findBestMatches(queryEmbedding[0], allChunks, topK) : []]. *)
Definition matchesOrNone (queryEmbedding : list (list number))
    (allChunks : list Matcher.DocumentChunk) (topK : nat) : list Matcher.DocumentChunk :=
  match queryEmbedding with
  | first :: _ =>
      if (0 <? length first)%nat
      then Matcher.findBestMatches first allChunks topK
      else []
  | [] => []
  end.

Definition processQuery (queryText : jsstring) (isVoice : bool) (st : State) : M W State :=
  now1 <- dateNow P ;;
  now2 <- dateNow P ;;
  let userMsg :=
    {| id := toString now1; role := user; content := queryText; timestamp := now2;
       language := None; citations := None; isAudio := Some isVoice;
       shareContent := None |} in
  let st := setMessages (fun prev => prev ++ [userMsg]) st in
  let st := setIsLoading true st in
  queryEmbedding <- getEmbeddings P [queryText] ;;
  let allChunks := Store.getChunks (db st) in
  let relevantChunks := matchesOrNone queryEmbedding allChunks 5 in
  response <- Generator.generateRAGResponse P (db st) queryText relevantChunks ;;
  now3 <- dateNow P ;;
  now4 <- dateNow P ;;
  let botMsg :=
    {| id := toString (now3 + 1); role := model; content := Generator.text response;
       timestamp := now4; language := Some (Generator.language response);
       citations := Some (map Matcher.docTitle relevantChunks
                          ++ match Generator.citations response with
                             | Some cs => cs
                             | None => []
                             end);
       isAudio := None; shareContent := None |} in
  let st := setMessages (fun prev => prev ++ [botMsg]) st in
  ret (setIsLoading false st).

(** [handleSend].  In the branch of a valid contact the message of the user
    is a literal inside the updater passed to [setMessages], which React
    runs when it renders, at the end of the event: its readings of the
    clock come after those of the lead, and before the embedding call,
    which the handler awaits, has answered. *)
Definition handleSend (st : State) : M W State :=
  if negb (truthy (trim (input st))) then ret st
  else
    let text := input st in
    let messages0 := messages st in
    let st := setInput [] st in
    if waitingForNumber st then
      let digitsOnly := stripNonDigits text in
      if (length digitsOnly <? 10)%nat || (15 <? length digitsOnly)%nat then
        now1 <- dateNow P ;;
        now2 <- dateNow P ;;
        ret (setMessages (fun prev => prev ++
               [plainMessage (toString now1) model
                  (js "Please enter a valid phone number (e.g., +91 95265 69313).") now2]) st)
      else
        let st := setWaitingForNumber false st in
        let lastContext := lastContextOf messages0 in
        now1 <- dateNow P ;;
        now2 <- dateNow P ;;
        let st := setDb (Store.addLead
                    {| Store.id := toString now1;
                       Store.phoneNumber := text;
                       Store.queryContext := substring0 100 lastContext ++ js "...";
                       Store.timestamp := now2 |} (db st)) st in
        let st := setIsLoading true st in
        now3 <- dateNow P ;;
        now4 <- dateNow P ;;
        let st := setMessages (fun prev => prev ++
                    [plainMessage (toString now3) user text now4]) st in
        let topicQuery := topicQueryOf messages0 text in
        queryEmbedding <- getEmbeddings P [topicQuery] ;;
        let allChunks := Store.getChunks (db st) in
        let relevantChunks := matchesOrNone queryEmbedding allChunks 8 in
        let detailedPrompt := detailedPromptOf topicQuery in
        response <- Generator.generateRAGResponse P (db st) detailedPrompt relevantChunks ;;
        let cleanText := removeBold (Generator.text response) in
        let footer := newline ++ newline ++ js "Generated by "
                      ++ Store.appName (settings st) in
        let shareableText := cleanText ++ footer in
        now5 <- dateNow P ;;
        now6 <- dateNow P ;;
        let st := setMessages (fun prev => prev ++
                    [ {| id := js "report-" ++ toString now5; role := model;
                         content := reportContentOf topicQuery (Generator.text response);
                         timestamp := now6; language := None; citations := None;
                         isAudio := None; shareContent := Some shareableText |} ]) st in
        ret (setIsLoading false st)
    else processQuery text false st.

Definition handleKnowMore (st : State) : M W State :=
  now1 <- dateNow P ;;
  now2 <- dateNow P ;;
  let st := setMessages (fun prev => prev ++
              [plainMessage (toString now1) model
                 (js "To generate a **Detailed Report** for you, please verify your **Mobile Number**.")
                 now2]) st in
  ret (setWaitingForNumber true st).

(** The effect that loads the settings and, on an empty conversation, puts
    the welcome message. *)
Definition loadAndSync (st : State) : M W State :=
  let current := Store.getSettings (db st) in
  let st := {| messages := messages st; input := input st; isLoading := isLoading st;
               waitingForNumber := waitingForNumber st; settings := current;
               db := db st |} in
  match messages st with
  | [] =>
      let appName := orElse (Store.appName current) (js "Samastha AI") in
      let description :=
        if truthy (Store.appDescription current)
           && (0 <? length (trim (Store.appDescription current)))%nat
        then Store.appDescription current
        else js "the AI assistant for **Samastha Kerala Jamiyyathul Ulama**. How can I help you today?" in
      now1 <- dateNow P ;;
      ret (setMessages (fun _ =>
             [plainMessage (js "welcome") model
                (js "**Assalamu Alaikum.**" ++ newline ++ newline ++ js "I am "
                 ++ appName ++ js ", " ++ description) now1]) st)
  | _ :: _ => ret st
  end.

(** [handleAudioCaptured], called by the recorder of [VoiceInput] when it
    stops.  [result] is what the [FileReader] has read of the blob.
    [waiting] is the [waitingForNumber] that the handler reads: the recorder
    keeps the handler of the render in which the recording was started, so
    it is the value of that render, not the one of the state.  When
    [blobToBase64] does not settle the handler does not go on, and the
    component stays loading. *)
Definition handleAudioCaptured (waiting : bool) (result : option jsstring) (st : State)
    : M W State :=
  let st := setIsLoading true st in
  match blobToBase64 result with
  | None => ret st
  | Some base64Audio =>
      transcription <- transcribeAudio P base64Audio ;;
      match transcription with
      | Some t =>
          if truthy t then
            if waiting
            then ret (setIsLoading false (setInput t st))
            else processQuery t true st
          else ret (setIsLoading false st)
      | None => ret (setIsLoading false st)
      end
  end.

(** What happens to the component: the settings effect, typing, the send
    button, the know-more button, the end of a recording (with the
    [waitingForNumber] of its start and what was read of the blob), and a
    change of the store made elsewhere. *)
Inductive event :=
| Sync
| Typing (s : jsstring)
| Send
| KnowMore
| Recording (waiting : bool) (result : option jsstring)
| StoreChange (d : Store.DB).

Definition step (e : event) (st : State) : M W State :=
  match e with
  | Sync => loadAndSync st
  | Typing s => ret (setInput s st)
  | Send => handleSend st
  | KnowMore => handleKnowMore st
  | Recording waiting result => handleAudioCaptured waiting result st
  | StoreChange d => ret (setDb d st)
  end.

(** The initial state of the component. *)
Definition initial (d : Store.DB) : State :=
  {| messages := []; input := []; isLoading := false; waitingForNumber := false;
     settings := {| Store.appName := js "Samastha AI"; Store.appDescription := [];
                    Store.systemInstruction := None |};
     db := d |}.

(** The states the component can be in.  The flag of a recording is not
    constrained: it is the one of some earlier render. *)
Inductive reachable : State -> Prop :=
| reachable_initial (d : Store.DB) : reachable (initial d)
| reachable_step (e : event) (st : State) (w : W) :
    reachable st -> reachable (fst (step e st w)).

End Handlers.

End Chat.

(* ================================================================== *)
(** ** The live session: the [onmessage] callback of [connectLiveSession] *)

Module Live.

Import JSNumber JSString World Embedding.

(** A function call of a tool-call message: [fc.id], [fc.name] and
    [fc.args.query]. *)
Record functionCall := {
  id : jsstring;
  name : jsstring;
  query : jsstring
}.

(** What the callback reads of a server message: the audio of the first
    part of the model turn, and the tool call. *)
Record serverMessage := {
  audioData : option jsstring;
  toolCall : option (list functionCall)
}.

(** What the callback sends: [callbacks.onAudioData(data)] and
    [session.sendToolResponse({functionResponses: {id, name, response:
    {result}}})]. *)
Inductive sent :=
| AudioData (data : jsstring)
| ToolResponse (id name result : jsstring).

Section Callback.

Variable W : Type.
Variable P : provider W.

(** The body of the [try] for one call of [search_knowledge_base].
    [getEmbeddings] returns one vector for the one text it is given
    ([EmbeddingFacts.getEmbeddings_length]), so that [embeddings[0]] is that
    vector and the last branch below is never taken. *)
Definition searchKnowledgeBase (db : Store.DB) (fc : functionCall) : M W (list sent) :=
  embeddings <- getEmbeddings P [query fc] ;;
  let chunks := Store.getChunks db in
  match embeddings with
  | first :: _ =>
      let matches := Matcher.findBestMatches first chunks 3 in
      let resultText :=
        orElse (join (newline ++ newline) (map Matcher.text matches))
               (js "No relevant documents found.") in
      ret [ToolResponse (id fc) (name fc) resultText]
  | [] => ret []
  end.

(** [for (const fc of message.toolCall.functionCalls)]. *)
Fixpoint forEachCall (db : Store.DB) (calls : list functionCall) : M W (list sent) :=
  match calls with
  | [] => ret []
  | fc :: rest =>
      out <- (if strictEq (name fc) (js "search_knowledge_base")
              then searchKnowledgeBase db fc
              else ret []) ;;
      more <- forEachCall db rest ;;
      ret (out ++ more)
  end.

Definition onmessage (db : Store.DB) (message : serverMessage) : M W (list sent) :=
  let audio :=
    match audioData message with
    | Some data => if truthy data then [AudioData data] else []
    | None => []
    end in
  match toolCall message with
  | Some calls =>
      responses <- forEachCall db calls ;;
      ret (audio ++ responses)
  | None => ret audio
  end.

End Callback.

End Live.

(* ================================================================== *)
(** ** The whole store: [services/mockFirebase.ts]

    [localStorage] holds six keys.  A key is absent ([None]) until the first
    [setItem]; what [JSON.parse] gives back is what [JSON.stringify] was
    given (the values are arrays, strings, booleans and finite numbers, and
    an absent field stays absent).  [Date.now()] is the clock of the
    provider. *)

Module Doc.

Import JSString.

(** [UploadedDocument], with the two fields the later version adds. *)
Record t := {
  id : jsstring;
  title : jsstring;
  uploadDate : N;
  chunkCount : nat;
  size : N;
  isProcessed : bool;
  category : option jsstring;
  isTrusted : option bool
}.

End Doc.

Module Review.

Import JSString.

(** The fields of [ScholarReview] that the store reads and writes. *)
Record t := {
  id : jsstring;
  query : jsstring;
  aiAnswer : jsstring;
  status : jsstring;
  reviewedBy : option jsstring;
  timestamp : Z
}.

End Review.

Module Log.

Import JSString.

Inductive Severity := Info | Warning | Critical.

(** [AuditLog]. *)
Record t := {
  id : jsstring;
  action : jsstring;
  user : jsstring;
  details : jsstring;
  timestamp : Z;
  severity : Severity
}.

End Log.

Module Settings.

Import JSString.

(** A settings object: each field is there or not.  A stored object has
    the fields it was saved with; the object [getSettings] returns has at
    least the fields of the defaults. *)
Record t := {
  showTextInput : option bool;
  useLiveMode : option bool;
  appName : option jsstring;
  appDescription : option jsstring;
  logoBase64 : option jsstring;
  systemInstruction : option jsstring;
  adminPassword : option jsstring;
  modelSelection : option jsstring;
  safetyThreshold : option jsstring;
  enableVoiceInput : option bool;
  maintenanceMode : option bool
}.

(** [a || b] on an optional field: the field when it is there and truthy. *)
Definition orElseOpt (o : option jsstring) (d : jsstring) : jsstring :=
  match o with
  | Some s => orElse s d
  | None => d
  end.

End Settings.

Module MockDB.

Import JSNumber JSString World.

Record Storage := {
  samastha_docs : option (list Doc.t);
  samastha_chunks : option (list Matcher.DocumentChunk);
  samastha_settings : option Settings.t;
  samastha_leads : option (list Store.Lead);
  samastha_reviews : option (list Review.t);
  samastha_logs : option (list Log.t)
}.

(** An empty [localStorage]. *)
Definition emptyStorage : Storage :=
  {| samastha_docs := None; samastha_chunks := None; samastha_settings := None;
     samastha_leads := None; samastha_reviews := None; samastha_logs := None |}.

(** [localStorage.setItem(KEY, JSON.stringify(value))], key by key. *)
Definition setDocs (v : list Doc.t) (s : Storage) : Storage :=
  {| samastha_docs := Some v; samastha_chunks := samastha_chunks s;
     samastha_settings := samastha_settings s; samastha_leads := samastha_leads s;
     samastha_reviews := samastha_reviews s; samastha_logs := samastha_logs s |}.

Definition setChunks (v : list Matcher.DocumentChunk) (s : Storage) : Storage :=
  {| samastha_docs := samastha_docs s; samastha_chunks := Some v;
     samastha_settings := samastha_settings s; samastha_leads := samastha_leads s;
     samastha_reviews := samastha_reviews s; samastha_logs := samastha_logs s |}.

Definition setSettings (v : Settings.t) (s : Storage) : Storage :=
  {| samastha_docs := samastha_docs s; samastha_chunks := samastha_chunks s;
     samastha_settings := Some v; samastha_leads := samastha_leads s;
     samastha_reviews := samastha_reviews s; samastha_logs := samastha_logs s |}.

Definition setLeads (v : list Store.Lead) (s : Storage) : Storage :=
  {| samastha_docs := samastha_docs s; samastha_chunks := samastha_chunks s;
     samastha_settings := samastha_settings s; samastha_leads := Some v;
     samastha_reviews := samastha_reviews s; samastha_logs := samastha_logs s |}.

Definition setReviews (v : list Review.t) (s : Storage) : Storage :=
  {| samastha_docs := samastha_docs s; samastha_chunks := samastha_chunks s;
     samastha_settings := samastha_settings s; samastha_leads := samastha_leads s;
     samastha_reviews := Some v; samastha_logs := samastha_logs s |}.

Definition setLogs (v : list Log.t) (s : Storage) : Storage :=
  {| samastha_docs := samastha_docs s; samastha_chunks := samastha_chunks s;
     samastha_settings := samastha_settings s; samastha_leads := samastha_leads s;
     samastha_reviews := samastha_reviews s; samastha_logs := Some v |}.

(** [data ? JSON.parse(data) : []]. *)
Definition parsedOrEmpty (A : Type) (data : option (list A)) : list A :=
  match data with
  | Some v => v
  | None => []
  end.

(** [xs.findIndex(p)]: the first index, [None] for [-1]. *)
Fixpoint findIndex (A : Type) (p : A -> bool) (xs : list A) : option nat :=
  match xs with
  | [] => None
  | x :: rest =>
      if p x then Some O
      else match findIndex p rest with
           | Some i => Some (S i)
           | None => None
           end
  end.

(** [xs[i] = v] for an index inside the array. *)
Fixpoint assign (A : Type) (i : nat) (v : A) (xs : list A) : list A :=
  match xs, i with
  | [], _ => []
  | _ :: rest, O => v :: rest
  | x :: rest, S i' => x :: assign i' v rest
  end.

Definition DEFAULT_SYSTEM_INSTRUCTION : jsstring :=
  js "You are an AI assistant for the public information portal of SAMASTHA KERALA JAMIYYATHUL ULAMA."
  ++ newline ++ newline
  ++ js "Your rules:" ++ newline
  ++ js "1. You must answer ONLY questions about Samastha Kerala Jamiyyathul Ulama, its history, leaders, rulings, and institutions."
  ++ newline
  ++ js "2. You must use ONLY the text provided in the context (RAG) or Search Grounding."
  ++ newline
  ++ js "3. If the user asks unrelated questions, politely refuse." ++ newline
  ++ js "4. NEVER hallucinate." ++ newline
  ++ js "5. ALWAYS reply in the same language the user used." ++ newline
  ++ js "6. Keep answers concise unless asked for details.".

(** The object [defaults] of [getSettings]. *)
Definition defaults : Settings.t :=
  {| Settings.showTextInput := Some true;
     Settings.useLiveMode := None;
     Settings.appName := Some (js "Samastha AI");
     Settings.appDescription :=
       Some (js "A multilingual AI assistant for Samastha Kerala Jamiyyathul Ulama.");
     Settings.logoBase64 := None;
     Settings.systemInstruction := Some DEFAULT_SYSTEM_INSTRUCTION;
     Settings.adminPassword := Some (js "rasheequ.designs");
     Settings.modelSelection := Some (js "gemini-2.5-flash");
     Settings.safetyThreshold := Some (js "Medium");
     Settings.enableVoiceInput := Some true;
     Settings.maintenanceMode := Some false |}.

(** A field of [{ ...a, ...b }]: the one of [b] when [b] has it. *)
Definition over (A : Type) (a b : option A) : option A :=
  match b with
  | Some _ => b
  | None => a
  end.

(** [{ ...a, ...b }]. *)
Definition spread (a b : Settings.t) : Settings.t :=
  {| Settings.showTextInput := over (Settings.showTextInput a) (Settings.showTextInput b);
     Settings.useLiveMode := over (Settings.useLiveMode a) (Settings.useLiveMode b);
     Settings.appName := over (Settings.appName a) (Settings.appName b);
     Settings.appDescription := over (Settings.appDescription a) (Settings.appDescription b);
     Settings.logoBase64 := over (Settings.logoBase64 a) (Settings.logoBase64 b);
     Settings.systemInstruction :=
       over (Settings.systemInstruction a) (Settings.systemInstruction b);
     Settings.adminPassword := over (Settings.adminPassword a) (Settings.adminPassword b);
     Settings.modelSelection := over (Settings.modelSelection a) (Settings.modelSelection b);
     Settings.safetyThreshold :=
       over (Settings.safetyThreshold a) (Settings.safetyThreshold b);
     Settings.enableVoiceInput :=
       over (Settings.enableVoiceInput a) (Settings.enableVoiceInput b);
     Settings.maintenanceMode :=
       over (Settings.maintenanceMode a) (Settings.maintenanceMode b) |}.

(** The getters that do not read the clock. *)
Definition getDocuments (s : Storage) : list Doc.t := parsedOrEmpty (samastha_docs s).

Definition getChunks (s : Storage) : list Matcher.DocumentChunk :=
  parsedOrEmpty (samastha_chunks s).

Definition getLeads (s : Storage) : list Store.Lead := parsedOrEmpty (samastha_leads s).

Definition getSettings (s : Storage) : Settings.t :=
  match samastha_settings s with
  | Some data => spread defaults data
  | None => defaults
  end.

Definition addChunks (newChunks : list Matcher.DocumentChunk) (s : Storage) : Storage :=
  setChunks (getChunks s ++ newChunks) s.

Definition updateChunk (updatedChunk : Matcher.DocumentChunk) (s : Storage) : Storage :=
  let chunks := getChunks s in
  match findIndex (fun c => strictEq (Matcher.id c) (Matcher.id updatedChunk)) chunks with
  | Some index => setChunks (assign index updatedChunk chunks) s
  | None => s
  end.

Definition updateDocument (doc : Doc.t) (s : Storage) : Storage :=
  setDocs (map (fun d => if strictEq (Doc.id d) (Doc.id doc) then doc else d)
               (getDocuments s)) s.

Definition addLead (lead : Store.Lead) (s : Storage) : Storage :=
  setLeads (getLeads s ++ [lead]) s.

Section Clocked.

Variable W : Type.
Variable P : provider W.

(** Without stored reviews, the seed data, dated from the present. *)
Definition getReviews (s : Storage) : M W (list Review.t) :=
  match samastha_reviews s with
  | Some data => ret data
  | None =>
      now1 <- dateNow P ;;
      now2 <- dateNow P ;;
      ret [ {| Review.id := js "rev-1";
               Review.query := js "What is the stance on moon sighting?";
               Review.aiAnswer :=
                 js "Samastha follows the traditional method of naked-eye moon sighting for determining the beginning of Islamic months.";
               Review.status := js "Pending";
               Review.reviewedBy := None;
               Review.timestamp := (Z.of_N now1 - 100000)%Z |};
            {| Review.id := js "rev-2";
               Review.query := js "Who founded Samastha?";
               Review.aiAnswer :=
                 js "Samastha Kerala Jamiyyathul Ulama was founded in 1926. Key founding figures include Pangil Ahmed Kutty Musliyar and Varakkal Mullakoya Thangal.";
               Review.status := js "Verified";
               Review.reviewedBy := Some (js "Scholar A");
               Review.timestamp := (Z.of_N now2 - 500000)%Z |} ]
  end.

Definition getLogs (s : Storage) : M W (list Log.t) :=
  match samastha_logs s with
  | Some data => ret data
  | None =>
      now <- dateNow P ;;
      ret [ {| Log.id := js "log-1"; Log.action := js "Login";
               Log.user := js "rasheequ.designs@gmail.com";
               Log.details := js "Successful login";
               Log.timestamp := (Z.of_N now - 1000)%Z;
               Log.severity := Log.Info |} ]
  end.

(** [logs.pop()] when there are more than 100, then [logs.unshift(newLog)]. *)
Definition logAction (action user details : jsstring) (severity : Log.Severity)
    (s : Storage) : M W Storage :=
  logs <- getLogs s ;;
  now1 <- dateNow P ;;
  now2 <- dateNow P ;;
  let newLog :=
    {| Log.id := js "log-" ++ toString now1; Log.action := action; Log.user := user;
       Log.details := details; Log.timestamp := Z.of_N now2;
       Log.severity := severity |} in
  let logs := if (100 <? length logs)%nat then removelast logs else logs in
  ret (setLogs (newLog :: logs) s).

Definition addDocument (doc : Doc.t) (s : Storage) : M W Storage :=
  let s := setDocs (getDocuments s ++ [doc]) s in
  logAction (js "Upload") (js "Admin") (js "Uploaded document: " ++ Doc.title doc)
    Log.Info s.

Definition deleteDocument (id : jsstring) (s : Storage) : M W Storage :=
  let docs := getDocuments s in
  let doc := find (fun d => strictEq (Doc.id d) id) docs in
  let s := setDocs (filter (fun d => negb (strictEq (Doc.id d) id)) docs) s in
  let s := setChunks (filter (fun c => negb (strictEq (Matcher.docId c) id)) (getChunks s)) s in
  match doc with
  | Some d =>
      logAction (js "Delete") (js "Admin") (js "Deleted document: " ++ Doc.title d)
        Log.Warning s
  | None => ret s
  end.

Definition saveSettings (settings : Settings.t) (s : Storage) : M W Storage :=
  logAction (js "Config") (js "Super Admin") (js "Updated system settings") Log.Info
    (setSettings settings s).

Definition updateReview (review : Review.t) (s : Storage) : M W Storage :=
  reviews <- getReviews s ;;
  let reviews :=
    match findIndex (fun r => strictEq (Review.id r) (Review.id review)) reviews with
    | Some index => assign index review reviews
    | None => reviews ++ [review]
    end in
  logAction (js "Review") (js "Scholar")
    (js "Review status updated to " ++ Review.status review ++ js " for ID: "
     ++ Review.id review)
    Log.Info (setReviews reviews s).

(** The statements that run when the module is loaded: the seed document
    and its chunk, when there is no document. *)
Definition seed (s : Storage) : M W Storage :=
  match getDocuments s with
  | [] =>
      let seedId := js "seed-1" in
      now <- dateNow P ;;
      s <- addDocument
             {| Doc.id := seedId; Doc.title := js "Samastha Constitution";
                Doc.uploadDate := now; Doc.chunkCount := 1; Doc.size := 1024;
                Doc.isProcessed := true; Doc.category := Some (js "Constitution");
                Doc.isTrusted := Some true |} s ;;
      ret (addChunks
             [ {| Matcher.id := js "chunk-1"; Matcher.docId := seedId;
                  Matcher.docTitle := js "Samastha Constitution";
                  Matcher.text :=
                    js "Samastha Kerala Jamiyyathul Ulama is the largest Muslim organization in Kerala, established in 1926. It was formed to propagate the true teachings of Islam and defend against innovations.";
                  Matcher.embedding := Some (repeat 0.1%float 768) |} ] s)
  | _ :: _ => ret s
  end.

(** What an administrator, a scholar or a visitor does to the store, and
    the page being loaded again. *)
Inductive operation :=
| AddDocument (doc : Doc.t)
| UpdateDocument (doc : Doc.t)
| DeleteDocument (id : jsstring)
| AddChunks (newChunks : list Matcher.DocumentChunk)
| UpdateChunk (updatedChunk : Matcher.DocumentChunk)
| SaveSettings (settings : Settings.t)
| AddLead (lead : Store.Lead)
| UpdateReview (review : Review.t)
| LogAction (action user details : jsstring) (severity : Log.Severity)
| Reload.

Definition perform (o : operation) (s : Storage) : M W Storage :=
  match o with
  | AddDocument doc => addDocument doc s
  | UpdateDocument doc => ret (updateDocument doc s)
  | DeleteDocument id => deleteDocument id s
  | AddChunks newChunks => ret (addChunks newChunks s)
  | UpdateChunk updatedChunk => ret (updateChunk updatedChunk s)
  | SaveSettings settings => saveSettings settings s
  | AddLead lead => ret (addLead lead s)
  | UpdateReview review => updateReview review s
  | LogAction action user details severity => logAction action user details severity s
  | Reload => seed s
  end.

(** The stores the program can produce from an empty [localStorage]: the
    module is loaded, then operations follow. *)
Inductive produced : Storage -> Prop :=
| produced_seed (w : W) : produced (fst (seed emptyStorage w))
| produced_perform (o : operation) (s : Storage) (w : W) :
    produced s -> produced (fst (perform o s w)).

End Clocked.

(** The store as the chat assistant reads it. *)
Definition appSettingsOf (settings : Settings.t) : Store.AppSettings :=
  {| Store.appName := Generator.optString (Settings.appName settings);
     Store.appDescription := Generator.optString (Settings.appDescription settings);
     Store.systemInstruction := Settings.systemInstruction settings |}.

Definition view (s : Storage) : Store.DB :=
  {| Store.chunks := getChunks s;
     Store.leads := getLeads s;
     Store.settings := appSettingsOf (getSettings s) |}.

End MockDB.

(* ================================================================== *)
(** ** Text extraction: [extractTextFromPdf] of [services/pdfService.ts] *)

Module PdfService.

Import JSString.

(** What the handlers read of a [File]: its name, its MIME type, its size
    and what pdf.js finds in it, the [str] of the text items of every page;
    [None] when pdf.js rejects the file. *)
Record File := {
  name : jsstring;
  type : jsstring;
  size : N;
  pages : option (list (list jsstring))
}.

(** One turn of the loop over the pages:
    [fullText += items.map(item => item.str).join(' ') + '\n']. *)
Definition addPage (fullText : jsstring) (items : list jsstring) : jsstring :=
  fullText ++ join (js " ") items ++ newline.

Definition extractTextFromPdf (file : File) : option (jsstring * nat) :=
  match pages file with
  | Some ps => Some (fold_left addPage ps [], length ps)
  | None => None
  end.

End PdfService.

(* ================================================================== *)
(** ** The administration: the handlers of the admin panel and the login *)

Module Admin.

Import JSNumber JSString World Embedding PdfService MockDB.

(** [xs.map((x, i) => f(x, i))], from the index [i]. *)
Fixpoint mapFrom (A B : Type) (i : nat) (f : A -> nat -> B) (xs : list A) : list B :=
  match xs with
  | [] => []
  | x :: rest => f x i :: mapFrom (S i) f rest
  end.

(** [embeddings[i] || []]. *)
Definition embeddingAt (embeddings : list (list number)) (i : nat) : list number :=
  match nth_error embeddings i with
  | Some e => e
  | None => []
  end.

Definition chunksWithEmbeddings (docId fileName : jsstring) (textChunks : list jsstring)
    (embeddings : list (list number)) : list Matcher.DocumentChunk :=
  mapFrom 0
    (fun t i =>
       {| Matcher.id := docId ++ js "-chunk-" ++ toString (N.of_nat i);
          Matcher.docId := docId;
          Matcher.docTitle := fileName;
          Matcher.text := t;
          Matcher.embedding := Some (embeddingAt embeddings i) |})
    textChunks.

(** How [handleFileUpload] ends: without a file, with an alert, or with an
    upload status. *)
Inductive outcome :=
| NoFile
| Alert (message : jsstring)
| Status (uploadStatus : jsstring).

Section Handlers.

Variable W : Type.
Variable P : provider W.

(** [handleFileUpload] on [e.target.files]. *)
Definition handleFileUpload (files : list File) (s : Storage) : M W (outcome * Storage) :=
  match files with
  | [] => ret (NoFile, s)
  | file :: _ =>
      if negb (strictEq (type file) (js "application/pdf"))
      then ret (Alert (js "Please upload a valid PDF file."), s)
      else
        match extractTextFromPdf file with
        | None => ret (Status (js "Error"), s)
        | Some (text, pageCount) =>
            let textChunks := Chunker.chunkText text 500 in
            embeddings <- getEmbeddings P textChunks ;;
            now1 <- dateNow P ;;
            let docId := js "doc-" ++ toString now1 in
            now2 <- dateNow P ;;
            let newDoc :=
              {| Doc.id := docId; Doc.title := name file; Doc.uploadDate := now2;
                 Doc.chunkCount := length textChunks; Doc.size := size file;
                 Doc.isProcessed := true; Doc.category := Some (js "General");
                 Doc.isTrusted := Some false |} in
            let chunks := chunksWithEmbeddings docId (name file) textChunks embeddings in
            s <- addDocument P newDoc s ;;
            ret (Status (js "Done"), addChunks chunks s)
        end
  end.

(** The delete button: [if (confirm(...)) mockDB.deleteDocument(id)]. *)
Definition handleDelete (confirmed : bool) (id : jsstring) (s : Storage) : M W Storage :=
  if confirmed then deleteDocument P id s else ret s.

(** [handleReviewAction]:
    [{ ...review, status: action, reviewedBy: 'Current Admin' }]. *)
Definition handleReviewAction (review : Review.t) (action : jsstring) (s : Storage)
    : M W Storage :=
  let updated :=
    {| Review.id := Review.id review; Review.query := Review.query review;
       Review.aiAnswer := Review.aiAnswer review; Review.status := action;
       Review.reviewedBy := Some (js "Current Admin");
       Review.timestamp := Review.timestamp review |} in
  updateReview P updated s.

End Handlers.

(** The number that a timestamp is: [Date.now()] returns an integer, far
    below [2 ^ 63]. *)
Definition toNumber (n : N) : number := PrimFloat.of_uint63 (Uint63.of_Z (Z.of_N n)).

(** [loadLeads]:
    [mockDB.getLeads().sort((a, b) => b.timestamp - a.timestamp)]. *)
Definition byTimestampDesc (a b : Store.Lead) : number :=
  (toNumber (Store.timestamp b) - toNumber (Store.timestamp a))%float.

Definition loadLeads (s : Storage) : list Store.Lead :=
  JSArray.sort byTimestampDesc (getLeads s).

(** The inspect button: the chunks of a document. *)
Definition handleInspect (docId : jsstring) (s : Storage) : list Matcher.DocumentChunk :=
  filter (fun c => strictEq (Matcher.docId c) docId) (getChunks s).

(** The edit button of the passage editor, with the answer to the prompt
    ([None] when it is cancelled):
    [if (newText) mockDB.updateChunk({ ...chunk, text: newText })]. *)
Definition editPassage (chunk : Matcher.DocumentChunk) (newText : option jsstring)
    (s : Storage) : Storage :=
  match newText with
  | Some t =>
      if truthy t
      then updateChunk
             {| Matcher.id := Matcher.id chunk; Matcher.docId := Matcher.docId chunk;
                Matcher.docTitle := Matcher.docTitle chunk; Matcher.text := t;
                Matcher.embedding := Matcher.embedding chunk |} s
      else s
  | None => s
  end.

(** The settings form of [AdminPanel.tsx]: the component's copy of the
    settings and the mirrors of the fields that are edited. *)
Record Form := {
  settings : Settings.t;
  appName : jsstring;
  appDescription : jsstring;
  systemInstruction : jsstring;
  adminPassword : jsstring;
  logoPreview : option jsstring
}.

(** [handleGeneralSave]: the object that is saved,
    [{ ...settings, appName, appDescription, logoBase64: logoPreview ||
    undefined, systemInstruction, adminPassword }]. *)
Definition updatedSettings (f : Form) : Settings.t :=
  {| Settings.showTextInput := Settings.showTextInput (settings f);
     Settings.useLiveMode := Settings.useLiveMode (settings f);
     Settings.appName := Some (appName f);
     Settings.appDescription := Some (appDescription f);
     Settings.logoBase64 :=
       match logoPreview f with
       | Some l => if truthy l then Some l else None
       | None => None
       end;
     Settings.systemInstruction := Some (systemInstruction f);
     Settings.adminPassword := Some (adminPassword f);
     Settings.modelSelection := Settings.modelSelection (settings f);
     Settings.safetyThreshold := Settings.safetyThreshold (settings f);
     Settings.enableVoiceInput := Settings.enableVoiceInput (settings f);
     Settings.maintenanceMode := Settings.maintenanceMode (settings f) |}.

(** [x || null] on an optional string. *)
Definition truthyOpt (o : option jsstring) : option jsstring :=
  match o with
  | Some l => if truthy l then Some l else None
  | None => None
  end.

(** The component's [saveSettings]: the state and its mirrors. *)
Definition formOf (newSettings : Settings.t) : Form :=
  {| settings := newSettings;
     appName := Generator.optString (Settings.appName newSettings);
     appDescription := Generator.optString (Settings.appDescription newSettings);
     systemInstruction := Settings.orElseOpt (Settings.systemInstruction newSettings) [];
     adminPassword := Settings.orElseOpt (Settings.adminPassword newSettings) [];
     logoPreview := truthyOpt (Settings.logoBase64 newSettings) |}.

Section Saving.

Variable W : Type.
Variable P : provider W.

Definition saveSettings (newSettings : Settings.t) (s : Storage) : M W (Form * Storage) :=
  s <- MockDB.saveSettings P newSettings s ;;
  ret (formOf newSettings, s).

Definition handleGeneralSave (f : Form) (s : Storage) : M W (Form * Storage) :=
  saveSettings (updatedSettings f) s.

End Saving.

(** [handleLogin] of the login page, with the page's copy of the settings:
    [true] for [onLoginSuccess()], [false] for the error. *)
Definition handleLogin (settings : Settings.t) (email password : jsstring) : bool :=
  let validPassword :=
    Settings.orElseOpt (Settings.adminPassword settings) (js "rasheequ.designs") in
  strictEq email (js "rasheequ.designs@gmail.com") && strictEq password validPassword.

End Admin.

(* ================================================================== *)
(** ** The audio of the live session: the helpers of [ChatInterface.tsx]

    A typed array is the list of its elements; a [Uint8Array] holds numbers
    below 256, an [Int16Array] integers from -32768 to 32767.  The view of
    an [Int16Array] on the bytes of a buffer is little-endian, as on the
    platforms browsers run on.  [btoa] and [atob] follow the HTML standard
    (forgiving-base64 encode and decode), a call that throws returns
    [None]. *)

Module Audio.

Import JSNumber JSString.

Local Open Scope N_scope.

(** The base64 alphabet. *)
Definition encodeSextet (n : N) : N :=
  if n <? 26 then 65 + n
  else if n <? 52 then 97 + (n - 26)
  else if n <? 62 then 48 + (n - 52)
  else if n =? 62 then 43
  else 47.

Definition decodeChar (c : N) : option N :=
  if (65 <=? c) && (c <=? 90) then Some (c - 65)
  else if (97 <=? c) && (c <=? 122) then Some (c - 97 + 26)
  else if (48 <=? c) && (c <=? 57) then Some (c - 48 + 52)
  else if c =? 43 then Some 62
  else if c =? 47 then Some 63
  else None.

Definition equalsSign : N := 61.

(** The sextets of the bytes, three bytes at a time; a last group of one or
    two bytes is filled up with zero bits. *)
Fixpoint sextets (bytes : list N) : jsstring :=
  match bytes with
  | a :: b :: c :: rest =>
      encodeSextet (a / 4) :: encodeSextet ((a mod 4) * 16 + b / 16)
      :: encodeSextet ((b mod 16) * 4 + c / 64) :: encodeSextet (c mod 64)
      :: sextets rest
  | [a; b] =>
      [encodeSextet (a / 4); encodeSextet ((a mod 4) * 16 + b / 16);
       encodeSextet ((b mod 16) * 4)]
  | [a] => [encodeSextet (a / 4); encodeSextet ((a mod 4) * 16)]
  | [] => []
  end.

Definition padding (n : nat) : jsstring :=
  match Nat.modulo n 3 with
  | 1%nat => [equalsSign; equalsSign]
  | 2%nat => [equalsSign]
  | _ => []
  end.

(** [btoa(s)]: it throws when [s] has a code unit above 255. *)
Definition btoa (s : jsstring) : option jsstring :=
  if forallb (fun c => c <=? 255) s
  then Some (sextets s ++ padding (length s))
  else None.

(** ASCII white space: tab, line feed, form feed, carriage return, space. *)
Definition isAsciiWhitespace (c : N) : bool :=
  (c =? 9) || (c =? 10) || (c =? 12) || (c =? 13) || (c =? 32).

(** One or two [=] at the end are removed. *)
Definition stripPadding (s : jsstring) : jsstring :=
  match rev s with
  | x :: y :: r =>
      if x =? equalsSign
      then if y =? equalsSign then rev r else rev (y :: r)
      else s
  | [x] => if x =? equalsSign then [] else s
  | [] => s
  end.

(** The bytes of the sextets, four characters at a time; of a last group of
    two or three characters the bits that do not fill a byte are dropped.
    [None] for a character outside the alphabet. *)
Fixpoint decodeSextets (s : jsstring) : option (list N) :=
  match s with
  | a :: b :: c :: d :: rest =>
      match decodeChar a, decodeChar b, decodeChar c, decodeChar d, decodeSextets rest with
      | Some x, Some y, Some z, Some t, Some bytes =>
          Some (x * 4 + y / 16 :: (y mod 16) * 16 + z / 4 :: (z mod 4) * 64 + t :: bytes)
      | _, _, _, _, _ => None
      end
  | [a; b; c] =>
      match decodeChar a, decodeChar b, decodeChar c with
      | Some x, Some y, Some z => Some [x * 4 + y / 16; (y mod 16) * 16 + z / 4]
      | _, _, _ => None
      end
  | [a; b] =>
      match decodeChar a, decodeChar b with
      | Some x, Some y => Some [x * 4 + y / 16]
      | _, _ => None
      end
  | [_] => None
  | [] => Some []
  end.

(** [atob(data)]: white space is removed; when the length is then a
    multiple of 4, one or two [=] at the end are removed; a length that
    leaves the remainder 1, or a character outside the alphabet, makes it
    throw. *)
Definition atob (data : jsstring) : option jsstring :=
  let data := filter (fun c => negb (isAsciiWhitespace c)) data in
  let data := if (Nat.modulo (length data) 4 =? 0)%nat then stripPadding data else data in
  if (Nat.modulo (length data) 4 =? 1)%nat then None else decodeSextets data.

(** [base64ToUint8Array]: [bytes[i] = binaryString.charCodeAt(i)]. *)
Definition base64ToUint8Array (base64 : jsstring) : option (list N) :=
  match atob base64 with
  | Some binaryString => Some (map (fun c => c mod 256) binaryString)
  | None => None
  end.

(** The integer part of a number, towards zero; 0 for [NaN] and the
    infinities. *)
Definition truncate (x : number) : Z :=
  match Prim2SF x with
  | S754_finite s m e =>
      let v := if (0 <=? e)%Z then (Zpos m * 2 ^ e)%Z else (Zpos m / 2 ^ (- e))%Z in
      if s then (- v)%Z else v
  | _ => 0%Z
  end.

(** [ToInt16], the conversion of a number stored in an [Int16Array]. *)
Definition toInt16 (x : number) : Z :=
  let int16bit := (truncate x mod 65536)%Z in
  if (32768 <=? int16bit)%Z then (int16bit - 65536)%Z else int16bit.

(** The number that an element of an [Int16Array] reads as. *)
Definition ofInt16 (v : Z) : number :=
  if (v <? 0)%Z
  then (- PrimFloat.of_uint63 (Uint63.of_Z (- v)))%float
  else PrimFloat.of_uint63 (Uint63.of_Z v).

(** [new Uint8Array(int16.buffer)]: the two bytes of every element. *)
Definition bytesOfInt16 (v : Z) : list N :=
  let u := Z.to_N (v mod 65536) in [u mod 256; u / 256].

(** [new Int16Array(rawBytes.buffer)]: it throws when the number of bytes
    is odd. *)
Fixpoint int16sOfBytes (bytes : list N) : option (list Z) :=
  match bytes with
  | lo :: hi :: rest =>
      match int16sOfBytes rest with
      | Some elements =>
          let u := Z.of_N (lo + 256 * hi) in
          Some ((if (32768 <=? u)%Z then (u - 65536)%Z else u) :: elements)
      | None => None
      end
  | [_] => None
  | [] => Some []
  end.

(** [String.fromCharCode(b)]. *)
Definition fromCharCode (b : N) : N := b mod 65536.

(** [processor.onaudioprocess]: the samples of the microphone, the elements
    of a [Float32Array] read as numbers, become 16-bit integers,
    [int16[i] = inputData[i] * 32768], their bytes a binary string, and the
    string the base64 [data] of the message sent. *)
Definition onaudioprocess (inputData : list number) : option jsstring :=
  let int16 := map (fun x => toInt16 (x * 32768)%float) inputData in
  let bytes := flat_map bytesOfInt16 int16 in
  let binary := map fromCharCode bytes in
  btoa binary.

(** The number read back from an element of a [Float32Array] after [x] is
    stored in it: [x] rounded to the nearest number of single precision,
    ties to even, an infinity beyond the range of single precision. *)
Definition fround (x : number) : number :=
  match Prim2SF x with
  | S754_finite s m e => SF2Prim (SpecFloat.binary_round 24 128 s m e)
  | _ => x
  end.

(** What [onAudioData] does with a message: nothing, or it plays a buffer
    with these samples. *)
Inductive playback :=
| Skipped
| Played (channelData : list number).

(** [onAudioData], with [outputAudioContext] telling whether the output
    audio context is there; without it the callback returns at once.  It
    throws ([None]) where [atob] does, where [new Int16Array(buffer)] does,
    on an odd number of bytes, and where [ctx.createBuffer(1, length,
    24000)] does, on the length 0.  Otherwise the samples written to the
    channel of the buffer are [channelData[i] = dataInt16[i] / 32768.0], as
    the [Float32Array] holds them.  The scheduling of the buffer on the
    audio context is not modelled. *)
Definition onAudioData (outputAudioContext : bool) (base64 : jsstring) : option playback :=
  if negb outputAudioContext then Some Skipped
  else
    match base64ToUint8Array base64 with
    | Some rawBytes =>
        match int16sOfBytes rawBytes with
        | Some [] => None
        | Some dataInt16 =>
            Some (Played (map (fun v => fround (ofInt16 v / 32768)%float) dataInt16))
        | None => None
        end
    | None => None
    end.

End Audio.

(* ================================================================== *)
(** * The vocabulary of the properties

    What the statements and the proofs below speak of, besides the program
    itself: the value of a binary64 number, the ranking of the chunks, the
    content of a text, providers that log or count their calls, the retrieval
    pipeline in the words of the specification, and sample data. *)

(* ================================================================== *)
(** ** Binary64 values *)

Module Binary64.

Local Open Scope Z_scope.

(** The specification of binary64 is written with the core library's integer
    operations; they are the ones of [Z]. *)
Ltac z_ops :=
  change IntDef.Z.max with Z.max in *; change IntDef.Z.min with Z.min in *;
  change IntDef.Z.add with Z.add in *; change IntDef.Z.sub with Z.sub in *;
  change IntDef.Z.mul with Z.mul in *; change IntDef.Z.opp with Z.opp in *.

Ltac compare_by_lia :=
  f_equal; symmetry;
  first [ apply Z.compare_eq_iff; lia
        | apply Z.compare_lt_iff; lia
        | apply Z.compare_gt_iff; lia ].

(** A non-zero finite number or an infinity, of the sign [s]. *)
Definition signed (s : bool) (r : spec_float) : Prop :=
  match r with
  | S754_finite s' _ _ | S754_infinity s' => s' = s
  | _ => False
  end.

(** Above every finite value: the mantissa is below [2 ^ 53] and the
    exponent at most 971. *)
Definition INF : Z := 2 ^ 2098.

(** The value of a number that is not [NaN], in units of the smallest
    subnormal, [2 ^ -1074]; the infinities lie beyond the finite values. *)
Definition valZ (x : spec_float) : Z :=
  match x with
  | S754_zero _ | S754_nan => 0
  | S754_infinity s => cond_Zopp s INF
  | S754_finite s m e => cond_Zopp s (Zpos m * 2 ^ (e + 1074))
  end.

Definition ordZ (x : float) : Z := valZ (Prim2SF x).

End Binary64.

(* ================================================================== *)
(** ** Orders and rankings *)

Module MatcherSpec.

Import JSNumber JSArray JSString Matcher.

Local Open Scope float_scope.

(** Largest key first. *)
Definition desc (A : Type) (key : A -> Z) (a b : A) : Prop := (key b <= key a)%Z.

(** The truthiness test [chunk.embedding ? ... : ...]. *)
Definition hasEmbedding (c : DocumentChunk) : bool :=
  match embedding c with Some _ => true | None => false end.

(** The comparator, read on the chunks themselves. *)
Definition chunkCompare (q : list number) (a b : DocumentChunk) : number :=
  scoreOf q b - scoreOf q a.

(** [Number.isFinite]: neither [NaN] nor an infinity. *)
Definition isFinite (x : number) : bool :=
  match Prim2SF x with
  | S754_zero _ | S754_finite _ _ _ => true
  | _ => false
  end.

(** The query padded with zeros to the length of an embedding. *)
Definition zeroPadded (vecA vecB : list number) : list number :=
  vecA ++ repeat 0 (length vecB - length vecA).

(** The score is defined: it is a number, not [NaN]. *)
Definition defined (q : list number) (c : DocumentChunk) : Prop :=
  isNaN (scoreOf q c) = false.

Definition rank (q : list number) (c : DocumentChunk) : Z :=
  Binary64.ordZ (scoreOf q c).

(** A corpus of four chunks, for the query [(1, 0)]. *)
Definition chunkOf (name : jsstring) (e : option (list number)) : DocumentChunk :=
  {| id := name; docId := js "doc"; docTitle := js "doc"; text := name; embedding := e |}.

Definition sampleCorpus : list DocumentChunk :=
  [ chunkOf (js "A") (Some [0; 1]);
    chunkOf (js "B") (Some [1; 1]);
    chunkOf (js "C") (Some [1; 0]);
    chunkOf (js "D") None ].

(** A chunk without embedding, and a chunk that points away from the query
    [(1)]. *)
Definition tieMissing : DocumentChunk := chunkOf (js "M") None.
Definition tieOpposite : DocumentChunk := chunkOf (js "V") (Some [-1]).

End MatcherSpec.

(* ================================================================== *)
(** ** Texts *)

Module ChunkerSpec.

Import JSString Chunker.

(** The content of a text: what is left when white space is ignored. *)
Definition content (s : jsstring) : jsstring :=
  filter (fun c => negb (isWhiteSpace c)) s.

(** The text ends a sentence: it is empty or its last character is a
    terminator. *)
Definition endsSentence (s : jsstring) : bool :=
  match rev s with [] => true | c :: _ => isTerminator c end.

(** The text has a white-space character followed by a line feed. *)
Fixpoint hasBreak (s : jsstring) : bool :=
  match s with
  | c :: rest =>
      match rest with
      | c' :: _ => (isWhiteSpace c && (c' =? 10)%N) || hasBreak rest
      | [] => false
      end
  | [] => false
  end.

(** A tail without terminator and without such a break. *)
Definition unterminated (tail : jsstring) : bool :=
  forallb notTerminator tail && negb (hasBreak tail).

(** [hay.startsWith(needle)] and [hay.includes(needle)]. *)
Fixpoint startsWith (needle hay : jsstring) : bool :=
  match needle, hay with
  | [], _ => true
  | x :: n', y :: h' => (x =? y)%N && startsWith n' h'
  | _ :: _, [] => false
  end.

Fixpoint includes (needle hay : jsstring) : bool :=
  startsWith needle hay
  || match hay with
     | [] => false
     | _ :: h' => includes needle h'
     end.

End ChunkerSpec.

(* ================================================================== *)
(** ** Providers *)

Module EmbeddingSpec.

Import JSNumber JSString World Embedding.

(** The provider [P] with a log of the texts sent to [embedContent]. *)
Definition logged (W : Type) (P : provider W) : provider (W * list jsstring) :=
  {| embedContent := fun text '(w, log) =>
       let '(r, w') := embedContent P text w in (r, (w', log ++ [text]));
     generateContent := fun prompt instruction '(w, log) =>
       let '(r, w') := generateContent P prompt instruction w in (r, (w', log));
     transcribeAudio := fun audio '(w, log) =>
       let '(t, w') := transcribeAudio P audio w in (t, (w', log));
     dateNow := fun '(w, log) =>
       let '(t, w') := dateNow P w in (t, (w', log)) |}.

(** A provider that counts its calls, fails on the text [boom] and embeds
    every other text as [(1)]; its generation call throws, its clock shows
    0. *)
Definition countingProvider : provider nat :=
  {| embedContent := fun text n =>
       (if strictEq text (js "boom") then EmbedThrows else EmbedValues [1%float], S n);
     generateContent := fun _ _ n => (GenerateThrows, S n);
     transcribeAudio := fun _ n => (None, S n);
     dateNow := fun n => (0%N, n) |}.

End EmbeddingSpec.

(* ================================================================== *)
(** ** The conversation *)

Module ChatSpec.

Import JSNumber JSString World Embedding Chat EmbeddingSpec.

Local Open Scope nat_scope.

(** Runs a computation of the monad: names the result and the world of
    every call it awaits. *)
Ltac run :=
  unfold bind, ret;
  repeat (match goal with
          | |- context [let '(_, _) := ?c in _] =>
              let r := fresh "r" in let w := fresh "w" in
              destruct c as [r w] eqn:?
          end; cbn [fst snd]);
  cbn [fst snd].

Definition validationFailure : jsstring :=
  js "Please enter a valid phone number (e.g., +91 95265 69313).".

Definition defaultTopic : jsstring := js "Samastha Kerala Jamiyyathul Ulama".

(** The test of [handleSend] on the digits of a submission. *)
Definition validContact (text : jsstring) : bool :=
  negb ((length (stripNonDigits text) <? 10) || (15 <? length (stripNonDigits text))).

(** Every message of the model has a content, and while a contact is awaited
    the conversation holds a message of the model. *)
Definition modelsSpeak (ms : list Message) : Prop :=
  Forall (fun m => role m = model -> content m <> []) ms.

Definition inv (st : State) : Prop :=
  modelsSpeak (messages st)
  /\ (waitingForNumber st = true -> exists m, In m (messages st) /\ role m = model).

Section Pipeline.

Variable W : Type.
Variable P : provider W.

(** The pipeline of a turn, in the words of the specification: the query is
    embedded, the [topK] best chunks of the store are retrieved (none when
    the embedding is empty), and the answer is generated from them. *)
Definition retrieve (d : Store.DB) (query : jsstring) (topK : nat)
    : M W (list Matcher.DocumentChunk) :=
  queryEmbedding <- getEmbeddings P [query] ;;
  ret (matchesOrNone queryEmbedding (Store.getChunks d) topK).

Definition ragTurn (d : Store.DB) (topK : nat) (query prompt : jsstring)
    : M W (list Matcher.DocumentChunk * Generator.ragResponse) :=
  relevantChunks <- retrieve d query topK ;;
  response <- Generator.generateRAGResponse P d prompt relevantChunks ;;
  ret (relevantChunks, response).

(** The world after [n] readings of the clock. *)
Fixpoint ticks (n : nat) (w : W) : W :=
  match n with
  | O => w
  | S n' => ticks n' (snd (dateNow P w))
  end.

End Pipeline.

(** A store, and conversations with the counting provider: the welcome
    message, possibly a question, the know-more button, and a text typed
    in. *)
Definition sampleDb : Store.DB :=
  {| Store.chunks := MatcherSpec.sampleCorpus;
     Store.leads := [];
     Store.settings := {| Store.appName := js "Samastha AI";
                          Store.appDescription := [];
                          Store.systemInstruction := None |} |}.

Definition awaitingWith (text : jsstring) : State :=
  fst (step countingProvider (Typing text)
    (fst (step countingProvider KnowMore
      (fst (step countingProvider Sync (initial sampleDb) 0)) 0)) 0).

Definition askedThenAwaiting (question contact : jsstring) : State :=
  fst (step countingProvider (Typing contact)
    (fst (step countingProvider KnowMore
      (fst (step countingProvider Send
        (fst (step countingProvider (Typing question)
          (fst (step countingProvider Sync (initial sampleDb) 0)) 0)) 0))
      0)) 0).

Definition askedBefore (contact : jsstring) : State :=
  askedThenAwaiting (js "What is Samastha?") contact.

Definition askedContact : State :=
  askedThenAwaiting (js "9526569313") (js "9526569313").

(** A provider that transcribes every recording as a question and answers
    every generation request with a text of more than 100 characters. *)
Definition longAnswer : jsstring :=
  js "Samastha Kerala Jamiyyathul Ulama was founded in 1926 and is the largest organisation of Muslim scholars in Kerala.".

Definition lecturingProvider : provider nat :=
  {| embedContent := fun _ n => (EmbedValues [1%float], S n);
     generateContent := fun _ _ n =>
       (GenerateReturns {| responseText := Some longAnswer; groundingChunks := None |},
        S n);
     transcribeAudio := fun _ n => (Some (js "What is Samastha?"), S n);
     dateNow := fun n => (0%N, n) |}.

(** A conversation in which a recording, started before the know-more
    button was pressed, ends after it: its question is answered while the
    contact is awaited. *)
Definition answeredWhileAwaiting (contact : jsstring) : State :=
  fst (step lecturingProvider (Typing contact)
    (fst (step lecturingProvider
            (Recording false (Some (js "data:audio/webm;base64,GkXfo59ChoEB")))
      (fst (step lecturingProvider KnowMore
        (fst (step lecturingProvider Sync (initial sampleDb) 0)) 0)) 0)) 0).

End ChatSpec.

(* ================================================================== *)
(** ** The live session *)

Module LiveSpec.

Import JSNumber JSString World Embedding Live.

Definition sentinel : jsstring := js "No relevant documents found.".

Definition blankLine : jsstring := newline ++ newline.

(** The result string of a search. *)
Definition resultOf (d : Store.DB) (queryEmbedding : list number) : jsstring :=
  orElse (join blankLine
            (map Matcher.text (Matcher.findBestMatches queryEmbedding (Store.getChunks d) 3)))
         sentinel.

(** A store with a chunk on the sighting of the moon, and a call that asks
    for it. *)
Definition moonChunk (e : option (list number)) : Matcher.DocumentChunk :=
  {| Matcher.id := js "doc-1-chunk-0"; Matcher.docId := js "doc-1";
     Matcher.docTitle := js "calendar.pdf";
     Matcher.text := js "The moon sighting committee announces the new month.";
     Matcher.embedding := e |}.

Definition otherChunk (n : jsstring) : Matcher.DocumentChunk :=
  {| Matcher.id := n; Matcher.docId := js "doc-2"; Matcher.docTitle := js "history.pdf";
     Matcher.text := js "Samastha was established in 1926.";
     Matcher.embedding := Some [1%float] |}.

Definition storeOf (cs : list Matcher.DocumentChunk) : Store.DB :=
  {| Store.chunks := cs; Store.leads := [];
     Store.settings := {| Store.appName := js "Samastha AI"; Store.appDescription := [];
                          Store.systemInstruction := None |} |}.

Definition callFor (q : jsstring) : functionCall :=
  {| id := js "call-1"; name := js "search_knowledge_base"; query := q |}.

End LiveSpec.

(* ================================================================== *)
(** ** The keyboard shortcut of the chat: [handleKeyDown]

    The handler searches the last message for a phrase, with
    [ChunkerSpec.includes]. *)

Module Shortcuts.

Import JSString World Chat.

(** The condition under which the know-more button is shown for the last
    message, [msg.role === 'model' && !isLoading && !waitingForNumber &&
    !msg.content.includes("Mobile Number") && !msg.shareContent]. *)
Definition isActionable (msg : Message) (st : State) : bool :=
  roleEq (role msg) model
  && negb (isLoading st)
  && negb (waitingForNumber st)
  && negb (ChunkerSpec.includes (js "Mobile Number") (content msg))
  && negb (truthy (Generator.optString (shareContent msg))).

Section Keys.

Variable W : Type.
Variable P : provider W.

(** The handler of [keydown], with the tag of the target and the key in
    lower case.  The key [t] only moves the focus. *)
Definition handleKeyDown (tagName key : jsstring) (st : State) : M W State :=
  if strictEq tagName (js "INPUT") || strictEq tagName (js "TEXTAREA") then ret st
  else if strictEq key (js "k") then
    match lastOf (messages st) with
    | Some msg => if isActionable msg st then handleKnowMore P st else ret st
    | None => ret st
    end
  else ret st.

End Keys.

End Shortcuts.

(* ================================================================== *)
(** ** Generation requests *)

Module GeneratorSpec.

Import JSNumber JSString World.

(** The provider [P] with a record of the requests sent to
    [generateContent]: the prompt and the system instruction. *)
Definition recorded (W : Type) (P : provider W) : provider (W * list (jsstring * jsstring)) :=
  {| embedContent := fun text '(w, log) =>
       let '(r, w') := embedContent P text w in (r, (w', log));
     generateContent := fun prompt instruction '(w, log) =>
       let '(r, w') := generateContent P prompt instruction w in
       (r, (w', log ++ [(prompt, instruction)]));
     transcribeAudio := fun audio '(w, log) =>
       let '(t, w') := transcribeAudio P audio w in (t, (w', log));
     dateNow := fun '(w, log) =>
       let '(t, w') := dateNow P w in (t, (w', log)) |}.

(** The line of a context chunk in the prompt. *)
Definition sourceLine (c : Matcher.DocumentChunk) : jsstring :=
  js "[Source: " ++ Matcher.docTitle c ++ js "]: " ++ Matcher.text c.

(** The answer of [generateRAGResponse] when the call fails. *)
Definition failure : Generator.ragResponse :=
  {| Generator.text := js "Error generating response. Please try again.";
     Generator.language := js "Error";
     Generator.citations := None |}.

(** A provider that answers every generation request with a text and two
    grounding chunks, one of them without address; its clock advances. *)
Definition answeringProvider : provider N :=
  {| embedContent := fun text n =>
       (if strictEq text (js "boom") then EmbedThrows else EmbedValues [1%float], n);
     generateContent := fun _ _ n =>
       (GenerateReturns
          {| responseText := Some (js "Founded in **1926**.");
             groundingChunks :=
               Some [ {| web := Some {| uri := Some (js "https://samastha.info");
                                        title := None |} |};
                      {| web := None |} ] |}, n);
     transcribeAudio := fun _ n => (Some (js "What is Samastha?"), n);
     dateNow := fun n => (n, N.succ n) |}.

End GeneratorSpec.

(* ================================================================== *)
(** ** The store *)

Module StoreSpec.

Import JSNumber JSString World MockDB.

(** The log is there and holds between [lo] and 101 entries. *)
Definition logged_between (lo : nat) (s : Storage) : Prop :=
  exists logs, samastha_logs s = Some logs /\ lo <= length logs <= 101.

(** The fields that the defaults of [getSettings] define are there. *)
Definition complete (t : Settings.t) : Prop :=
  Settings.showTextInput t <> None /\ Settings.appName t <> None
  /\ Settings.appDescription t <> None /\ Settings.systemInstruction t <> None
  /\ Settings.adminPassword t <> None /\ Settings.modelSelection t <> None
  /\ Settings.safetyThreshold t <> None /\ Settings.enableVoiceInput t <> None
  /\ Settings.maintenanceMode t <> None.

End StoreSpec.

(* ================================================================== *)
(** ** The administration *)

Module AdminSpec.

Import JSNumber JSString World MockDB PdfService Admin GeneratorSpec.

(** The text that [handleFileUpload] chunks, and the id it gives the
    document: [doc-] and the clock, read after the embedding calls. *)
Definition textOf (ps : list (list jsstring)) : jsstring := fold_left addPage ps [].

Definition docIdOf (W : Type) (P : provider W) (ps : list (list jsstring)) (w : W)
    : jsstring :=
  js "doc-"
  ++ toString (fst (dateNow P
       (snd (Embedding.getEmbeddings P (Chunker.chunkText (textOf ps) 500) w)))).

(** Two chunks are ranked alike: the same id, the same embedding. *)
Definition alike (a b : Matcher.DocumentChunk) : Prop :=
  Matcher.id a = Matcher.id b /\ Matcher.embedding a = Matcher.embedding b.

(** A file of two pages, and the store after the module is loaded. *)
Definition samplePdf : File :=
  {| name := js "history.pdf"; type := js "application/pdf"; size := 2048;
     pages := Some [ [js "Samastha was"; js "founded in 1926."];
                     [js "It runs madrasas."] ] |}.

Definition sampleImage : File :=
  {| name := js "logo.png"; type := js "image/png"; size := 512; pages := None |}.

Definition loadedStore : Storage := fst (seed answeringProvider emptyStorage 0%N).

Definition seedChunk : Matcher.DocumentChunk :=
  {| Matcher.id := js "chunk-1"; Matcher.docId := js "seed-1";
     Matcher.docTitle := js "Samastha Constitution";
     Matcher.text := js "Samastha Kerala Jamiyyathul Ulama";
     Matcher.embedding := Some (repeat 0.1%float 768) |}.

End AdminSpec.

(* ================================================================== *)
(** ** The conversation and the live session, continued *)

Module ConversationSpec.

Import JSNumber JSString World Chat Live.

(** The message of the know-more button. *)
Definition contactRequest : jsstring :=
  js "To generate a **Detailed Report** for you, please verify your **Mobile Number**.".

(** The bold marker of Markdown. *)
Definition boldMarker : jsstring := [42; 42]%N.

(** What was sent into the session: the tool responses, as pairs of the id
    and the name they carry, and the audio handed to the player. *)
Definition toolResponses (out : list sent) : list (jsstring * jsstring) :=
  flat_map (fun x => match x with
                     | ToolResponse i n _ => [(i, n)]
                     | AudioData _ => []
                     end) out.

Definition audioSent (out : list sent) : list jsstring :=
  flat_map (fun x => match x with
                     | AudioData data => [data]
                     | ToolResponse _ _ _ => []
                     end) out.

Definition isSearch (fc : functionCall) : bool :=
  strictEq (name fc) (js "search_knowledge_base").

(** A sequence of events, each handled to its end before the next. *)
Fixpoint runEvents (W : Type) (P : provider W) (es : list event) (st : State) (w : W)
    : State * W :=
  match es with
  | [] => (st, w)
  | e :: rest => let '(st', w') := step P e st w in runEvents P rest st' w'
  end.

End ConversationSpec.

(* ================================================================== *)
(** ** The audio *)

Module AudioSpec.

Import JSString Audio.

Local Open Scope N_scope.

(** Goals on quotients and remainders, by the equations of the division. *)
Ltac euclid := zify; Z.to_euclidean_division_equations; lia.

(** A character of the base64 alphabet. *)
Definition inAlphabet (c : N) : Prop := exists n, n < 64 /\ c = encodeSextet n.

End AudioSpec.

(* ================================================================== *)
(** * The properties *)

(* ================================================================== *)
(** ** Facts of binary64 arithmetic

    Derived from the specification of the primitive operations
    ([FloatAxioms]): the order of non-NaN values, the sign of a difference,
    and the propagation of [NaN]. *)

Module IEEE.

Import Binary64.

Local Open Scope Z_scope.

Lemma digits2_pos_bounds (m : positive) :
  2 ^ (Zpos (digits2_pos m) - 1) <= Zpos m < 2 ^ Zpos (digits2_pos m).
Proof.
  induction m as [p IH | p IH | ]; cbn [digits2_pos].
  - rewrite Pos2Z.inj_succ.
    replace (Z.succ (Zpos (digits2_pos p)) - 1) with (Z.succ (Zpos (digits2_pos p) - 1)) by lia.
    rewrite !Z.pow_succ_r by lia. lia.
  - rewrite Pos2Z.inj_succ.
    replace (Z.succ (Zpos (digits2_pos p)) - 1) with (Z.succ (Zpos (digits2_pos p) - 1)) by lia.
    rewrite !Z.pow_succ_r by lia. lia.
  - cbn. lia.
Qed.

Lemma iter_xO (m d : positive) : Zpos (Pos.iter xO m d) = Zpos m * 2 ^ Zpos d.
Proof.
  induction d as [ | d IH] using Pos.peano_ind.
  - cbn. lia.
  - rewrite Pos.iter_succ, Pos2Z.inj_succ, Z.pow_succ_r by lia.
    rewrite Pos2Z.inj_xO, IH. lia.
Qed.

Lemma shr_1_m (mrs : shr_record) :
  0 <= shr_m mrs -> shr_m (shr_1 mrs) = shr_m mrs / 2.
Proof.
  destruct mrs as [m r s]. cbn [shr_m shr_1].
  destruct m as [ | [p | p | ] | p ]; intros H; cbn [shr_m]; try lia.
  - reflexivity.
  - rewrite Pos2Z.inj_xI. apply Z.div_unique with (r := 1); lia.
  - rewrite Pos2Z.inj_xO. apply Z.div_unique with (r := 0); lia.
  - reflexivity.
Qed.

Lemma pow2_xO (p : positive) : 2 ^ Zpos p~0 = 2 ^ Zpos p * 2 ^ Zpos p.
Proof. rewrite <- Z.pow_add_r by lia. f_equal. lia. Qed.

Lemma pow2_xI (p : positive) : 2 ^ Zpos p~1 = 2 * (2 ^ Zpos p * 2 ^ Zpos p).
Proof.
  rewrite <- Z.pow_add_r, <- Z.pow_succ_r by lia. f_equal. lia.
Qed.

Lemma iter_shr_1_m (p : positive) : forall mrs : shr_record,
  0 <= shr_m mrs -> shr_m (iter_pos shr_1 p mrs) = shr_m mrs / 2 ^ Zpos p.
Proof.
  induction p as [p IH | p IH | ]; intros mrs H; cbn [iter_pos].
  - assert (H1 : 0 <= shr_m (shr_1 mrs)) by (rewrite shr_1_m by assumption; apply Z.div_pos; lia).
    assert (H2 : 0 <= shr_m (iter_pos shr_1 p (shr_1 mrs))) by (rewrite IH by assumption; apply Z.div_pos; lia).
    rewrite IH, IH, shr_1_m by assumption.
    rewrite !Z.div_div by lia.
    now rewrite pow2_xI.
  - assert (H2 : 0 <= shr_m (iter_pos shr_1 p mrs)) by (rewrite IH by assumption; apply Z.div_pos; lia).
    rewrite IH, IH by assumption.
    rewrite !Z.div_div by lia.
    now rewrite pow2_xO.
  - rewrite shr_1_m by assumption. reflexivity.
Qed.

Lemma shr_record_of_loc_m (m : Z) (l : location) : shr_m (shr_record_of_loc m l) = m.
Proof. destruct l as [ | [ | | ]]; reflexivity. Qed.

Lemma shr_fexp_pos (m e : Z) (l : location) :
  0 < m -> (-1074) <= e ->
  0 < shr_m (fst (shr_fexp prec emax m e l)) /\ (-1074) <= snd (shr_fexp prec emax m e l).
Proof.
  intros Hm He. unfold shr_fexp, shr.
  destruct m as [ | q | q]; try lia. cbn [Zdigits2].
  pose proof (digits2_pos_bounds q) as [Hlo _].
  set (d := Zpos (digits2_pos q)) in *.
  assert (Hf : fexp prec emax (d + e) = Z.max (d + e - 53) (-1074)) by reflexivity.
  destruct (fexp prec emax (d + e) - e) as [ | p | p] eqn:Hn; cbn [fst snd];
    rewrite ?shr_record_of_loc_m; try (split; lia).
  rewrite iter_shr_1_m by (rewrite shr_record_of_loc_m; lia).
  rewrite shr_record_of_loc_m. split; [ | lia].
  assert (Hp : Zpos p = d - 53) by lia.
  apply Z.div_str_pos. split; [apply Z.pow_pos_nonneg; lia | ].
  apply Z.le_trans with (2 ^ (d - 1)); [ | exact Hlo].
  apply Z.pow_le_mono_r; lia.
Qed.

Lemma round_nearest_even_ge (m : Z) (l : location) : m <= round_nearest_even m l.
Proof. destruct l as [ | [ | | ]]; cbn; try destruct (Z.even m); lia. Qed.

Lemma binary_round_aux_signed (s : bool) (m e : Z) (l : location) :
  0 < m -> (-1074) <= e -> signed s (binary_round_aux prec emax s m e l).
Proof.
  intros Hm He. unfold binary_round_aux.
  destruct (shr_fexp_pos l Hm He) as [H1 H2].
  destruct (shr_fexp prec emax m e l) as [mrs' e']. cbn [fst snd] in H1, H2.
  pose proof (round_nearest_even_ge (shr_m mrs') (loc_of_shr_record mrs')) as Hr.
  set (m1 := round_nearest_even (shr_m mrs') (loc_of_shr_record mrs')) in *.
  assert (Hm1 : 0 < m1) by lia.
  destruct (shr_fexp_pos loc_Exact Hm1 H2) as [H3 H4].
  destruct (shr_fexp prec emax m1 e' loc_Exact) as [mrs'' e'']. cbn [fst snd] in H3, H4.
  destruct (shr_m mrs'') as [ | q | q]; try lia.
  destruct (e'' <=? emax - prec); reflexivity.
Qed.

Lemma binary_round_signed (s : bool) (m : positive) (e : Z) :
  (-1074) <= e -> signed s (binary_round prec emax s m e).
Proof.
  intros He. unfold binary_round, shl_align.
  assert (Hf : (-1074) <= fexp prec emax (Zpos (digits2_pos m) + e))
    by (unfold fexp; change (SpecFloat.emin prec emax) with (-1074); lia).
  destruct (fexp prec emax (Zpos (digits2_pos m) + e) - e);
    apply binary_round_aux_signed; lia.
Qed.

Lemma bounded_facts (m : positive) (e : Z) :
  bounded prec emax m e = true ->
  (-1074) <= e <= 971 /\ Zpos (digits2_pos m) <= 53 /\
  ((-1074) < e -> Zpos (digits2_pos m) = 53).
Proof.
  unfold bounded, canonical_mantissa, fexp.
  change (SpecFloat.emin prec emax) with (-1074). change (emax - prec) with 971. change prec with 53.
  rewrite andb_true_iff, Z.eqb_eq, Z.leb_le. z_ops. intros [H1 H2]. lia.
Qed.

Lemma finite_range (m : positive) (e : Z) :
  bounded prec emax m e = true -> 0 < Zpos m * 2 ^ (e + 1074) < INF.
Proof.
  intros Hb. destruct (bounded_facts _ _ Hb) as [He [Hd _]].
  pose proof (digits2_pos_bounds m) as [_ Hhi].
  assert (H53 : Zpos m < 2 ^ 53).
  { eapply Z.lt_le_trans; [exact Hhi | apply Z.pow_le_mono_r; lia]. }
  assert (Hp : 0 < 2 ^ (e + 1074)) by (apply Z.pow_pos_nonneg; lia).
  assert (Hq : 2 ^ (e + 1074) <= 2 ^ 2045) by (apply Z.pow_le_mono_r; lia).
  split; [lia | ].
  unfold INF. replace 2098 with (53 + 2045) by lia. rewrite (Z.pow_add_r 2 53 2045) by lia.
  set (a := 2 ^ (e + 1074)) in *. set (b := 2 ^ 2045) in *. set (c := 2 ^ 53) in *.
  nia.
Qed.

Lemma canonical_lt (m1 m2 : positive) (e1 e2 : Z) :
  bounded prec emax m1 e1 = true -> bounded prec emax m2 e2 = true ->
  e1 < e2 -> Zpos m1 * 2 ^ (e1 + 1074) < Zpos m2 * 2 ^ (e2 + 1074).
Proof.
  intros Hb1 Hb2 Hlt.
  destruct (bounded_facts _ _ Hb1) as [He1 [Hd1 _]].
  destruct (bounded_facts _ _ Hb2) as [He2 [_ Hd2]].
  pose proof (digits2_pos_bounds m1) as [_ Hhi].
  pose proof (digits2_pos_bounds m2) as [Hlo _].
  rewrite Hd2 in Hlo by lia.
  assert (H53 : Zpos m1 < 2 ^ 53).
  { eapply Z.lt_le_trans; [exact Hhi | apply Z.pow_le_mono_r; lia]. }
  replace (e2 + 1074) with ((e1 + 1074) + (e2 - e1)) by lia.
  rewrite (Z.pow_add_r 2 (e1 + 1074) (e2 - e1)) by lia.
  assert (Hp : 0 < 2 ^ (e1 + 1074)) by (apply Z.pow_pos_nonneg; lia).
  assert (Hq : 2 ^ 1 <= 2 ^ (e2 - e1)) by (apply Z.pow_le_mono_r; lia).
  change (2 ^ 1) with 2 in Hq. change (2 ^ (53 - 1)) with (2 ^ 52) in Hlo.
  assert (Hc : 2 ^ 53 = 2 * 2 ^ 52) by reflexivity.
  set (a := 2 ^ (e1 + 1074)) in *. set (b := 2 ^ (e2 - e1)) in *.
  set (c := 2 ^ 52) in *. set (c' := 2 ^ 53) in *.
  assert (H1 : Zpos m1 * a < c' * a) by (apply Z.mul_lt_mono_pos_r; lia).
  assert (H2 : a * 2 <= a * b) by (apply Z.mul_le_mono_nonneg_l; lia).
  assert (H3 : c * (a * 2) <= Zpos m2 * (a * b)) by (apply Z.mul_le_mono_nonneg; lia).
  lia.
Qed.

Lemma INF_pos : 0 < INF.
Proof. unfold INF. apply Z.pow_pos_nonneg; lia. Qed.

Lemma mul_compare_pos (a b p : Z) : 0 < p -> (a * p ?= b * p) = (a ?= b).
Proof.
  intros Hp. destruct (Z.compare_spec a b) as [E | L | G].
  - subst. apply Z.compare_refl.
  - apply Z.compare_lt_iff. apply Z.mul_lt_mono_pos_r; assumption.
  - apply Z.compare_gt_iff. apply Z.mul_lt_mono_pos_r; assumption.
Qed.

(** The comparison of binary64 values is the comparison of their values. *)
Lemma SFcompare_valZ (x y : spec_float) :
  valid_binary x = true -> valid_binary y = true ->
  x <> S754_nan -> y <> S754_nan ->
  SFcompare x y = Some (valZ x ?= valZ y).
Proof.
  intros Vx Vy Nx Ny. pose proof INF_pos as HI.
  destruct x as [sx | sx | | sx mx ex]; try congruence;
  destruct y as [sy | sy | | sy my ey]; try congruence;
  cbn [valid_binary] in Vx, Vy;
  try (pose proof (finite_range _ _ Vx) as Rx);
  try (pose proof (finite_range _ _ Vy) as Ry);
  cbn [SFcompare valZ];
  try (destruct sx; cbn [cond_Zopp]); try (destruct sy; cbn [cond_Zopp]);
  try compare_by_lia.
  - (* both negative *)
    change (IntDef.Z.compare ex ey) with (ex ?= ey).
    destruct (Z.compare_spec ex ey) as [E | L | G].
    + subst ey. rewrite Z.compare_opp, mul_compare_pos by lia.
      f_equal. symmetry. apply (Pos.compare_antisym mx my).
    + pose proof (canonical_lt _ _ Vx Vy L). compare_by_lia.
    + pose proof (canonical_lt _ _ Vy Vx G). compare_by_lia.
  - (* both positive *)
    change (IntDef.Z.compare ex ey) with (ex ?= ey).
    destruct (Z.compare_spec ex ey) as [E | L | G].
    + subst ey. rewrite mul_compare_pos by lia. reflexivity.
    + pose proof (canonical_lt _ _ Vx Vy L). compare_by_lia.
    + pose proof (canonical_lt _ _ Vy Vx G). compare_by_lia.
Qed.

Lemma shl_align_val (m : positive) (e ez : Z) :
  ez <= e -> -1074 <= ez ->
  Zpos (fst (shl_align m e ez)) * 2 ^ (ez + 1074) = Zpos m * 2 ^ (e + 1074).
Proof.
  intros Hle Hz. unfold shl_align. z_ops.
  destruct (ez - e) as [ | d | d] eqn:Hd; cbn [fst]; try lia.
  - replace e with ez by lia. reflexivity.
  - rewrite iter_xO. replace (e + 1074) with (Zpos d + (ez + 1074)) by lia.
    rewrite (Z.pow_add_r 2 (Zpos d) (ez + 1074)) by lia. lia.
Qed.

Lemma cond_Zopp_mul (s : bool) (a p : Z) : cond_Zopp s a * p = cond_Zopp s (a * p).
Proof. destruct s; cbn; lia. Qed.

Lemma signed_pos (r : spec_float) : signed false r -> SFltb (S754_zero false) r = true.
Proof. destruct r as [ | s | | s m e]; cbn; intros H; try contradiction; subst; reflexivity. Qed.

Lemma signed_neg (r : spec_float) : signed true r -> SFltb (S754_zero false) r = false.
Proof. destruct r as [ | s | | s m e]; cbn; intros H; try contradiction; subst; reflexivity. Qed.

Lemma SFltb_valZ (x y : spec_float) :
  valid_binary x = true -> valid_binary y = true ->
  x <> S754_nan -> y <> S754_nan ->
  SFltb x y = (valZ x <? valZ y).
Proof.
  intros Vx Vy Nx Ny. unfold SFltb, Z.ltb.
  rewrite (SFcompare_valZ Vx Vy Nx Ny). destruct (valZ x ?= valZ y); reflexivity.
Qed.

(** A difference is positive exactly when the subtrahend is the smaller
    value: rounding never turns a non-zero difference into zero. *)
Lemma SFsub_pos (x y : spec_float) :
  valid_binary x = true -> valid_binary y = true ->
  x <> S754_nan -> y <> S754_nan ->
  SFltb (S754_zero false) (SF64sub y x) = SFltb x y.
Proof.
  intros Vx Vy Nx Ny.
  destruct x as [sx | sx | | sx mx ex]; try congruence;
  destruct y as [sy | sy | | sy my ey]; try congruence;
  try (destruct sx; destruct sy; reflexivity).
  rewrite (SFltb_valZ Vx Vy Nx Ny).
  cbn [valid_binary] in Vx, Vy.
  destruct (bounded_facts _ _ Vx) as [Hex _].
  destruct (bounded_facts _ _ Vy) as [Hey _].
  unfold SF64sub, SFsub. cbn [valZ]. z_ops.
  set (ez := Z.min ey ex).
  assert (Hz : -1074 <= ez) by (unfold ez; lia).
  assert (Hp : 0 < 2 ^ (ez + 1074)) by (apply Z.pow_pos_nonneg; lia).
  pose proof (@shl_align_val my ey ez ltac:(unfold ez; lia) Hz) as Ay.
  pose proof (@shl_align_val mx ex ez ltac:(unfold ez; lia) Hz) as Ax.
  set (M := cond_Zopp sy (Zpos (fst (shl_align my ey ez)))
            - cond_Zopp sx (Zpos (fst (shl_align mx ex ez)))).
  assert (HM : M * 2 ^ (ez + 1074)
               = cond_Zopp sy (Zpos my * 2 ^ (ey + 1074))
                 - cond_Zopp sx (Zpos mx * 2 ^ (ex + 1074))).
  { unfold M. rewrite Z.mul_sub_distr_r, !cond_Zopp_mul, Ay, Ax. reflexivity. }
  set (vy := cond_Zopp sy (Zpos my * 2 ^ (ey + 1074))) in *.
  set (vx := cond_Zopp sx (Zpos mx * 2 ^ (ex + 1074))) in *.
  set (P := 2 ^ (ez + 1074)) in *.
  destruct M as [ | q | q] eqn:EM; cbn [binary_normalize].
  - cbn. symmetry. apply Z.ltb_ge. lia.
  - rewrite (signed_pos _ (binary_round_signed false q Hz)).
    symmetry. apply Z.ltb_lt. nia.
  - rewrite (signed_neg _ (binary_round_signed true q Hz)).
    symmetry. apply Z.ltb_ge. nia.
Qed.

(** *** Primitive floats *)

Lemma is_nan_false (x : float) : is_nan x = false -> Prim2SF x <> S754_nan.
Proof.
  unfold is_nan. rewrite FloatAxioms.eqb_spec. intros H E. rewrite E in H. discriminate.
Qed.

Lemma is_nan_true (x : float) : Prim2SF x = S754_nan -> is_nan x = true.
Proof. unfold is_nan. rewrite FloatAxioms.eqb_spec. intros ->. reflexivity. Qed.

Lemma is_nan_SF (x : float) : is_nan x = true -> Prim2SF x = S754_nan.
Proof.
  unfold is_nan. rewrite FloatAxioms.eqb_spec. pose proof (Prim2SF_valid x) as V.
  destruct (Prim2SF x) as [s | s | | s m e]; try reflexivity; intros H; exfalso.
  - discriminate.
  - destruct s; discriminate.
  - unfold SFeqb in H.
    rewrite (SFcompare_valZ V V) in H by discriminate.
    rewrite Z.compare_refl in H. discriminate.
Qed.

Section Order.

Variables x y : float.
Hypothesis Nx : is_nan x = false.
Hypothesis Ny : is_nan y = false.

Lemma compare_ordZ :
  SFcompare (Prim2SF x) (Prim2SF y) = Some (ordZ x ?= ordZ y).
Proof.
  apply SFcompare_valZ; auto using Prim2SF_valid, is_nan_false.
Qed.

Lemma ltb_ordZ : (x <? y)%float = (ordZ x <? ordZ y).
Proof.
  rewrite FloatAxioms.ltb_spec. unfold SFltb, Z.ltb. rewrite compare_ordZ.
  destruct (ordZ x ?= ordZ y); reflexivity.
Qed.

Lemma leb_ordZ : (x <=? y)%float = (ordZ x <=? ordZ y).
Proof.
  rewrite FloatAxioms.leb_spec. unfold SFleb, Z.leb. rewrite compare_ordZ.
  destruct (ordZ x ?= ordZ y); reflexivity.
Qed.

Lemma eqb_ordZ : (x =? y)%float = (ordZ x =? ordZ y).
Proof.
  rewrite FloatAxioms.eqb_spec. unfold SFeqb. rewrite compare_ordZ.
  destruct (Z.compare_spec (ordZ x) (ordZ y)); symmetry;
    [apply Z.eqb_eq | apply Z.eqb_neq | apply Z.eqb_neq]; lia.
Qed.

(** The sign test of a comparator written as a difference. *)
Lemma sub_pos : (0 <? y - x)%float = (x <? y)%float.
Proof.
  rewrite (FloatAxioms.ltb_spec 0), FloatAxioms.sub_spec, (FloatAxioms.ltb_spec x y).
  change (Prim2SF 0) with (S754_zero false).
  apply SFsub_pos; auto using Prim2SF_valid, is_nan_false.
Qed.

End Order.

(** *** [NaN] is absorbing *)

Lemma add_nan_l (a b : float) : is_nan a = true -> is_nan (a + b) = true.
Proof.
  intros H. apply is_nan_true. rewrite FloatAxioms.add_spec, (is_nan_SF _ H). reflexivity.
Qed.

Lemma add_nan_r (a b : float) : is_nan b = true -> is_nan (a + b) = true.
Proof.
  intros H. apply is_nan_true. rewrite FloatAxioms.add_spec, (is_nan_SF _ H).
  destruct (Prim2SF a); reflexivity.
Qed.

Lemma mul_nan_r (a b : float) : is_nan b = true -> is_nan (a * b) = true.
Proof.
  intros H. apply is_nan_true. rewrite FloatAxioms.mul_spec, (is_nan_SF _ H).
  destruct (Prim2SF a); reflexivity.
Qed.

Lemma div_nan_l (a b : float) : is_nan a = true -> is_nan (a / b) = true.
Proof.
  intros H. apply is_nan_true. rewrite FloatAxioms.div_spec, (is_nan_SF _ H). reflexivity.
Qed.

(** *** Sums and the negative zero

    A sum is the negative zero only when both terms are: the sums of a
    scalar product, which start from [+0], never are, and adding a product
    with zero to them changes nothing. *)

Lemma add_not_neg_zero (a b : float) :
  Prim2SF a <> S754_zero true -> Prim2SF (a + b) <> S754_zero true.
Proof.
  intros Ha. rewrite FloatAxioms.add_spec.
  pose proof (Prim2SF_valid a) as Va. pose proof (Prim2SF_valid b) as Vb.
  destruct (Prim2SF a) as [sa | sa | | sa ma ea];
    destruct (Prim2SF b) as [sb | sb | | sb mb eb];
    try (cbn; discriminate);
    try (destruct sa; destruct sb; cbn; congruence).
  cbn [valid_binary] in Va, Vb.
  destruct (bounded_facts _ _ Va) as [Hea _].
  destruct (bounded_facts _ _ Vb) as [Heb _].
  unfold SF64add, SFadd. z_ops.
  set (ez := Z.min ea eb).
  assert (Hz : -1074 <= ez) by (unfold ez; lia).
  destruct (cond_Zopp sa (Zpos (fst (shl_align ma ea ez)))
            + cond_Zopp sb (Zpos (fst (shl_align mb eb ez)))) as [ | q | q];
    cbn [binary_normalize].
  - discriminate.
  - pose proof (binary_round_signed false q Hz) as S.
    destruct (binary_round prec emax false q ez); cbn in S; try contradiction; discriminate.
  - pose proof (binary_round_signed true q Hz) as S.
    destruct (binary_round prec emax true q ez); cbn in S; try contradiction; discriminate.
Qed.

Lemma add_zero_product (s b : float) :
  Prim2SF s <> S754_zero true ->
  match Prim2SF b with S754_zero _ | S754_finite _ _ _ => True | _ => False end ->
  (s + 0 * b)%float = s.
Proof.
  intros Hs Hb. apply Prim2SF_inj.
  rewrite FloatAxioms.add_spec, FloatAxioms.mul_spec.
  change (Prim2SF 0) with (S754_zero false).
  destruct (Prim2SF b) as [sb | sb | | sb mb eb]; try contradiction;
    cbn [SF64mul SFmul xorb];
    destruct (Prim2SF s) as [ss | ss | | ss ms es]; try reflexivity;
    destruct ss; try congruence; destruct sb; reflexivity.
Qed.

End IEEE.

(* ================================================================== *)
(** ** [Array.prototype.sort] *)

Module SortFacts.

Import JSNumber JSArray MatcherSpec.

Section Any.

Variable A : Type.
Variable comparefn : A -> A -> number.

(** Whatever the comparator answers, sorting only rearranges. *)
Lemma insert_perm (x : A) (l : list A) :
  Permutation (insert comparefn x l) (x :: l).
Proof.
  induction l as [ | y l IH]; cbn [insert]; [reflexivity | ].
  destruct (after comparefn x y); [ | reflexivity].
  rewrite IH. apply perm_swap.
Qed.

Lemma sort_perm (l : list A) : Permutation (sort comparefn l) l.
Proof.
  induction l as [ | x l IH]; cbn [sort]; [reflexivity | ].
  rewrite insert_perm. now constructor.
Qed.

Lemma sort_length (l : list A) : length (sort comparefn l) = length l.
Proof. apply Permutation_length, sort_perm. Qed.

(** Sorting commutes with a change of representation. *)
Lemma insert_map (B : Type) (f : B -> A) (x : B) (l : list B) :
  insert comparefn (f x) (map f l)
  = map f (insert (fun a b => comparefn (f a) (f b)) x l).
Proof.
  induction l as [ | y l IH]; cbn [insert map]; [reflexivity | ].
  unfold after, SortCompare.
  destruct (gt _ _); cbn [map]; now rewrite ?IH.
Qed.

Lemma sort_map (B : Type) (f : B -> A) (l : list B) :
  sort comparefn (map f l) = map f (sort (fun a b => comparefn (f a) (f b)) l).
Proof.
  induction l as [ | x l IH]; cbn [sort map]; [reflexivity | ].
  now rewrite IH, insert_map.
Qed.

End Any.

(** A comparator that orders by an integer key, largest first, on the
    elements that satisfy [dom]. *)
Section Keyed.

Variable A : Type.
Variable comparefn : A -> A -> number.
Variable key : A -> Z.
Variable dom : A -> Prop.

Hypothesis after_key :
  forall x y, dom x -> dom y -> after comparefn x y = (key x <? key y)%Z.

Lemma insert_Forall (P : A -> Prop) (x : A) (l : list A) :
  P x -> Forall P l -> Forall P (insert comparefn x l).
Proof.
  intros Hx Hl. eapply Permutation_Forall.
  - symmetry. apply insert_perm.
  - now constructor.
Qed.

Lemma insert_sorted (x : A) (l : list A) :
  dom x -> Forall dom l ->
  StronglySorted (desc key) l -> StronglySorted (desc key) (insert comparefn x l).
Proof.
  intros Dx Dl Hs. induction Hs as [ | y l Hs IH Hy]; cbn [insert].
  - repeat constructor.
  - inversion Dl as [ | ? ? Dy Dl' ]; subst.
    rewrite (after_key Dx Dy).
    destruct (Z.ltb_spec (key x) (key y)) as [Hlt | Hge].
    + constructor; [now apply IH | ].
      apply insert_Forall; [unfold desc; lia | exact Hy].
    + constructor; [now constructor | ].
      constructor; [exact Hge | ].
      eapply Forall_impl; [ | exact Hy]. unfold desc. intros; lia.
Qed.

Lemma sort_Forall (P : A -> Prop) (l : list A) :
  Forall P l -> Forall P (sort comparefn l).
Proof.
  intros H. eapply Permutation_Forall; [symmetry; apply sort_perm | exact H].
Qed.

Theorem sort_sorted (l : list A) :
  Forall dom l -> StronglySorted (desc key) (sort comparefn l).
Proof.
  induction l as [ | x l IH]; cbn [sort]; intros Hd.
  - constructor.
  - inversion Hd; subst. apply insert_sorted; auto using sort_Forall.
Qed.

(** Stability: the elements of one key keep their order. *)
Lemma insert_filter (p : A -> bool) (x : A) (l : list A) :
  (forall a b, p a = true -> p b = true -> key a = key b) ->
  dom x -> Forall dom l ->
  filter p (insert comparefn x l) = filter p (x :: l).
Proof.
  intros Hp Dx Dl. induction Dl as [ | y l Dy Dl IH]; cbn [insert]; [reflexivity | ].
  rewrite (after_key Dx Dy).
  destruct (Z.ltb_spec (key x) (key y)) as [Hlt | Hge]; [ | reflexivity].
  cbn [filter] in *. rewrite IH.
  destruct (p x) eqn:Px, (p y) eqn:Py; try reflexivity.
  specialize (Hp _ _ Px Py). lia.
Qed.

Theorem sort_stable (p : A -> bool) (l : list A) :
  (forall a b, p a = true -> p b = true -> key a = key b) ->
  Forall dom l ->
  filter p (sort comparefn l) = filter p l.
Proof.
  intros Hp. induction l as [ | x l IH]; cbn [sort]; intros Hd; [reflexivity | ].
  inversion Hd; subst.
  rewrite insert_filter by auto using sort_Forall.
  cbn [filter]. now rewrite IH.
Qed.

End Keyed.

(** *** Lists *)

Section Lists.

Variable A : Type.

Lemma firstn_In (n : nat) (l : list A) (y : A) : In y (firstn n l) -> In y l.
Proof.
  intros H. rewrite <- (firstn_skipn n l). apply in_or_app. now left.
Qed.

Lemma firstn_sorted (R : A -> A -> Prop) (n : nat) (l : list A) :
  StronglySorted R l -> StronglySorted R (firstn n l).
Proof.
  intros Hs. revert n. induction Hs as [ | x l Hs IH Hx]; intros [ | n]; cbn [firstn];
    try constructor; auto.
  apply Forall_forall. intros y Hy. rewrite Forall_forall in Hx.
  apply Hx. eapply firstn_In; eauto.
Qed.

(** What a filter keeps of a prefix is a prefix of what it keeps. *)
Lemma filter_firstn (p : A -> bool) (n : nat) (l : list A) :
  filter p (firstn n l) = firstn (length (filter p (firstn n l))) (filter p l).
Proof.
  revert n. induction l as [ | x l IH]; intros [ | n]; cbn [firstn filter]; try reflexivity.
  destruct (p x); cbn [length firstn]; now rewrite <- IH.
Qed.

(** In a sorted list the elements above a threshold come first. *)
Lemma sorted_threshold (R : A -> A -> Prop) (p : A -> bool) (l : list A) :
  (forall a b, R a b -> p b = true -> p a = true) ->
  StronglySorted R l ->
  filter p l = firstn (length (filter p l)) l.
Proof.
  intros Hup Hs. induction Hs as [ | x l Hs IH Hx]; cbn [filter]; [reflexivity | ].
  destruct (p x) eqn:Px; cbn [length firstn]; [now rewrite <- IH | ].
  assert (E : filter p l = []).
  { rewrite Forall_forall in Hx. clear -Hx Hup Px.
    induction l as [ | y l IHl]; cbn [filter]; [reflexivity | ].
    destruct (p y) eqn:Py.
    - assert (p x = true) by (eapply Hup; [apply Hx; now left | exact Py]).
      congruence.
    - apply IHl. intros z Hz. apply Hx. now right. }
  rewrite E. reflexivity.
Qed.

Lemma filter_length_le (p : A -> bool) (l : list A) : length (filter p l) <= length l.
Proof. induction l as [ | x l IH]; cbn; [lia | destruct (p x); cbn; lia]. Qed.


Lemma filter_perm_length (p : A -> bool) (l l' : list A) :
  Permutation l l' -> length (filter p l) = length (filter p l').
Proof.
  induction 1 as [ | x l l' _ IH | x y l | l l' l'' _ IH1 _ IH2]; cbn; try lia.
  - destruct (p x); cbn; lia.
  - destruct (p x), (p y); cbn; lia.
Qed.


End Lists.

End SortFacts.

(* ================================================================== *)
(** ** Strings *)

Module StringFacts.

Import JSString.

Lemma digit_not_space (c : N) : isDigit c = true -> isWhiteSpace c = false.
Proof.
  unfold isDigit, isWhiteSpace. rewrite andb_true_iff, !N.leb_le. intros [H1 H2].
  repeat match goal with
         | |- context [(?a <=? ?b)%N] => destruct (N.leb_spec a b)
         | |- context [(?a =? ?b)%N] => destruct (N.eqb_spec a b)
         end; try reflexivity; lia.
Qed.

Lemma dropWhile_keeps (p : N -> bool) (c : N) (s : jsstring) :
  In c s -> p c = false -> In c (dropWhile p s).
Proof.
  intros Hin Hp. induction s as [ | x s IH]; [contradiction | ].
  cbn [dropWhile]. destruct (p x) eqn:Px; [ | exact Hin].
  destruct Hin as [-> | Hin]; [congruence | auto].
Qed.

Lemma trim_keeps (c : N) (s : jsstring) :
  In c s -> isWhiteSpace c = false -> In c (trim s).
Proof.
  intros Hin Hc. unfold trim, trimEnd, trimStart.
  apply in_rev. rewrite rev_involutive.
  apply dropWhile_keeps; [ | exact Hc].
  apply -> in_rev. now apply dropWhile_keeps.
Qed.

(** A text with a digit in it is not blank. *)
Lemma digits_not_blank (s : jsstring) :
  0 < length (stripNonDigits s) -> truthy (trim s) = true.
Proof.
  unfold stripNonDigits. intros H.
  destruct (filter isDigit s) as [ | c f] eqn:E; [cbn in H; lia | ].
  assert (Hc : In c (filter isDigit s)) by (rewrite E; now left).
  apply filter_In in Hc. destruct Hc as [Hin Hd].
  pose proof (trim_keeps c s Hin (digit_not_space c Hd)) as Ht.
  destruct (trim s); [contradiction | reflexivity].
Qed.

Lemma orElse_truthy (s d : jsstring) : truthy d = true -> truthy (orElse s d) = true.
Proof. unfold orElse. destruct (truthy s) eqn:E; auto. Qed.

Lemma orElse_left (s d : jsstring) : s <> [] -> orElse s d = s.
Proof. destruct s; [congruence | reflexivity]. Qed.

Lemma strictEq_eq (a : jsstring) : forall b, strictEq a b = true <-> a = b.
Proof.
  induction a as [ | x a IH]; intros [ | y b]; cbn [strictEq]; split;
    try discriminate; try reflexivity.
  - rewrite andb_true_iff, N.eqb_eq, IH. intros [-> ->]. reflexivity.
  - intros [= -> ->]. rewrite andb_true_iff, N.eqb_eq, IH. auto.
Qed.

End StringFacts.

(* ================================================================== *)
(** ** The matcher *)

Module MatcherFacts.

Import JSNumber JSArray JSString Matcher MatcherSpec SortFacts.

Local Open Scope float_scope.

Lemma findBestMatches_eq (q : list number) (chunks : list DocumentChunk) (topK : nat) :
  findBestMatches q chunks topK = firstn topK (sort (chunkCompare q) chunks).
Proof.
  unfold findBestMatches, slice0.
  rewrite (sort_map byScoreDesc (scoreChunk q) chunks).
  rewrite <- firstn_map, map_map. cbn [chunk scoreChunk]. now rewrite map_id.
Qed.

Lemma ltb_nan_r (x v : number) : is_nan v = true -> (x <? v) = false.
Proof.
  intros H. rewrite FloatAxioms.ltb_spec, (IEEE.is_nan_SF _ H).
  destruct (Prim2SF x); reflexivity.
Qed.

Lemma eqb_defined (x y : number) :
  (x =? y) = true -> is_nan x = false /\ is_nan y = false.
Proof.
  intros H. rewrite FloatAxioms.eqb_spec in H. split.
  - destruct (is_nan x) eqn:E; [ | reflexivity].
    rewrite (IEEE.is_nan_SF _ E) in H. discriminate.
  - destruct (is_nan y) eqn:E; [ | reflexivity].
    rewrite (IEEE.is_nan_SF _ E) in H. destruct (Prim2SF x); discriminate.
Qed.

Lemma ltb_defined (x y : number) :
  (x <? y) = true -> is_nan x = false /\ is_nan y = false.
Proof.
  intros H. rewrite FloatAxioms.ltb_spec in H. split.
  - destruct (is_nan x) eqn:E; [ | reflexivity].
    rewrite (IEEE.is_nan_SF _ E) in H. discriminate.
  - destruct (is_nan y) eqn:E; [ | reflexivity].
    rewrite (IEEE.is_nan_SF _ E) in H. destruct (Prim2SF x); discriminate.
Qed.

(** On defined scores the comparator orders by score. *)
Lemma after_rank (q : list number) (a b : DocumentChunk) :
  defined q a -> defined q b ->
  after (chunkCompare q) a b = (rank q a <? rank q b)%Z.
Proof.
  unfold defined, rank. intros Da Db.
  rewrite <- (@IEEE.ltb_ordZ _ _ Da Db), <- (@IEEE.sub_pos _ _ Da Db).
  unfold after, SortCompare, gt, chunkCompare.
  destruct (isNaN (scoreOf q b - scoreOf q a)) eqn:E; [ | reflexivity].
  rewrite (@ltb_nan_r _ _ E). reflexivity.
Qed.

Lemma sorted_weaken (A : Type) (R R' : A -> A -> Prop) (P : A -> Prop) (l : list A) :
  (forall a b, P a -> P b -> R a b -> R' a b) ->
  Forall P l -> StronglySorted R l -> StronglySorted R' l.
Proof.
  intros HR HP Hs. induction Hs as [ | x l Hs IH Hx]; constructor.
  - inversion HP; auto.
  - inversion HP as [ | ? ? Px Pl]; subst.
    rewrite Forall_forall in *. intros y Hy. apply HR; auto.
Qed.

Section Ranking.

Variable q : list number.
Variable chunks : list DocumentChunk.
Hypothesis all_defined : forall c, In c chunks -> defined q c.

Lemma ranked_defined : Forall (defined q) (sort (chunkCompare q) chunks).
Proof. apply sort_Forall, Forall_forall, all_defined. Qed.

Lemma ranked_sorted : StronglySorted (desc (rank q)) (sort (chunkCompare q) chunks).
Proof.
  apply sort_sorted with (dom := defined q).
  - intros; now apply after_rank.
  - apply Forall_forall, all_defined.
Qed.

Lemma ranked_by_score :
  StronglySorted (fun a b => ge (scoreOf q a) (scoreOf q b) = true) (sort (chunkCompare q) chunks).
Proof.
  eapply sorted_weaken; [ | apply ranked_defined | apply ranked_sorted].
  intros a b Da Db H. unfold ge. rewrite (@IEEE.leb_ordZ _ _ Db Da).
  now apply Z.leb_le.
Qed.

Lemma ranked_stable (v : number) :
  filter (fun c => scoreOf q c =? v) (sort (chunkCompare q) chunks)
  = filter (fun c => scoreOf q c =? v) chunks.
Proof.
  apply sort_stable with (key := rank q) (dom := defined q).
  - intros; now apply after_rank.
  - intros a b Ha Hb. unfold rank.
    destruct (eqb_defined Ha) as [Da Dv], (eqb_defined Hb) as [Db _].
    rewrite (@IEEE.eqb_ordZ _ _ Da Dv) in Ha. rewrite (@IEEE.eqb_ordZ _ _ Db Dv) in Hb.
    apply Z.eqb_eq in Ha, Hb. congruence.
  - apply Forall_forall, all_defined.
Qed.

(** The chunks scoring above the sentinel are a prefix of the ranking. *)
Lemma ranked_above_sentinel :
  filter (fun c => gt (scoreOf q c) (-1)) (sort (chunkCompare q) chunks)
  = firstn (length (filter (fun c => gt (scoreOf q c) (-1)) chunks)) (sort (chunkCompare q) chunks).
Proof.
  rewrite (filter_perm_length _ (Permutation_sym (sort_perm (chunkCompare q) chunks))).
  apply sorted_threshold
    with (R := fun a b => desc (rank q) a b /\ defined q a /\ defined q b).
  - intros a b [H [Da Db]] Hb. unfold gt in *.
    destruct (ltb_defined Hb) as [D1 _].
    rewrite (@IEEE.ltb_ordZ _ _ D1 Db) in Hb. rewrite (@IEEE.ltb_ordZ _ _ D1 Da).
    apply Z.ltb_lt in Hb. apply Z.ltb_lt. unfold desc, rank in H. lia.
  - eapply sorted_weaken; [ | apply ranked_defined | apply ranked_sorted].
    intros; auto.
Qed.

End Ranking.

Lemma top_above_sentinel (q : list number) (chunks : list DocumentChunk)
    (topK : nat) (c : DocumentChunk) :
  (forall c, In c chunks -> defined q c) ->
  topK <= length (filter (fun c => gt (scoreOf q c) (-1)) chunks) ->
  In c (firstn topK (sort (chunkCompare q) chunks)) ->
  gt (scoreOf q c) (-1) = true.
Proof.
  intros Hd Hk Hin.
  rewrite <- (Nat.min_l _ _ Hk), <- firstn_firstn in Hin.
  apply firstn_In in Hin. rewrite <- (@ranked_above_sentinel _ _ Hd) in Hin.
  apply filter_In in Hin. apply Hin.
Qed.

(** C1 (as amended).  On a corpus whose scores against the query are all
    defined (no [NaN]) and with [topK] at most the size of the corpus,
    [findBestMatches] returns exactly [topK] chunks, in non-increasing order
    of score, the chunks of equal score in corpus order (for every score [v]
    the returned chunks scoring [v] are the first ones of the corpus that
    score [v]); and when at least [topK] chunks score strictly above the
    sentinel [-1], every returned chunk scores above it and so carries an
    embedding. *)
Theorem findBestMatches_ranked (q : list number) (chunks : list DocumentChunk) (topK : nat) :
  (forall c, In c chunks -> isNaN (scoreOf q c) = false) ->
  topK <= length chunks ->
  length (findBestMatches q chunks topK) = topK
  /\ StronglySorted (fun a b => ge (scoreOf q a) (scoreOf q b) = true)
       (findBestMatches q chunks topK)
  /\ (forall v : number, exists n,
        filter (fun c => scoreOf q c =? v) (findBestMatches q chunks topK)
        = firstn n (filter (fun c => scoreOf q c =? v) chunks))
  /\ (topK <= length (filter (fun c => gt (scoreOf q c) (-1)) chunks) ->
      forall c, In c (findBestMatches q chunks topK) ->
        gt (scoreOf q c) (-1) = true /\ embedding c <> None).
Proof.
  intros Hd Hk. rewrite findBestMatches_eq. repeat split.
  - rewrite length_firstn, sort_length. lia.
  - apply firstn_sorted, ranked_by_score, Hd.
  - intros v. eexists. rewrite filter_firstn, (@ranked_stable _ _ Hd v). reflexivity.
  - eapply top_above_sentinel; eauto.
  - intros E. pose proof (@top_above_sentinel _ _ _ _ Hd H H0) as Hg.
    unfold scoreOf in Hg. rewrite E in Hg. discriminate.
Qed.

Lemma findBestMatches_ranked_witness :
  (forall c, In c sampleCorpus -> isNaN (scoreOf [1; 0] c) = false)
  /\ 2%nat <= length sampleCorpus
  /\ length (findBestMatches [1; 0] sampleCorpus 2) = 2%nat
  /\ StronglySorted (fun a b => ge (scoreOf [1; 0] a) (scoreOf [1; 0] b) = true)
       (findBestMatches [1; 0] sampleCorpus 2)
  /\ (forall v : number, exists n,
        filter (fun c => scoreOf [1; 0] c =? v) (findBestMatches [1; 0] sampleCorpus 2)
        = firstn n (filter (fun c => scoreOf [1; 0] c =? v) sampleCorpus))
  /\ (2%nat <= length (filter (fun c => gt (scoreOf [1; 0] c) (-1)) sampleCorpus) ->
      forall c, In c (findBestMatches [1; 0] sampleCorpus 2) ->
        gt (scoreOf [1; 0] c) (-1) = true /\ embedding c <> None).
Proof.
  assert (Hd : forall c, In c sampleCorpus -> isNaN (scoreOf [1; 0] c) = false).
  { intros c [<- | [<- | [<- | [<- | []]]]]; vm_compute; reflexivity. }
  split; [exact Hd | ].
  split; [cbn; lia | ].
  apply (@findBestMatches_ranked [1; 0] sampleCorpus 2 Hd). cbn; lia.
Defined.

(** C1, as stated, fails: a chunk without embedding scores the sentinel [-1],
    which is a cosine value too (a chunk pointing away from the query); the
    tie is broken by corpus order, and the chunk without embedding is
    returned although a chunk with an embedding exists. *)
Lemma findBestMatches_sentinel_tie :
  hasEmbedding tieOpposite = true
  /\ scoreOf [1] tieOpposite = -1
  /\ 1%nat <= length (filter hasEmbedding [tieMissing; tieOpposite])
  /\ findBestMatches [1] [tieMissing; tieOpposite] 1 = [tieMissing]
  /\ embedding tieMissing = None.
Proof. repeat split; vm_compute; reflexivity || lia. Qed.

(** With a score that is not a number the order is lost as well: a zero
    vector is a non-empty embedding, its cosine is [NaN], and the chunk
    scoring 0 stays in front of the chunk scoring 1. *)
Lemma findBestMatches_nan_unordered :
  let corpus := [ chunkOf (js "A") (Some [0; 1]);
                  chunkOf (js "Z") (Some [0; 0]);
                  chunkOf (js "C") (Some [1; 0]) ] in
  map (scoreOf [1; 0]) corpus = [0; nan; 1]
  /\ findBestMatches [1; 0] corpus 3 = corpus.
Proof. split; vm_compute; reflexivity. Qed.

Lemma findBestMatches_length (q : list number) (chunks : list DocumentChunk) (topK : nat) :
  length (findBestMatches q chunks topK) = Nat.min topK (length chunks).
Proof. now rewrite findBestMatches_eq, length_firstn, sort_length. Qed.

Lemma findBestMatches_incl (q : list number) (chunks : list DocumentChunk) (topK : nat)
    (c : DocumentChunk) :
  In c (findBestMatches q chunks topK) -> In c chunks.
Proof.
  rewrite findBestMatches_eq. intros Hc. apply firstn_In in Hc.
  eapply Permutation_in; [apply sort_perm | exact Hc].
Qed.


(** An instance: one embedded chunk, [topK = 3]. *)
Lemma findBestMatches_fills_example :
  findBestMatches [1; 0] [chunkOf (js "D") None; chunkOf (js "C") (Some [1; 0]);
                          chunkOf (js "E") None] 3
  = [chunkOf (js "C") (Some [1; 0]); chunkOf (js "D") None; chunkOf (js "E") None].
Proof. vm_compute. reflexivity. Qed.

(** *** Vectors of different lengths *)

Lemma dotFrom_nan (vecA vecB : list number) : forall (i : nat) (sum : number),
  isNaN sum = true -> isNaN (dotFrom i vecA vecB sum) = true.
Proof.
  induction vecA as [ | a rest IH]; intros i sum H; cbn [dotFrom]; [exact H | ].
  apply IH. now apply IEEE.add_nan_l.
Qed.

Lemma dotFrom_short (vecA vecB : list number) : forall (i : nat) (sum : number),
  (i <= length vecB)%nat -> (length vecB < i + length vecA)%nat ->
  isNaN (dotFrom i vecA vecB sum) = true.
Proof.
  induction vecA as [ | a rest IH]; intros i sum Hi Hlen; cbn [dotFrom length] in *; [lia | ].
  destruct (Nat.eq_dec i (length vecB)) as [E | NE].
  - apply dotFrom_nan. unfold index. rewrite nth_overflow by lia.
    apply IEEE.add_nan_r, IEEE.mul_nan_r. reflexivity.
  - apply IH; lia.
Qed.

Lemma dotFrom_firstn (vecA : list number) : forall (vecB : list number) (i : nat) (sum : number),
  dotFrom i vecA vecB sum = dotFrom i vecA (firstn (i + length vecA) vecB) sum.
Proof.
  induction vecA as [ | a rest IH]; intros vecB i sum; cbn [dotFrom length]; [reflexivity | ].
  unfold index at 2. rewrite nth_firstn.
  replace (i <? i + S (length rest))%nat with true by (symmetry; apply Nat.ltb_lt; lia).
  fold (index vecB i).
  rewrite (IH vecB), (IH (firstn _ vecB)), firstn_firstn.
  do 2 f_equal. lia.
Qed.

(** The sums of a scalar product never are the negative zero. *)
Lemma dotFrom_not_neg_zero (vecA vecB : list number) : forall (i : nat) (sum : number),
  Prim2SF sum <> S754_zero true -> Prim2SF (dotFrom i vecA vecB sum) <> S754_zero true.
Proof.
  induction vecA as [ | a rest IH]; intros i sum H; cbn [dotFrom]; [exact H | ].
  apply IH. now apply IEEE.add_not_neg_zero.
Qed.

Lemma dotFrom_app (vecA vecA' vecB : list number) : forall (i : nat) (sum : number),
  dotFrom i (vecA ++ vecA') vecB sum
  = dotFrom (i + length vecA) vecA' vecB (dotFrom i vecA vecB sum).
Proof.
  induction vecA as [ | a rest IH]; intros i sum; cbn [dotFrom app length].
  - now rewrite Nat.add_0_r.
  - rewrite IH. f_equal. lia.
Qed.

Lemma isFinite_product (sum b : number) :
  Prim2SF sum <> S754_zero true -> isFinite b = true -> sum + 0 * b = sum.
Proof.
  intros Hs Hb. apply IEEE.add_zero_product; [exact Hs | ].
  unfold isFinite in Hb. destruct (Prim2SF b); try discriminate; exact I.
Qed.

Lemma dotFrom_zeros (vecB : list number) : forall (k i : nat) (sum : number),
  Prim2SF sum <> S754_zero true ->
  (forall j, (i <= j < i + k)%nat -> isFinite (index vecB j) = true) ->
  dotFrom i (repeat 0 k) vecB sum = sum.
Proof.
  induction k as [ | k IH]; intros i sum Hs Hf; cbn [repeat dotFrom]; [reflexivity | ].
  rewrite isFinite_product; [ | exact Hs | apply Hf; lia].
  apply IH; [exact Hs | ]. intros j Hj. apply Hf. lia.
Qed.

Lemma sumSquares_not_neg_zero (vec : list number) : forall sum : number,
  Prim2SF sum <> S754_zero true ->
  Prim2SF (fold_left (fun s a => s + a * a) vec sum) <> S754_zero true.
Proof.
  induction vec as [ | a rest IH]; intros sum H; cbn [fold_left]; [exact H | ].
  apply IH. now apply IEEE.add_not_neg_zero.
Qed.

Lemma sumSquares_zeros (k : nat) (sum : number) :
  Prim2SF sum <> S754_zero true ->
  fold_left (fun s a => s + a * a) (repeat 0 k) sum = sum.
Proof.
  intros Hs. induction k as [ | k IH]; cbn [repeat fold_left]; [reflexivity | ].
  rewrite isFinite_product; [exact IH | exact Hs | reflexivity].
Qed.

(** With finite components behind the end of the query, the similarity is
    that of the query padded with zeros. *)
Lemma cosineSimilarity_zeroPadded (vecA vecB : list number) :
  (length vecA <= length vecB)%nat ->
  forallb isFinite (skipn (length vecA) vecB) = true ->
  cosineSimilarity vecA vecB = cosineSimilarity (zeroPadded vecA vecB) vecB.
Proof.
  intros Hl Hf. unfold cosineSimilarity, zeroPadded.
  assert (Z0 : Prim2SF 0 <> S754_zero true) by discriminate.
  rewrite dotFrom_app. cbn [Nat.add].
  rewrite dotFrom_zeros.
  - unfold sumSquares. rewrite fold_left_app, sumSquares_zeros; [reflexivity | ].
    now apply sumSquares_not_neg_zero.
  - now apply dotFrom_not_neg_zero.
  - intros j Hj. rewrite forallb_forall in Hf. apply Hf.
    unfold index. rewrite <- (firstn_skipn (length vecA) vecB) at 1.
    rewrite app_nth2 by (rewrite length_firstn; lia).
    rewrite length_firstn, Nat.min_l by lia.
    apply nth_In. rewrite length_skipn. lia.
Qed.

Lemma findBestMatches_all (q : list number) (chunks : list DocumentChunk) (topK : nat) :
  (length chunks <= topK)%nat -> Permutation (findBestMatches q chunks topK) chunks.
Proof.
  intros H. rewrite findBestMatches_eq, firstn_all2 by (rewrite sort_length; exact H).
  apply sort_perm.
Qed.

(** C4 (as amended).  No comparison raises a mismatch error.  A chunk
    embedding shorter than the query has the similarity [NaN].  With a
    longer one the dot product reads its first [length vecA] components
    only, while its magnitude is taken over all of them: when the
    components behind the end of the query are finite, the similarity is
    exactly that of the query padded with zeros, a number or [NaN] as there.
    No chunk is left out or marked for the length of its embedding: of any
    corpus [min topK (length chunks)] chunks are returned, all of them when
    [topK] reaches the size of the corpus, and, on a corpus without a [NaN]
    score, in non-increasing order of these scores, whatever the lengths of
    the embeddings. *)
Theorem cosineSimilarity_length_mismatch (vecA vecB : list number) :
  ((length vecB < length vecA)%nat -> isNaN (cosineSimilarity vecA vecB) = true)
  /\ ((length vecA < length vecB)%nat ->
      forallb isFinite (skipn (length vecA) vecB) = true ->
      cosineSimilarity vecA vecB = cosineSimilarity (zeroPadded vecA vecB) vecB)
  /\ cosineSimilarity vecA vecB
     = dotFrom 0 vecA (firstn (length vecA) vecB) 0
       / (sqrt (sumSquares vecA) * sqrt (sumSquares vecB))
  /\ (forall (chunks : list DocumentChunk) (topK : nat),
        length (findBestMatches vecA chunks topK) = Nat.min topK (length chunks)
        /\ ((length chunks <= topK)%nat ->
            Permutation (findBestMatches vecA chunks topK) chunks)
        /\ ((forall c, In c chunks -> isNaN (scoreOf vecA c) = false) ->
            StronglySorted (fun a b => ge (scoreOf vecA a) (scoreOf vecA b) = true)
              (findBestMatches vecA chunks topK))).
Proof.
  split; [ | split; [ | split] ].
  - intros H. unfold cosineSimilarity.
    apply IEEE.div_nan_l, dotFrom_short; cbn; lia.
  - intros H F. apply cosineSimilarity_zeroPadded; [lia | exact F].
  - unfold cosineSimilarity. now rewrite (dotFrom_firstn vecA vecB 0 0).
  - intros chunks topK. split; [apply findBestMatches_length | split].
    + apply findBestMatches_all.
    + intros Hd. rewrite findBestMatches_eq. apply firstn_sorted, ranked_by_score, Hd.
Qed.

(** A query of one component against embeddings of one, two and three
    components: the chunk of the longer embedding [(1, 0)] scores 1, as the
    padded query does, and is ranked first among the three. *)
Lemma cosineSimilarity_length_mismatch_witness :
  let corpus := [ chunkOf (js "A") (Some [-1]);
                  chunkOf (js "B") (Some [1; 0]);
                  chunkOf (js "C") (Some [1; 1; 1]) ] in
  (length [1] < length [1; 0])%nat
  /\ isNaN (cosineSimilarity [1; 0] [1]) = true
  /\ forallb isFinite (skipn (length [1]) [1; 0]) = true
  /\ cosineSimilarity [1] [1; 0] = cosineSimilarity [1; 0] [1; 0]
  /\ (forall c, In c corpus -> isNaN (scoreOf [1] c) = false)
  /\ StronglySorted (fun a b => ge (scoreOf [1] a) (scoreOf [1] b) = true)
       (findBestMatches [1] corpus 2)
  /\ map id (findBestMatches [1] corpus 2) = [js "B"; js "C"].
Proof.
  intros corpus.
  assert (Hd : forall c, In c corpus -> isNaN (scoreOf [1] c) = false).
  { intros c [<- | [<- | [<- | []]]]; vm_compute; reflexivity. }
  destruct (cosineSimilarity_length_mismatch [1; 0] [1]) as [H1 _].
  destruct (cosineSimilarity_length_mismatch [1] [1; 0]) as [_ [H2 [_ H4]]].
  destruct (H4 corpus 2%nat) as [_ [_ H5]].
  split; [cbn; lia | ]. split; [apply H1; cbn; lia | ].
  split; [reflexivity | ]. split; [apply H2; [cbn; lia | reflexivity] | ].
  split; [exact Hd | ]. split; [exact (H5 Hd) | ].
  vm_compute. reflexivity.
Defined.

(** C4, as stated, fails: the query [(1)] against the embedding [(1, 0)]
    scores 1, as if the query had been padded with a zero, and no error is
    raised. *)
Lemma cosineSimilarity_pads_query :
  length [1] <> length [1; 0]
  /\ cosineSimilarity [1] [1; 0] = 1
  /\ cosineSimilarity [1] [1; 0] = cosineSimilarity [1; 0] [1; 0]
  /\ isNaN (cosineSimilarity [1] [1; 0]) = false.
Proof. repeat split; try (vm_compute; reflexivity). cbn. discriminate. Qed.

End MatcherFacts.

(* ================================================================== *)
(** ** The chunker *)

Module ChunkerFacts.

Import JSString Chunker ChunkerSpec StringFacts.

Lemma dropWhile_length (p : N -> bool) (s : jsstring) :
  length (dropWhile p s) <= length s.
Proof.
  induction s as [ | c s IH]; cbn [dropWhile]; [lia | ].
  destruct (p c); cbn [length]; lia.
Qed.

Lemma dropWhile_shorter (p : N -> bool) (s : jsstring) :
  truthy (takeWhile p s) = true -> length (dropWhile p s) < length s.
Proof.
  destruct s as [ | c s]; cbn [takeWhile dropWhile]; [discriminate | ].
  destruct (p c); [ | discriminate].
  intros _. pose proof (dropWhile_length p s). cbn [length]. lia.
Qed.

(** The number of steps given to the search does not matter once it covers
    the text. *)
Lemma matchesFrom_enough (n : nat) : forall (m : nat) (s : jsstring),
  length s <= n -> length s <= m -> matchesFrom n s = matchesFrom m s.
Proof.
  induction n as [ | n IH]; intros m s Hn Hm.
  - destruct s; [ | cbn in Hn; lia]. destruct m; reflexivity.
  - destruct s as [ | c rest]; [destruct m; reflexivity | ].
    destruct m as [ | m]; [cbn in Hm; lia | ].
    cbn [length] in Hn, Hm. cbn [matchesFrom].
    destruct (truthy (takeWhile notTerminator (c :: rest))) eqn:Hrun; cbn [andb].
    + pose proof (dropWhile_shorter notTerminator (c :: rest) Hrun) as L1.
      pose proof (dropWhile_length isTerminator (dropWhile notTerminator (c :: rest))) as L2.
      cbn [length] in L1.
      destruct (truthy (takeWhile isTerminator (dropWhile notTerminator (c :: rest)))).
      * f_equal. apply IH; lia.
      * destruct rest as [ | c' rest']; [reflexivity | ].
        cbn [length] in *.
        destruct (isWhiteSpace c && (c' =? 10)%N); [f_equal | ]; apply IH; cbn [length]; lia.
    + destruct rest as [ | c' rest']; [reflexivity | ].
      cbn [length] in *.
      destruct (isWhiteSpace c && (c' =? 10)%N); [f_equal | ]; apply IH; cbn [length]; lia.
Qed.

(** No chunk is the empty string. *)
Lemma chunkText_nonempty (text : jsstring) (chunkSize : nat) (c : jsstring) :
  In c (chunkText text chunkSize) -> c <> [].
Proof.
  unfold chunkText.
  destruct (fold_left (addSentence chunkSize) (sentencesOf text) ([], [])) as [chunks cur].
  intros H. apply filter_In in H. destruct H as [_ H].
  intros ->. discriminate.
Qed.

(** *** What the chunks keep *)

Lemma content_app (a b : jsstring) : content (a ++ b) = content a ++ content b.
Proof. apply filter_app. Qed.

Lemma content_dropWhile (s : jsstring) : content (dropWhile isWhiteSpace s) = content s.
Proof.
  induction s as [ | c s IH]; cbn [dropWhile]; [reflexivity | ].
  destruct (isWhiteSpace c) eqn:E; [ | reflexivity].
  rewrite IH. unfold content. cbn [filter]. now rewrite E.
Qed.

Lemma content_trim (s : jsstring) : content (trim s) = content s.
Proof.
  unfold trim, trimEnd, trimStart, content.
  rewrite filter_rev. fold (content (dropWhile isWhiteSpace (rev (dropWhile isWhiteSpace s)))).
  rewrite content_dropWhile. unfold content. rewrite filter_rev, rev_involutive.
  apply content_dropWhile.
Qed.

Lemma content_blank (s : jsstring) : truthy (trim s) = false -> content s = [].
Proof.
  intros H. rewrite <- content_trim. destruct (trim s); [reflexivity | discriminate].
Qed.

Lemma concat_nonempty (l : list jsstring) :
  concat (filter (fun c => 0 <? length c) l) = concat l.
Proof.
  induction l as [ | c l IH]; [reflexivity | ].
  cbn [filter]. destruct c as [ | x c].
  - cbn. exact IH.
  - cbn [length]. change (0 <? S (length c)) with true. cbn [concat]. now rewrite IH.
Qed.

Lemma addSentence_content (n : nat) (sentences : list jsstring) :
  forall (chunks : list jsstring) (cur : jsstring),
  content (concat (fst (fold_left (addSentence n) sentences (chunks, cur)))
           ++ snd (fold_left (addSentence n) sentences (chunks, cur)))
  = content (concat chunks ++ cur ++ concat sentences).
Proof.
  induction sentences as [ | s ss IH]; intros chunks cur; cbn [fold_left concat fst snd].
  - now rewrite app_nil_r.
  - unfold addSentence at 2 4. destruct (n <? length (cur ++ s)).
    + rewrite IH, concat_app. cbn [concat]. rewrite app_nil_r.
      rewrite !content_app, content_trim. now rewrite <- !app_assoc.
    + rewrite IH. now rewrite <- !app_assoc.
Qed.

(** The chunks carry the content of the matched sentences, and nothing
    else. *)
Lemma chunkText_content (text : jsstring) (chunkSize : nat) :
  content (concat (chunkText text chunkSize)) = content (concat (sentencesOf text)).
Proof.
  unfold chunkText. cbv zeta.
  match goal with
  | |- context [let '(_, _) := ?X in _] => destruct X as [chunks cur] eqn:F
  end.
  assert (H : content (concat chunks ++ cur) = content (concat (sentencesOf text))).
  { match type of F with
    | ?X = _ =>
        assert (H : content (concat (fst X) ++ snd X) = content (concat (sentencesOf text)))
          by exact (addSentence_content chunkSize (sentencesOf text) [] [])
    end.
    now rewrite F in H. }
  rewrite concat_nonempty, <- H.
  destruct (truthy (trim cur)) eqn:E.
  - rewrite concat_app. cbn [concat]. rewrite app_nil_r, !content_app. now rewrite content_trim.
  - rewrite content_app, (content_blank cur E). now rewrite app_nil_r.
Qed.

(** *** What the pattern leaves out *)

Lemma hasBreak_cons (c c' : N) (rest : jsstring) :
  hasBreak (c :: c' :: rest) = (isWhiteSpace c && (c' =? 10)%N) || hasBreak (c' :: rest).
Proof. reflexivity. Qed.

Lemma takeWhile_all (p : N -> bool) (s : jsstring) :
  forallb p s = true -> takeWhile p s = s /\ dropWhile p s = [].
Proof.
  induction s as [ | c s IH]; cbn [forallb takeWhile dropWhile]; [auto | ].
  intros H. apply andb_true_iff in H. destruct H as [Hc Hs]. rewrite Hc.
  destruct (IH Hs) as [-> ->]. auto.
Qed.

Lemma matchesFrom_unterminated (n : nat) : forall tail : jsstring,
  unterminated tail = true -> matchesFrom n tail = [].
Proof.
  unfold unterminated.
  induction n as [ | n IH]; intros tail H; [reflexivity | ].
  destruct tail as [ | c rest]; [reflexivity | ].
  apply andb_true_iff in H. destruct H as [Hall Hbr]. apply negb_true_iff in Hbr.
  cbn [matchesFrom]. destruct (takeWhile_all notTerminator (c :: rest) Hall) as [_ ->].
  cbn [takeWhile truthy]. rewrite andb_false_r.
  cbn [forallb] in Hall. apply andb_true_iff in Hall. destruct Hall as [_ Hrest].
  destruct rest as [ | c' rest']; [reflexivity | ].
  rewrite hasBreak_cons in Hbr. apply orb_false_iff in Hbr. destruct Hbr as [-> Hbr].
  apply IH. now rewrite Hrest, Hbr.
Qed.

(** Before a character that [p] rejects, the split of a text by [p] does not
    look further. *)
Lemma span_app_stop (p : N -> bool) (t : jsstring) :
  forallb (fun c => negb (p c)) t = true ->
  forall a, takeWhile p (a ++ t) = takeWhile p a /\ dropWhile p (a ++ t) = dropWhile p a ++ t.
Proof.
  intros Ht a. induction a as [ | x a [IH1 IH2]]; cbn [app takeWhile dropWhile].
  - destruct t as [ | y t]; [auto | ]. cbn [forallb] in Ht.
    apply andb_true_iff in Ht. destruct Ht as [Hy _]. apply negb_true_iff in Hy.
    cbn [takeWhile dropWhile]. now rewrite Hy.
  - destruct (p x); [now rewrite IH1, IH2 | auto].
Qed.

Lemma span_app_inner (p : N -> bool) (a t : jsstring) :
  existsb (fun c => negb (p c)) a = true ->
  takeWhile p (a ++ t) = takeWhile p a /\ dropWhile p (a ++ t) = dropWhile p a ++ t.
Proof.
  induction a as [ | x a IH]; cbn [existsb app takeWhile dropWhile]; [discriminate | ].
  destruct (p x); cbn [negb orb]; [ | auto].
  intros H. destruct (IH H) as [-> ->]. auto.
Qed.

Lemma endsSentence_cons (c : N) (s : jsstring) :
  s <> [] -> endsSentence (c :: s) = endsSentence s.
Proof.
  unfold endsSentence. cbn [rev]. intros H.
  destruct (rev s) as [ | y l] eqn:E; [ | reflexivity].
  apply (f_equal (@rev N)) in E. rewrite rev_involutive in E. contradiction.
Qed.

Lemma endsSentence_dropWhile (p : N -> bool) (s : jsstring) :
  endsSentence s = true -> endsSentence (dropWhile p s) = true.
Proof.
  induction s as [ | c s IH]; cbn [dropWhile]; [auto | ].
  intros H. destruct (p c); [ | exact H].
  destruct s as [ | y s]; [reflexivity | ].
  apply IH. rewrite <- H. symmetry. apply endsSentence_cons. discriminate.
Qed.

Lemma endsSentence_exists (s : jsstring) :
  s <> [] -> endsSentence s = true ->
  existsb (fun c => negb (notTerminator c)) s = true.
Proof.
  unfold endsSentence. intros Hs H.
  destruct (rev s) as [ | y l] eqn:E.
  - apply (f_equal (@rev N)) in E. rewrite rev_involutive in E. contradiction.
  - apply existsb_exists. exists y. split.
    + apply in_rev. rewrite E. now left.
    + unfold notTerminator. now rewrite H.
Qed.

Lemma terminator_not_space (c : N) : isTerminator c = true -> isWhiteSpace c = false.
Proof.
  unfold isTerminator. rewrite !orb_true_iff, !N.eqb_eq.
  intros [[-> | ->] | ->]; reflexivity.
Qed.

Lemma dropWhile_head (p : N -> bool) (s : jsstring) (c : N) (r : jsstring) :
  dropWhile p s = c :: r -> p c = false.
Proof.
  induction s as [ | x s IH]; cbn [dropWhile]; [discriminate | ].
  destruct (p x) eqn:E; [exact IH | ]. intros [= -> _]. exact E.
Qed.

(** Behind a text that ends a sentence, an unterminated tail adds no
    match. *)
Lemma matchesFrom_tail (tail : jsstring) :
  unterminated tail = true ->
  forall (n : nat) (s : jsstring),
  endsSentence s = true -> matchesFrom n (s ++ tail) = matchesFrom n s.
Proof.
  intros Ht. pose proof Ht as Ht'. unfold unterminated in Ht'.
  apply andb_true_iff in Ht'. destruct Ht' as [Hall _].
  assert (Hstop : forallb (fun c => negb (isTerminator c)) tail = true) by exact Hall.
  induction n as [ | n IH]; intros s Hs; [reflexivity | ].
  destruct s as [ | c rest].
  - cbn [app]. rewrite matchesFrom_unterminated by exact Ht. reflexivity.
  - cbn [app matchesFrom].
    change (c :: rest ++ tail) with ((c :: rest) ++ tail).
    assert (Hex : existsb (fun x => negb (notTerminator x)) (c :: rest) = true)
      by (apply endsSentence_exists; [discriminate | exact Hs]).
    destruct (span_app_inner notTerminator (c :: rest) tail Hex) as [-> ->].
    destruct (span_app_stop isTerminator tail Hstop (dropWhile notTerminator (c :: rest)))
      as [-> ->].
    destruct (truthy (takeWhile notTerminator (c :: rest))
              && truthy (takeWhile isTerminator (dropWhile notTerminator (c :: rest))))
      eqn:Hm.
    + f_equal. apply IH. now apply endsSentence_dropWhile, endsSentence_dropWhile.
    + assert (Hc : isTerminator c = true).
      { destruct (isTerminator c) eqn:E; [reflexivity | exfalso].
        assert (Hn : notTerminator c = true) by (unfold notTerminator; now rewrite E).
        cbn [takeWhile dropWhile] in Hm. rewrite !Hn in Hm. cbn [truthy andb] in Hm.
        destruct (dropWhile notTerminator rest) as [ | y r] eqn:Ed.
        - clear -Hex E Ed.
          cbn [existsb] in Hex. unfold notTerminator at 1 in Hex. rewrite E in Hex.
          cbn in Hex. apply existsb_exists in Hex. destruct Hex as (x & Hin & Hx).
          pose proof (@dropWhile_keeps notTerminator x rest Hin) as K.
          rewrite Ed in K. apply K. now apply negb_true_iff in Hx.
        - pose proof (dropWhile_head _ _ Ed) as Hy. unfold notTerminator in Hy.
          apply negb_false_iff in Hy. cbn [takeWhile] in Hm. rewrite Hy in Hm.
          discriminate. }
      rewrite (terminator_not_space c Hc). cbn [andb].
      destruct rest as [ | c' rest'].
      * cbn [app]. destruct tail as [ | t tail']; [reflexivity | ].
        now rewrite matchesFrom_unterminated.
      * cbn [app]. change (c' :: rest' ++ tail) with ((c' :: rest') ++ tail).
        apply IH. rewrite <- Hs. symmetry. apply endsSentence_cons. discriminate.
Qed.

Lemma matchSentences_tail (body tail : jsstring) :
  endsSentence body = true -> unterminated tail = true ->
  matchSentences (body ++ tail) = matchSentences body.
Proof.
  intros Hb Ht. unfold matchSentences.
  rewrite (matchesFrom_tail tail Ht _ body Hb).
  apply matchesFrom_enough; rewrite ?length_app; lia.
Qed.

Lemma chunkText_tail (body tail : jsstring) (chunkSize : nat) :
  endsSentence body = true -> matchSentences body <> [] -> unterminated tail = true ->
  chunkText (body ++ tail) chunkSize = chunkText body chunkSize.
Proof.
  intros Hb Hm Ht. unfold chunkText, sentencesOf.
  rewrite (matchSentences_tail body tail Hb Ht).
  destruct (matchSentences body); [contradiction | reflexivity].
Qed.

(** C2.  No chunk is empty, and the chunks carry exactly the content of the
    sentences that the pattern matches.  That is not the content of the
    text: what follows the last sentence terminator, when it has no line
    break, is matched by neither alternative of the pattern and is dropped
    with all it says.  On the text [Hello. World] the only chunk is
    [Hello.]. *)
Theorem chunkText_drops_unterminated_tail :
  (forall text chunkSize c, In c (chunkText text chunkSize) -> c <> [])
  /\ (forall text chunkSize,
        content (concat (chunkText text chunkSize)) = content (concat (sentencesOf text)))
  /\ (forall body tail chunkSize,
        endsSentence body = true -> matchSentences body <> [] ->
        unterminated tail = true ->
        chunkText (body ++ tail) chunkSize = chunkText body chunkSize)
  /\ chunkText (js "Hello. World") 500 = [js "Hello."]
  /\ content (concat (chunkText (js "Hello. World") 500)) = js "Hello."
  /\ content (js "Hello. World") = js "Hello.World".
Proof.
  split; [apply chunkText_nonempty | ].
  split; [apply chunkText_content | ].
  split; [apply chunkText_tail | ].
  repeat split; vm_compute; reflexivity.
Qed.

End ChunkerFacts.

(* ================================================================== *)
(** ** The embedding client *)

Module EmbeddingFacts.

Import JSNumber JSString World Embedding EmbeddingSpec.

(** The guard [!text || !text.trim()] is the test of the trimmed text. *)
Lemma blank_guard (t : jsstring) :
  negb (truthy t) || negb (truthy (trim t)) = negb (truthy (trim t)).
Proof. destruct t; reflexivity. Qed.

Section Client.

Variable W : Type.
Variable P : provider W.

Lemma embedFrom_acc (texts : list jsstring) :
  forall (acc : list (list number)) (w : W),
  embedFrom P texts acc w
  = (acc ++ fst (embedFrom P texts [] w), snd (embedFrom P texts [] w)).
Proof.
  induction texts as [ | t rest IH]; intros acc w; cbn [embedFrom].
  - unfold ret. cbn. now rewrite app_nil_r.
  - unfold bind. destruct (embedOne P t w) as [e w1].
    rewrite (IH (acc ++ [e])), (IH ([] ++ [e])). cbn [fst snd app].
    now rewrite <- app_assoc.
Qed.

Lemma getEmbeddings_nil (w : W) : getEmbeddings P [] w = ([], w).
Proof. reflexivity. Qed.

Lemma getEmbeddings_cons (t : jsstring) (rest : list jsstring) (w : W) :
  getEmbeddings P (t :: rest) w
  = (fst (embedOne P t w) :: fst (getEmbeddings P rest (snd (embedOne P t w))),
     snd (getEmbeddings P rest (snd (embedOne P t w)))).
Proof.
  unfold getEmbeddings. cbn [embedFrom]. unfold bind.
  destruct (embedOne P t w) as [e w1]. cbn [fst snd].
  now rewrite embedFrom_acc.
Qed.

Lemma getEmbeddings_app (pre post : list jsstring) : forall w : W,
  getEmbeddings P (pre ++ post) w
  = (fst (getEmbeddings P pre w) ++ fst (getEmbeddings P post (snd (getEmbeddings P pre w))),
     snd (getEmbeddings P post (snd (getEmbeddings P pre w)))).
Proof.
  induction pre as [ | t pre IH]; intros w; cbn [app].
  - rewrite getEmbeddings_nil. cbn [fst snd app]. now destruct (getEmbeddings P post w).
  - rewrite !getEmbeddings_cons, IH. reflexivity.
Qed.

Lemma getEmbeddings_length (texts : list jsstring) : forall w : W,
  length (fst (getEmbeddings P texts w)) = length texts.
Proof.
  induction texts as [ | t rest IH]; intros w; [reflexivity | ].
  rewrite getEmbeddings_cons. cbn [fst length]. now rewrite IH.
Qed.

Lemma getEmbeddings_one (t : jsstring) (w : W) :
  getEmbeddings P [t] w = ([fst (embedOne P t w)], snd (embedOne P t w)).
Proof. now rewrite getEmbeddings_cons, getEmbeddings_nil. Qed.

Lemma embedOne_blank (t : jsstring) (w : W) :
  truthy (trim t) = false -> embedOne P t w = ([], w).
Proof. intros H. unfold embedOne. rewrite blank_guard, H. reflexivity. Qed.

Lemma embedOne_call (t : jsstring) (w : W) :
  truthy (trim t) = true ->
  embedOne P t w
  = (match fst (embedContent P t w) with EmbedValues v => v | _ => [] end,
     snd (embedContent P t w)).
Proof.
  intros H. unfold embedOne, bind. rewrite blank_guard, H. cbn [negb].
  destruct (embedContent P t w) as [[ | | v] w1]; reflexivity.
Qed.

End Client.

Lemma logged_calls (W : Type) (P : provider W) (texts : list jsstring) :
  forall (w : W) (log : list jsstring),
  snd (snd (getEmbeddings (logged P) texts (w, log)))
  = log ++ filter (fun t => truthy (trim t)) texts.
Proof.
  induction texts as [ | t rest IH]; intros w log.
  - cbn. now rewrite app_nil_r.
  - rewrite getEmbeddings_cons. cbn [snd filter].
    destruct (truthy (trim t)) eqn:Ht.
    + rewrite (embedOne_call (logged P) t (w, log) Ht). cbn [logged embedContent].
      destruct (embedContent P t w) as [r w1]. cbn [snd]. rewrite IH.
      now rewrite <- app_assoc.
    + rewrite (embedOne_blank (logged P) t (w, log) Ht). cbn [snd]. apply IH.
Qed.

(** C9.  [getEmbeddings] returns as many vectors as it is given texts, the
    vector of each text at the position of the text.  A text that is empty
    or white space gives the empty vector and leaves the world as it is: the
    texts sent to the provider are exactly the other ones, in order.  A call
    that throws, or answers without values, gives the empty vector for its
    text, and the texts behind it are processed from the world the call
    left. *)
Theorem getEmbeddings_batch (W : Type) (P : provider W) (texts : list jsstring) (w : W) :
  length (fst (getEmbeddings P texts w)) = length texts
  /\ (forall pre t post, texts = pre ++ t :: post ->
        let w1 := snd (getEmbeddings P pre w) in
        fst (getEmbeddings P texts w)
        = fst (getEmbeddings P pre w)
          ++ fst (embedOne P t w1)
             :: fst (getEmbeddings P post (snd (embedOne P t w1)))
        /\ (truthy (trim t) = false -> embedOne P t w1 = ([], w1))
        /\ (truthy (trim t) = true ->
            embedOne P t w1
            = (match fst (embedContent P t w1) with
               | EmbedValues values => values
               | EmbedNoValues | EmbedThrows => []
               end,
               snd (embedContent P t w1))))
  /\ snd (snd (getEmbeddings (logged P) texts (w, [])))
     = filter (fun t => truthy (trim t)) texts.
Proof.
  split; [apply getEmbeddings_length | split].
  - intros pre t post ->. cbn zeta. split; [ | split].
    + rewrite getEmbeddings_app, getEmbeddings_cons. reflexivity.
    + apply embedOne_blank.
    + intros H. rewrite (embedOne_call P t _ H).
      destruct (fst (embedContent P t _)); reflexivity.
  - apply (logged_calls P texts w []).
Qed.

Lemma getEmbeddings_batch_witness :
  getEmbeddings countingProvider [js "a"; js "  "; js "boom"; js "b"] 0
  = ([[1%float]; []; []; [1%float]], 3)
  /\ length (fst (getEmbeddings countingProvider [js "a"; js "  "; js "boom"; js "b"] 0)) = 4
  /\ snd (snd (getEmbeddings (logged countingProvider)
                 [js "a"; js "  "; js "boom"; js "b"] (0, [])))
     = [js "a"; js "boom"; js "b"].
Proof.
  split; [vm_compute; reflexivity | ].
  destruct (getEmbeddings_batch countingProvider
              [js "a"; js "  "; js "boom"; js "b"] 0) as [H1 [_ H3]].
  split; [exact H1 | exact H3].
Defined.

End EmbeddingFacts.

(* ================================================================== *)
(** ** The conversation *)

Module ChatFacts.

Import JSNumber JSString World Embedding Chat EmbeddingSpec ChatSpec StringFacts.

Local Open Scope nat_scope.

Section Handlers.

Variable W : Type.
Variable P : provider W.

Lemma generateRAGResponse_text (d : Store.DB) (q : jsstring)
    (cs : list Matcher.DocumentChunk) (w : W) :
  Generator.text (fst (Generator.generateRAGResponse P d q cs w)) <> [].
Proof.
  unfold Generator.generateRAGResponse. run.
  destruct r as [ | response]; cbn [fst Generator.text]; [discriminate | ].
  intros E. pose proof (orElse_truthy (Generator.optString (responseText response))
                          (js "No response generated.") eq_refl) as T.
  rewrite E in T. discriminate.
Qed.

(** *** The shape of each transition *)

Lemma processQuery_shape (q : jsstring) (v : bool) (st : State) (w : W) :
  exists u b,
    messages (fst (processQuery P q v st w)) = messages st ++ [u; b]
    /\ role u = user /\ content u = q
    /\ role b = model /\ content b <> []
    /\ waitingForNumber (fst (processQuery P q v st w)) = waitingForNumber st
    /\ db (fst (processQuery P q v st w)) = db st.
Proof.
  unfold processQuery. run.
  do 2 eexists. cbn. rewrite <- app_assoc. cbn.
  repeat split; try reflexivity.
  match goal with
  | H : Generator.generateRAGResponse P ?d ?q' ?cs ?w' = (?r, _) |- _ =>
      pose proof (generateRAGResponse_text d q' cs w') as T; rewrite H in T; exact T
  end.
Qed.

Lemma handleSend_blank (st : State) (w : W) :
  truthy (trim (input st)) = false -> handleSend P st w = (st, w).
Proof. intros H. unfold handleSend. rewrite H. reflexivity. Qed.

Lemma handleSend_invalid_shape (st : State) (w : W) :
  waitingForNumber st = true ->
  truthy (trim (input st)) = true ->
  validContact (input st) = false ->
  exists m,
    fst (handleSend P st w) = setMessages (fun prev => prev ++ [m]) (setInput [] st)
    /\ role m = model /\ content m = validationFailure.
Proof.
  intros Hw Hb Hv. unfold handleSend. rewrite Hb. cbn [negb setInput waitingForNumber].
  rewrite Hw. unfold validContact in Hv. apply negb_false_iff in Hv. rewrite Hv.
  run. eexists. split; [reflexivity | split; reflexivity].
Qed.

Lemma handleSend_valid_shape (st : State) (w : W) :
  waitingForNumber st = true ->
  truthy (trim (input st)) = true ->
  validContact (input st) = true ->
  exists u r lead,
    messages (fst (handleSend P st w)) = messages st ++ [u; r]
    /\ role u = user /\ content u = input st
    /\ role r = model
    /\ content r <> []
    /\ waitingForNumber (fst (handleSend P st w)) = false
    /\ Store.leads (db (fst (handleSend P st w))) = Store.leads (db st) ++ [lead]
    /\ Store.phoneNumber lead = input st
    /\ Store.queryContext lead
       = substring0 100 (lastContextOf (messages st)) ++ js "...".
Proof.
  intros Hw Hb Hv. unfold handleSend. rewrite Hb. cbn [negb setInput waitingForNumber].
  rewrite Hw. unfold validContact in Hv. apply negb_true_iff in Hv. rewrite Hv.
  run. do 3 eexists. cbn. rewrite <- app_assoc. cbn.
  repeat split; try reflexivity. discriminate.
Qed.

Lemma handleSend_normal (st : State) (w : W) :
  waitingForNumber st = false ->
  truthy (trim (input st)) = true ->
  handleSend P st w = processQuery P (input st) false (setInput [] st) w.
Proof.
  intros Hw Hb. unfold handleSend. rewrite Hb. cbn [negb setInput waitingForNumber].
  rewrite Hw. reflexivity.
Qed.

(** *** An invariant of the conversation

    Every message of the model has a content, and while a contact is awaited
    the conversation holds a message of the model. *)
Lemma modelsSpeak_app (ms ms' : list Message) :
  modelsSpeak ms -> modelsSpeak ms' -> modelsSpeak (ms ++ ms').
Proof. unfold modelsSpeak. intros. apply Forall_app. auto. Qed.

Lemma inv_processQuery (q : jsstring) (v : bool) (st : State) (w : W) :
  inv st -> inv (fst (processQuery P q v st w)).
Proof.
  intros [H1 H2].
  destruct (processQuery_shape q v st w) as (u & b & Hm & Hu & _ & Hb & Hc & Hw & _).
  split.
  - rewrite Hm. apply modelsSpeak_app; [exact H1 | ].
    repeat constructor; congruence.
  - rewrite Hw, Hm. intros T. destruct (H2 T) as (m & Hin & Hr).
    exists m. split; [apply in_or_app; now left | exact Hr].
Qed.

Lemma inv_setInput (s : jsstring) (st : State) : inv st -> inv (setInput s st).
Proof. intros H. exact H. Qed.

Lemma inv_handleSend (st : State) (w : W) : inv st -> inv (fst (handleSend P st w)).
Proof.
  intros Hi. destruct (truthy (trim (input st))) eqn:Hb.
  2: { now rewrite handleSend_blank. }
  destruct (waitingForNumber st) eqn:Hw.
  2: { rewrite handleSend_normal by assumption. now apply inv_processQuery, inv_setInput. }
  destruct Hi as [H1 H2].
  destruct (validContact (input st)) eqn:Hv.
  - destruct (handleSend_valid_shape st w Hw Hb Hv)
      as (u & r & lead & Hm & Hu & _ & Hr & Hc & Hw' & _).
    split.
    + rewrite Hm. apply modelsSpeak_app; [exact H1 | ].
      repeat constructor; congruence.
    + rewrite Hw'. discriminate.
  - destruct (handleSend_invalid_shape st w Hw Hb Hv) as (m & -> & Hr & Hc).
    split; cbn.
    + apply modelsSpeak_app; [exact H1 | ]. repeat constructor.
      intros _. rewrite Hc. discriminate.
    + intros _. exists m. split; [apply in_or_app; right; now left | exact Hr].
Qed.

Lemma inv_step (e : event) (st : State) (w : W) : inv st -> inv (fst (step P e st w)).
Proof.
  intros Hi. destruct e as [ | s | | | waiting result | d]; cbn [step].
  - (* Sync *)
    unfold loadAndSync. cbn [messages]. destruct (messages st) eqn:Hm.
    + run. split; cbn.
      * repeat constructor. intros _. discriminate.
      * intros _. eexists. split; [now left | reflexivity].
    + cbn [fst]. destruct Hi as [H1 H2]. rewrite Hm in H1, H2. split; assumption.
  - (* Typing *) exact Hi.
  - (* Send *) now apply inv_handleSend.
  - (* KnowMore *)
    unfold handleKnowMore. run. destruct Hi as [H1 H2]. split; cbn.
    + apply modelsSpeak_app; [exact H1 | ]. repeat constructor. intros _. discriminate.
    + intros _. eexists. split; [apply in_or_app; right; now left | reflexivity].
  - (* Recording *)
    unfold handleAudioCaptured.
    destruct (blobToBase64 result) as [audio | ]; [ | exact Hi].
    unfold bind at 1.
    destruct (transcribeAudio P audio w) as [[t | ] w1]; [ | exact Hi].
    destruct (truthy t); [ | exact Hi].
    destruct waiting.
    + destruct Hi as [H1 H2]. split; cbn; [exact H1 | exact H2].
    + apply inv_processQuery. exact Hi.
  - (* StoreChange *) exact Hi.
Qed.

Lemma reachable_inv (st : State) : reachable P st -> inv st.
Proof.
  induction 1 as [d | e st w _ IH].
  - split; cbn; [constructor | discriminate].
  - now apply inv_step.
Qed.

(** *** The retrieval pipeline

    The pipeline of a turn, in the words of the specification: the query is
    embedded, the [topK] best chunks of the store are retrieved (none when
    the embedding is empty), and the answer is generated from them. *)
Lemma retrieve_fallback (d : Store.DB) (query : jsstring) (topK : nat) (w : W) :
  fst (embedOne P query w) = [] -> fst (retrieve P d query topK w) = [].
Proof.
  unfold retrieve, bind, ret.
  rewrite EmbeddingFacts.getEmbeddings_one.
  intros ->. reflexivity.
Qed.

Lemma retrieve_bounded (d : Store.DB) (query : jsstring) (topK : nat) (w : W) :
  length (fst (retrieve P d query topK w)) <= topK
  /\ incl (fst (retrieve P d query topK w)) (Store.getChunks d).
Proof.
  unfold retrieve, bind, ret.
  destruct (getEmbeddings P [query] w) as [[ | first rest] w1]; cbn [fst matchesOrNone].
  - split; [cbn; lia | intros x []].
  - destruct (0 <? length first); [ | split; [cbn; lia | intros x []]].
    pose proof (MatcherFacts.findBestMatches_length first (Store.getChunks d) topK) as L.
    split; [lia | ]. intros x Hx. eapply MatcherFacts.findBestMatches_incl; eauto.
Qed.

(** The reply of a normal turn and the report of a contact turn come from
    the pipeline, with 5 and with 8 chunks. *)
Lemma processQuery_pipeline (q : jsstring) (v : bool) (st : State) (w : W) :
  exists u b,
    messages (fst (processQuery P q v st w)) = messages st ++ [u; b]
    /\ role u = user /\ content u = q /\ role b = model
    /\ content b = Generator.text (snd (fst (ragTurn P (db st) 5 q q (ticks P 2 w))))
    /\ citations b
       = Some (map Matcher.docTitle (fst (fst (ragTurn P (db st) 5 q q (ticks P 2 w))))
               ++ match Generator.citations
                          (snd (fst (ragTurn P (db st) 5 q q (ticks P 2 w)))) with
                  | Some cs => cs
                  | None => []
                  end).
Proof.
  unfold processQuery, ragTurn, retrieve.
  cbn [ticks db setIsLoading setMessages]. run.
  do 2 eexists. cbn. rewrite <- app_assoc. cbn.
  repeat split; reflexivity.
Qed.

Lemma handleSend_report_pipeline (st : State) (w : W) :
  waitingForNumber st = true ->
  truthy (trim (input st)) = true ->
  validContact (input st) = true ->
  exists u r,
    messages (fst (handleSend P st w)) = messages st ++ [u; r]
    /\ role r = model
    /\ content r
       = reportContentOf (topicQueryOf (messages st) (input st))
           (Generator.text
              (snd (fst (ragTurn P (db st) 8
                           (topicQueryOf (messages st) (input st))
                           (detailedPromptOf (topicQueryOf (messages st) (input st)))
                           (ticks P 4 w))))).
Proof.
  intros Hw Hb Hv. unfold handleSend. rewrite Hb. cbn [negb setInput waitingForNumber].
  rewrite Hw. unfold validContact in Hv. apply negb_true_iff in Hv. rewrite Hv.
  unfold ragTurn, retrieve, Generator.generateRAGResponse, Store.getChunks, Store.getSettings.
  cbn [ticks db setIsLoading setMessages setDb setWaitingForNumber setInput
       Store.addLead Store.settings Store.chunks]. run.
  do 2 eexists. cbn. rewrite <- app_assoc. cbn.
  repeat split; reflexivity.
Qed.

End Handlers.

(** *** The topic of the report *)

Lemma find_rev_last (A : Type) (p : A -> bool) (pre post : list A) (m : A) :
  p m = true -> (forall x, In x post -> p x = false) ->
  find p (rev (pre ++ m :: post)) = Some m.
Proof.
  intros Hm Hpost. rewrite rev_app_distr. cbn [rev]. rewrite <- app_assoc. cbn [app].
  assert (Hrev : forall x, In x (rev post) -> p x = false)
    by (intros x Hx; apply Hpost; now apply in_rev).
  induction (rev post) as [ | y l IH]; cbn [app find].
  - now rewrite Hm.
  - rewrite (Hrev y (or_introl eq_refl)). apply IH. intros x Hx. apply Hrev. now right.
Qed.

Lemma find_none (A : Type) (p : A -> bool) (l : list A) :
  (forall x, In x l -> p x = false) -> find p l = None.
Proof.
  induction l as [ | y l IH]; intros H; cbn [find]; [reflexivity | ].
  rewrite (H y (or_introl eq_refl)). apply IH. intros x Hx. apply H. now right.
Qed.

(** The topic is the content of the last message of the user that differs
    from the submitted text, and the default topic when there is none. *)
Lemma topicQueryOf_spec (ms : list Message) (text : jsstring) :
  (forall pre m post,
     ms = pre ++ m :: post -> role m = user -> content m <> text ->
     (forall x, In x post -> role x = user -> content x = text) ->
     topicQueryOf ms text = content m)
  /\ ((forall x, In x ms -> role x = user -> content x = text) ->
      topicQueryOf ms text = defaultTopic).
Proof.
  unfold topicQueryOf, lastUserMsgOf. split.
  - intros pre m post -> Hr Hc Hpost.
    rewrite (@find_rev_last _ _ pre post m); [reflexivity | | ].
    + rewrite Hr. cbn. apply negb_true_iff.
      destruct (strictEq (content m) text) eqn:E; [ | reflexivity].
      apply strictEq_eq in E. contradiction.
    + intros x Hx. destruct (role x) eqn:Rx; [ | reflexivity]. cbn.
      apply negb_false_iff, strictEq_eq. now apply Hpost.
  - intros H. rewrite find_none; [reflexivity | ].
    intros x Hx. apply in_rev in Hx.
    destruct (role x) eqn:Rx; [ | reflexivity]. cbn.
    apply negb_false_iff, strictEq_eq. now apply H.
Qed.

Lemma validContact_range (text : jsstring) :
  validContact text = true <-> 10 <= length (stripNonDigits text) <= 15.
Proof.
  unfold validContact. rewrite negb_true_iff, orb_false_iff, !Nat.ltb_ge. lia.
Qed.

Lemma lastOf_In (A : Type) (xs : list A) (x : A) : lastOf xs = Some x -> In x xs.
Proof.
  unfold lastOf. destruct (rev xs) as [ | y l] eqn:E; [discriminate | ].
  intros [= ->]. apply in_rev. rewrite E. now left.
Qed.

Lemma lastOf_some (A : Type) (xs : list A) (x : A) :
  In x xs -> exists y, lastOf xs = Some y.
Proof.
  unfold lastOf. intros H. apply in_rev in H.
  destruct (rev xs) as [ | y l]; [contradiction | eauto].
Qed.

(** C5 (as amended).  While a contact is awaited, a submission that is not
    blank and whose digits, the other characters removed, number less than
    10 or more than 15 is rejected: the state stays [AWAITING_CONTACT], one
    message of the model with the validation failure is put behind the
    conversation and nothing else, and the store, with its leads, is left as
    it is. *)
Theorem handleSend_rejects_contact (W : Type) (P : provider W) (st : State) (w : W) :
  waitingForNumber st = true ->
  truthy (trim (input st)) = true ->
  length (stripNonDigits (input st)) < 10 \/ 15 < length (stripNonDigits (input st)) ->
  waitingForNumber (fst (handleSend P st w)) = true
  /\ (exists m,
        messages (fst (handleSend P st w)) = messages st ++ [m]
        /\ role m = model
        /\ content m = js "Please enter a valid phone number (e.g., +91 95265 69313).")
  /\ db (fst (handleSend P st w)) = db st
  /\ Store.leads (db (fst (handleSend P st w))) = Store.leads (db st).
Proof.
  intros Hw Hb Hd.
  assert (Hv : validContact (input st) = false).
  { destruct (validContact (input st)) eqn:E; [ | reflexivity].
    apply validContact_range in E. lia. }
  destruct (handleSend_invalid_shape P st w Hw Hb Hv) as (m & -> & Hr & Hc).
  cbn. repeat split; try assumption. exists m. repeat split; assumption.
Qed.

(** C6.  While a contact is awaited, in a state in which the messages of
    the model have a content and one of them is in the conversation (every
    state the component can reach is such a state, [reachable_inv]), a
    submission whose digits number 10 to 15 ends the wait; the submitted
    text is put behind the conversation as a message of the user, followed
    by the report; and one lead is added to the store, whose [phoneNumber]
    is the submitted text as it is and whose [queryContext] is the first 100
    characters of the content of the last message of the model, all of it
    when it is shorter, with three dots behind. *)
Theorem handleSend_records_lead (W : Type) (P : provider W) (st : State) (w : W) :
  inv st ->
  waitingForNumber st = true ->
  10 <= length (stripNonDigits (input st)) <= 15 ->
  waitingForNumber (fst (handleSend P st w)) = false
  /\ (exists u r,
        messages (fst (handleSend P st w)) = messages st ++ [u; r]
        /\ role u = user /\ content u = input st /\ role r = model)
  /\ (exists lead m,
        Store.leads (db (fst (handleSend P st w))) = Store.leads (db st) ++ [lead]
        /\ Store.phoneNumber lead = input st
        /\ lastOf (filter (fun x => roleEq (role x) model) (messages st)) = Some m
        /\ Store.queryContext lead = firstn 100 (content m) ++ js "..."
        /\ length (Store.queryContext lead) = Nat.min 100 (length (content m)) + 3).
Proof.
  intros [Hs Hm] Hw Hd.
  assert (Hv : validContact (input st) = true) by now apply validContact_range.
  assert (Hb : truthy (trim (input st)) = true) by (apply digits_not_blank; lia).
  destruct (Hm Hw) as (m0 & Hin0 & Hr0).
  destruct (@lastOf_some _ (filter (fun x => roleEq (role x) model) (messages st)) m0)
    as [m Hlast].
  { apply filter_In. split; [exact Hin0 | now rewrite Hr0]. }
  assert (Hctx : lastContextOf (messages st) = content m).
  { unfold lastContextOf. rewrite Hlast. apply orElse_left.
    apply lastOf_In, filter_In in Hlast. destruct Hlast as [Hin Hr].
    unfold modelsSpeak in Hs. rewrite Forall_forall in Hs. apply (Hs m Hin).
    destruct (role m); [discriminate | reflexivity]. }
  destruct (handleSend_valid_shape P st w Hw Hb Hv)
    as (u & r & lead & Hmsgs & Hu & Hcu & Hr & _ & Hw' & Hl & Hp & Hq).
  split; [exact Hw' | split].
  - exists u, r. auto.
  - exists lead, m. rewrite Hctx in Hq. unfold substring0 in Hq.
    repeat split; try assumption.
    rewrite Hq, length_app, length_firstn. reflexivity.
Qed.

(** *** A conversation with a provider that counts its calls *)

Lemma awaitingWith_reachable (text : jsstring) :
  reachable countingProvider (awaitingWith text).
Proof. unfold awaitingWith. repeat apply reachable_step. apply reachable_initial. Qed.

Lemma handleSend_rejects_contact_witness :
  waitingForNumber (awaitingWith (js "12345")) = true
  /\ truthy (trim (input (awaitingWith (js "12345")))) = true
  /\ length (stripNonDigits (input (awaitingWith (js "12345")))) = 5
  /\ waitingForNumber
       (fst (handleSend countingProvider (awaitingWith (js "12345")) 0)) = true
  /\ Store.leads
       (db (fst (handleSend countingProvider (awaitingWith (js "12345")) 0)))
     = [].
Proof.
  assert (Hw : waitingForNumber (awaitingWith (js "12345")) = true) by reflexivity.
  assert (Hb : truthy (trim (input (awaitingWith (js "12345")))) = true) by reflexivity.
  assert (Hd : length (stripNonDigits (input (awaitingWith (js "12345")))) = 5)
    by reflexivity.
  destruct (@handleSend_rejects_contact nat countingProvider
              (awaitingWith (js "12345")) 0 Hw Hb) as (H1 & _ & _ & H4).
  { left. rewrite Hd. lia. }
  repeat split; assumption.
Defined.

(** C5, as stated, fails on a blank submission: it has no digit, and it is
    dropped before the validation, so that no message is emitted. *)
Lemma handleSend_blank_contact :
  waitingForNumber (awaitingWith (js "   ")) = true
  /\ length (stripNonDigits (input (awaitingWith (js "   ")))) = 0
  /\ handleSend countingProvider (awaitingWith (js "   ")) 0
     = (awaitingWith (js "   "), 0)
  /\ messages (fst (handleSend countingProvider (awaitingWith (js "   ")) 0))
     = messages (awaitingWith (js "   ")).
Proof. repeat split. Qed.

Lemma answeredWhileAwaiting_reachable (text : jsstring) :
  reachable lecturingProvider (answeredWhileAwaiting text).
Proof.
  unfold answeredWhileAwaiting. repeat apply reachable_step. apply reachable_initial.
Qed.

Lemma handleSend_records_lead_witness :
  let st := answeredWhileAwaiting (js "+91 95265 69313") in
  inv st
  /\ waitingForNumber st = true
  /\ length (stripNonDigits (input st)) = 12
  /\ option_map content (lastOf (filter (fun x => roleEq (role x) model) (messages st)))
     = Some longAnswer
  /\ length longAnswer = 115
  /\ waitingForNumber (fst (handleSend lecturingProvider st 0)) = false
  /\ map (fun l => (Store.phoneNumber l, Store.queryContext l))
       (Store.leads (db (fst (handleSend lecturingProvider st 0))))
     = [(js "+91 95265 69313",
         js "Samastha Kerala Jamiyyathul Ulama was founded in 1926 and is the largest organisation of Muslim scho...")].
Proof.
  intros st.
  assert (Hi : inv st)
    by exact (@reachable_inv _ lecturingProvider _ (answeredWhileAwaiting_reachable _)).
  assert (Hw : waitingForNumber st = true) by reflexivity.
  assert (Hd : length (stripNonDigits (input st)) = 12) by reflexivity.
  destruct (@handleSend_records_lead nat lecturingProvider st 0 Hi Hw)
    as (H1 & _ & lead & m & Hl & Hp & Hlast & Hq & _).
  { rewrite Hd. lia. }
  split; [exact Hi | ]. split; [exact Hw | ]. split; [exact Hd | ].
  split; [reflexivity | ]. split; [reflexivity | ]. split; [exact H1 | ].
  rewrite Hl. change (Store.leads (db st)) with (@nil Store.Lead).
  cbn [app map]. rewrite Hp, Hq.
  assert (Hm : content m = longAnswer).
  { assert (E : lastOf (filter (fun x => roleEq (role x) model) (messages st))
                = Some m) by exact Hlast.
    vm_compute in E. injection E as <-. reflexivity. }
  rewrite Hm. reflexivity.
Defined.

(** C8 (as amended).  The turn that follows a valid contact delivers a
    report generated by the pipeline of a normal turn, with 8 chunks
    instead of 5, from a prompt on the topic; the topic is the content of
    the last message of the user that differs from the submitted contact
    text, and the default topic when there is no such message. *)
Theorem report_turn_pipeline (W : Type) (P : provider W) (st : State) (w : W) :
  waitingForNumber st = true ->
  10 <= length (stripNonDigits (input st)) <= 15 ->
  (exists u r,
     messages (fst (handleSend P st w)) = messages st ++ [u; r]
     /\ role r = model
     /\ content r
        = reportContentOf (topicQueryOf (messages st) (input st))
            (Generator.text
               (snd (fst (ragTurn P (db st) 8
                            (topicQueryOf (messages st) (input st))
                            (detailedPromptOf (topicQueryOf (messages st) (input st)))
                            (ticks P 4 w))))))
  /\ (forall pre m post,
        messages st = pre ++ m :: post -> role m = user -> content m <> input st ->
        (forall x, In x post -> role x = user -> content x = input st) ->
        topicQueryOf (messages st) (input st) = content m)
  /\ ((forall x, In x (messages st) -> role x = user -> content x = input st) ->
      topicQueryOf (messages st) (input st) = js "Samastha Kerala Jamiyyathul Ulama")
  /\ (forall q v st0 w0, exists u b,
        messages (fst (processQuery P q v st0 w0)) = messages st0 ++ [u; b]
        /\ role b = model
        /\ content b
           = Generator.text (snd (fst (ragTurn P (db st0) 5 q q (ticks P 2 w0)))))
  /\ (forall d q p k w0,
        length (fst (fst (ragTurn P d k q p w0))) <= k
        /\ (fst (embedOne P q w0) = [] -> fst (fst (ragTurn P d k q p w0)) = [])).
Proof.
  intros Hw Hd.
  assert (Hv : validContact (input st) = true) by now apply validContact_range.
  assert (Hb : truthy (trim (input st)) = true) by (apply digits_not_blank; lia).
  split; [ | split; [ | split; [ | split]]].
  - apply handleSend_report_pipeline; assumption.
  - apply topicQueryOf_spec.
  - apply topicQueryOf_spec.
  - intros q v st0 w0.
    destruct (processQuery_pipeline P q v st0 w0) as (u & b & H1 & _ & _ & H2 & H3 & _).
    exists u, b. auto.
  - intros d q p k w0. unfold ragTurn, bind, ret.
    pose proof (retrieve_bounded P d q k w0) as [L _].
    pose proof (@retrieve_fallback _ P d q k w0) as F.
    destruct (retrieve P d q k w0) as [rel w1]. cbn [fst snd] in *.
    destruct (Generator.generateRAGResponse P d p rel w1). cbn [fst]. auto.
Qed.

Lemma report_turn_pipeline_witness :
  waitingForNumber (askedBefore (js "+91 95265 69313")) = true
  /\ length (stripNonDigits (input (askedBefore (js "+91 95265 69313")))) = 12
  /\ topicQueryOf (messages (askedBefore (js "+91 95265 69313"))) (js "+91 95265 69313")
     = js "What is Samastha?"
  /\ (exists u r,
        messages (fst (handleSend countingProvider
                         (askedBefore (js "+91 95265 69313")) 0))
        = messages (askedBefore (js "+91 95265 69313")) ++ [u; r]
        /\ role r = model
        /\ content r
           = reportContentOf (js "What is Samastha?")
               (js "Error generating response. Please try again.")).
Proof.
  assert (Hw : waitingForNumber (askedBefore (js "+91 95265 69313")) = true)
    by reflexivity.
  assert (Hd : length (stripNonDigits (input (askedBefore (js "+91 95265 69313")))) = 12)
    by reflexivity.
  destruct (@report_turn_pipeline nat countingProvider
              (askedBefore (js "+91 95265 69313")) 0 Hw) as ((u & r & H1 & H2 & H3) & _).
  { rewrite Hd. lia. }
  split; [exact Hw | ]. split; [exact Hd | ]. split; [reflexivity | ].
  exists u, r. split; [exact H1 | ]. split; [exact H2 | ].
  rewrite H3. vm_compute. reflexivity.
Defined.

(** C8, as stated, fails when the user had sent the same text before: the
    message of the user exists, is the most recent one, and is passed over;
    the report is on the default topic. *)
Lemma report_turn_skips_equal_message :
  waitingForNumber askedContact = true
  /\ length (stripNonDigits (input askedContact)) = 10
  /\ map (fun m => (role m, content m)) (filter (fun m => roleEq (role m) user)
                                            (messages askedContact))
     = [(user, js "9526569313")]
  /\ topicQueryOf (messages askedContact) (input askedContact)
     = js "Samastha Kerala Jamiyyathul Ulama"
  /\ option_map content
       (lastOf (messages (fst (handleSend countingProvider askedContact 0))))
     = Some (reportContentOf (js "Samastha Kerala Jamiyyathul Ulama")
               (js "Error generating response. Please try again.")).
Proof. repeat split; vm_compute; reflexivity. Qed.

End ChatFacts.

(* ================================================================== *)
(** ** The live session *)

Module LiveFacts.

Import JSNumber JSString World Embedding Live ChunkerSpec EmbeddingSpec LiveSpec StringFacts.

Local Open Scope nat_scope.

Lemma startsWith_app (needle post : jsstring) : startsWith needle (needle ++ post) = true.
Proof.
  induction needle as [ | x n IH]; [reflexivity | ].
  cbn. now rewrite N.eqb_refl, IH.
Qed.

Lemma includes_app (needle pre post : jsstring) :
  includes needle (pre ++ needle ++ post) = true.
Proof.
  induction pre as [ | x pre IH]; cbn [app].
  - destruct (needle ++ post) eqn:E; cbn [includes]; rewrite <- E, startsWith_app;
      reflexivity.
  - cbn [includes]. rewrite IH. apply orb_true_r.
Qed.

Lemma includes_skip (needle s t : jsstring) :
  includes needle t = true -> includes needle (s ++ t) = true.
Proof.
  intros H. induction s as [ | x s IH]; cbn [app]; [exact H | ].
  cbn [includes]. rewrite IH. apply orb_true_r.
Qed.

Lemma includes_nil (hay : jsstring) : includes [] hay = true.
Proof. destruct hay; reflexivity. Qed.

Lemma join_cons (sep a b : jsstring) (parts : list jsstring) :
  join sep (a :: b :: parts) = a ++ sep ++ join sep (b :: parts).
Proof. reflexivity. Qed.

Lemma join_includes (sep p : jsstring) (parts : list jsstring) :
  In p parts -> includes p (join sep parts) = true.
Proof.
  induction parts as [ | a parts IH]; [contradiction | ].
  intros [-> | Hin].
  - destruct parts as [ | b parts].
    + cbn [join]. rewrite <- (app_nil_r p) at 2. apply (includes_app p [] []).
    + rewrite join_cons. apply (includes_app p [] (sep ++ join sep (b :: parts))).
  - destruct parts as [ | b parts]; [contradiction | ].
    rewrite join_cons. now apply includes_skip, includes_skip, IH.
Qed.

Lemma join_nonempty (sep p : jsstring) (parts : list jsstring) :
  In p parts -> p <> [] -> join sep parts <> [].
Proof.
  intros Hin Hp E. pose proof (join_includes sep p parts Hin) as H.
  rewrite E in H. destruct p; [congruence | discriminate].
Qed.

Section Callback.

Variable W : Type.
Variable P : provider W.

Lemma searchKnowledgeBase_eq (d : Store.DB) (fc : functionCall) (w : W) :
  searchKnowledgeBase P d fc w
  = ([ToolResponse (id fc) (name fc) (resultOf d (fst (embedOne P (query fc) w)))],
     snd (embedOne P (query fc) w)).
Proof.
  unfold searchKnowledgeBase, bind, ret.
  rewrite EmbeddingFacts.getEmbeddings_one. reflexivity.
Qed.

Lemma onmessage_one_call (d : Store.DB) (fc : functionCall) (w : W) :
  name fc = js "search_knowledge_base" ->
  onmessage P d {| audioData := None; toolCall := Some [fc] |} w
  = searchKnowledgeBase P d fc w.
Proof.
  intros Hn. unfold onmessage. cbn [audioData toolCall forEachCall].
  rewrite Hn. cbn [strictEq]. unfold bind, ret.
  replace (strictEq (js "search_knowledge_base") (js "search_knowledge_base"))
    with true by reflexivity.
  rewrite searchKnowledgeBase_eq. cbn [app]. reflexivity.
Qed.

End Callback.

(** C7 (as amended).  For a tool call named [search_knowledge_base] the
    callback embeds the query of the call, runs the matcher over all the
    chunks of the store with [topK = 3], and sends one tool response that
    carries the identifier and the name of the call and, as result, the
    texts of the matched chunks joined by blank lines, or the sentinel when
    that string is empty.  The result contains the text of every matched
    chunk, and it is the joined texts, not the fallback, when one of them
    has a text; every chunk of a store of at most three chunks is
    matched. *)
Theorem search_knowledge_base_response (W : Type) (P : provider W) (d : Store.DB)
    (fc : functionCall) (w : W) :
  name fc = js "search_knowledge_base" ->
  onmessage P d {| audioData := None; toolCall := Some [fc] |} w
  = ([ToolResponse (id fc) (name fc) (resultOf d (fst (embedOne P (query fc) w)))],
     snd (embedOne P (query fc) w))
  /\ (forall c,
        In c (Matcher.findBestMatches (fst (embedOne P (query fc) w)) (Store.getChunks d) 3) ->
        includes (Matcher.text c) (resultOf d (fst (embedOne P (query fc) w))) = true
        /\ (Matcher.text c <> [] ->
            resultOf d (fst (embedOne P (query fc) w))
            = join (newline ++ newline)
                (map Matcher.text
                   (Matcher.findBestMatches (fst (embedOne P (query fc) w))
                      (Store.getChunks d) 3))))
  /\ (Matcher.findBestMatches (fst (embedOne P (query fc) w)) (Store.getChunks d) 3 = [] ->
      resultOf d (fst (embedOne P (query fc) w)) = js "No relevant documents found.")
  /\ (length (Store.getChunks d) <= 3 ->
      forall c, In c (Store.getChunks d) ->
        In c (Matcher.findBestMatches (fst (embedOne P (query fc) w)) (Store.getChunks d) 3)).
Proof.
  intros Hn. set (q := fst (embedOne P (query fc) w)).
  assert (Hnon : forall c,
    In c (Matcher.findBestMatches q (Store.getChunks d) 3) -> Matcher.text c <> [] ->
    resultOf d q
    = join blankLine (map Matcher.text (Matcher.findBestMatches q (Store.getChunks d) 3))).
  { intros c Hin Hc. unfold resultOf. apply orElse_left.
    apply join_nonempty with (p := Matcher.text c); [ | exact Hc].
    now apply in_map. }
  split; [ | split; [ | split]].
  - rewrite (onmessage_one_call P d fc w Hn). apply searchKnowledgeBase_eq.
  - intros c Hin. split; [ | now apply Hnon].
    destruct (Matcher.text c) as [ | x t] eqn:Ht.
    + apply includes_nil.
    + rewrite (Hnon c Hin) by (rewrite Ht; discriminate).
      rewrite <- Ht. apply join_includes. now apply in_map.
  - intros E. unfold resultOf. rewrite E. reflexivity.
  - intros Hlen c Hin. rewrite MatcherFacts.findBestMatches_eq.
    rewrite firstn_all2 by (rewrite SortFacts.sort_length; exact Hlen).
    eapply Permutation_in; [symmetry; apply SortFacts.sort_perm | exact Hin].
Qed.

Lemma search_knowledge_base_response_witness :
  name (callFor (js "moon sighting")) = js "search_knowledge_base"
  /\ onmessage countingProvider
       (storeOf [otherChunk (js "a"); moonChunk (Some [1%float])])
       {| audioData := None; toolCall := Some [callFor (js "moon sighting")] |} 0
     = ([ToolResponse (js "call-1") (js "search_knowledge_base")
           (js "Samastha was established in 1926." ++ blankLine
            ++ js "The moon sighting committee announces the new month.")], 1).
Proof.
  split; [reflexivity | ].
  destruct (@search_knowledge_base_response nat countingProvider
              (storeOf [otherChunk (js "a"); moonChunk (Some [1%float])])
              (callFor (js "moon sighting")) 0 eq_refl) as [H _].
  rewrite H. vm_compute. reflexivity.
Defined.

(** C7, as stated, fails: which chunks are returned is decided by the
    embeddings alone.  Here three chunks score 1 and the chunk that mentions
    the moon sighting scores -1; its text is not in the result. *)
Lemma search_knowledge_base_misses_mention :
  includes (js "moon sighting") (Matcher.text (moonChunk (Some [(-1)%float]))) = true
  /\ In (moonChunk (Some [(-1)%float]))
        (Store.getChunks (storeOf [moonChunk (Some [(-1)%float]); otherChunk (js "a");
                                   otherChunk (js "b"); otherChunk (js "c")]))
  /\ fst (onmessage countingProvider
            (storeOf [moonChunk (Some [(-1)%float]); otherChunk (js "a");
                      otherChunk (js "b"); otherChunk (js "c")])
            {| audioData := None; toolCall := Some [callFor (js "moon sighting")] |} 0)
     = [ToolResponse (js "call-1") (js "search_knowledge_base")
          (js "Samastha was established in 1926." ++ blankLine
           ++ js "Samastha was established in 1926." ++ blankLine
           ++ js "Samastha was established in 1926.")]
  /\ includes (Matcher.text (moonChunk (Some [(-1)%float])))
       (js "Samastha was established in 1926." ++ blankLine
        ++ js "Samastha was established in 1926." ++ blankLine
        ++ js "Samastha was established in 1926.") = false.
Proof. repeat split; vm_compute; auto. Qed.

(** C3.  The two turns of the conversation fall back to no match when the
    embedding of the query is empty; the tool call does not: it runs the
    matcher with the empty vector, which returns up to three chunks of the
    store, and sends their texts.  With a blank query and one chunk in the
    store the result is the text of that chunk instead of the sentinel. *)
Theorem live_search_has_no_fallback :
  (forall (W : Type) (P : provider W) d q k w,
     fst (embedOne P q w) = [] -> fst (ChatSpec.retrieve P d q k w) = [])
  /\ (forall (W : Type) (P : provider W) d fc w,
        fst (embedOne P (query fc) w) = [] ->
        fst (searchKnowledgeBase P d fc w)
        = [ToolResponse (id fc) (name fc)
             (orElse (join (newline ++ newline)
                        (map Matcher.text (Matcher.findBestMatches [] (Store.getChunks d) 3)))
                     (js "No relevant documents found."))]
        /\ length (Matcher.findBestMatches [] (Store.getChunks d) 3)
           = Nat.min 3 (length (Store.getChunks d)))
  /\ fst (embedOne countingProvider (js "   ") 0) = []
  /\ onmessage countingProvider (storeOf [moonChunk (Some [1%float])])
       {| audioData := None; toolCall := Some [callFor (js "   ")] |} 0
     = ([ToolResponse (js "call-1") (js "search_knowledge_base")
           (js "The moon sighting committee announces the new month.")], 0).
Proof.
  split; [ | split; [ | split]].
  - intros W P d q k w. apply ChatFacts.retrieve_fallback.
  - intros W P d fc w E. rewrite searchKnowledgeBase_eq, E. split; [reflexivity | ].
    apply MatcherFacts.findBestMatches_length.
  - reflexivity.
  - vm_compute. reflexivity.
Qed.

End LiveFacts.
(* ================================================================== *)
(** ** Further properties of the matcher and of the generator *)

Module RetrievalFacts.

Import JSNumber JSArray JSString Matcher MatcherSpec World Generator GeneratorSpec.
Import SortFacts StringFacts MatcherFacts ChunkerSpec LiveFacts.

Local Open Scope float_scope.

Lemma cosineSimilarity_empty (q : list number) : isNaN (cosineSimilarity q []) = true.
Proof.
  destruct q as [ | a q].
  - reflexivity.
  - unfold cosineSimilarity. apply IEEE.div_nan_l.
    apply (@dotFrom_short (a :: q) [] 0%nat 0); cbn [length]; lia.
Qed.

Lemma after_nan_l (q : list number) (a b : DocumentChunk) :
  isNaN (scoreOf q a) = true -> after (chunkCompare q) a b = false.
Proof.
  intros H. unfold after, SortCompare, chunkCompare.
  assert (N : isNaN (scoreOf q b - scoreOf q a) = true).
  { apply IEEE.is_nan_true. rewrite FloatAxioms.sub_spec.
    rewrite (IEEE.is_nan_SF _ H). destruct (Prim2SF (scoreOf q b)); reflexivity. }
  rewrite N. reflexivity.
Qed.

Lemma after_nan_r (q : list number) (a b : DocumentChunk) :
  isNaN (scoreOf q b) = true -> after (chunkCompare q) a b = false.
Proof.
  intros H. unfold after, SortCompare, chunkCompare.
  assert (N : isNaN (scoreOf q b - scoreOf q a) = true).
  { apply IEEE.is_nan_true. rewrite FloatAxioms.sub_spec.
    rewrite (IEEE.is_nan_SF _ H). reflexivity. }
  rewrite N. reflexivity.
Qed.

(** A comparator that never asks for a move leaves the array as it is. *)
Lemma sort_unmoved (A : Type) (cmp : A -> A -> number) (l : list A) :
  (forall x y, In x l -> after cmp x y = false) -> sort cmp l = l.
Proof.
  induction l as [ | x l IH]; intros H; cbn [sort].
  - reflexivity.
  - rewrite IH by (intros; apply H; now right).
    destruct l as [ | y l']; cbn [insert].
    + reflexivity.
    + rewrite H by now left. reflexivity.
Qed.

(** X1.  When the embedding of every chunk is empty, as [handleFileUpload]
    stores it after a failed embedding call, every score is [NaN] for every
    query, and the matcher returns the first [topK] chunks of the store in
    their stored order. *)
Theorem findBestMatches_failed_embeddings (q : list number)
    (chunks : list DocumentChunk) (topK : nat) :
  (forall c, In c chunks -> embedding c = Some []) ->
  (forall c, In c chunks -> isNaN (scoreOf q c) = true)
  /\ findBestMatches q chunks topK = firstn topK chunks.
Proof.
  intros He.
  assert (Hn : forall c, In c chunks -> isNaN (scoreOf q c) = true).
  { intros c Hc. unfold scoreOf. rewrite (He c Hc). apply cosineSimilarity_empty. }
  split; [exact Hn | ].
  rewrite findBestMatches_eq. f_equal. apply sort_unmoved.
  intros x y Hx. apply after_nan_l, Hn, Hx.
Qed.

Lemma findBestMatches_failed_embeddings_witness :
  let corpus :=
    [chunkOf (js "A") (Some []); chunkOf (js "B") (Some []); chunkOf (js "C") (Some [])] in
  (forall c, In c corpus -> embedding c = Some [])
  /\ findBestMatches [1; 0] corpus 2
     = [chunkOf (js "A") (Some []); chunkOf (js "B") (Some [])].
Proof.
  intros corpus.
  assert (H : forall c, In c corpus -> embedding c = Some []).
  { intros c [<- | [<- | [<- | []]]]; reflexivity. }
  split; [exact H | ].
  exact (proj2 (@findBestMatches_failed_embeddings [1; 0] corpus 2 H)).
Defined.

Lemma sorted_app_ge (A : Type) (R : A -> A -> Prop) (l : list A) (n : nat) :
  StronglySorted R l ->
  forall a b, In a (firstn n l) -> In b (skipn n l) -> R a b.
Proof.
  intros Hs. revert n. induction Hs as [ | x l Hs IH Hx]; intros n a b Ha Hb.
  - destruct n; destruct Ha.
  - destruct n as [ | n].
    + destruct Ha.
    + cbn [firstn skipn] in Ha, Hb. destruct Ha as [<- | Ha].
      * rewrite Forall_forall in Hx. apply Hx.
        rewrite <- (firstn_skipn n l). apply in_or_app. now right.
      * eapply IH; eauto.
Qed.

(** X2.  On a corpus whose scores against the query are all defined, the matcher
    splits the corpus: together with the chunks it leaves out, the result is
    a rearrangement of the corpus, and no chunk left out scores higher than a
    chunk returned. *)
Theorem findBestMatches_best (q : list number) (chunks : list DocumentChunk)
    (topK : nat) :
  (forall c, In c chunks -> isNaN (scoreOf q c) = false) ->
  exists others,
    Permutation (findBestMatches q chunks topK ++ others) chunks
    /\ forall c d, In c (findBestMatches q chunks topK) -> In d others ->
         ge (scoreOf q c) (scoreOf q d) = true.
Proof.
  intros Hd. exists (skipn topK (sort (chunkCompare q) chunks)).
  rewrite findBestMatches_eq. split.
  - rewrite firstn_skipn. apply sort_perm.
  - intros c d Hc Hd'.
    exact (sorted_app_ge topK (@ranked_by_score q chunks Hd) c d Hc Hd').
Qed.

Lemma findBestMatches_best_witness :
  (forall c, In c sampleCorpus -> isNaN (scoreOf [1; 0] c) = false)
  /\ exists others,
       Permutation (findBestMatches [1; 0] sampleCorpus 2 ++ others) sampleCorpus
       /\ forall c d, In c (findBestMatches [1; 0] sampleCorpus 2) -> In d others ->
            ge (scoreOf [1; 0] c) (scoreOf [1; 0] d) = true.
Proof.
  assert (H : forall c, In c sampleCorpus -> isNaN (scoreOf [1; 0] c) = false).
  { intros c [<- | [<- | [<- | [<- | []]]]]; reflexivity. }
  split; [exact H | ].
  exact (@findBestMatches_best [1; 0] sampleCorpus 2 H).
Defined.

Lemma startsWith_prefix (needle : jsstring) : forall hay post : jsstring,
  startsWith needle hay = true -> startsWith needle (hay ++ post) = true.
Proof.
  induction needle as [ | n needle IH]; intros hay post H; [reflexivity | ].
  destruct hay as [ | h hay]; [discriminate | ].
  cbn [startsWith app] in *. apply andb_true_iff in H. destruct H as [-> H].
  cbn [andb]. now apply IH.
Qed.

Lemma includes_prefix (needle hay post : jsstring) :
  includes needle hay = true -> includes needle (hay ++ post) = true.
Proof.
  induction hay as [ | x hay IH]; intros H.
  - destruct needle; [apply includes_nil | discriminate].
  - cbn [includes app] in *. apply orb_true_iff in H. apply orb_true_iff.
    destruct H as [H | H]; [left | right; now apply IH].
    now apply (startsWith_prefix needle (x :: hay) post).
Qed.

Section Generation.

Variable W : Type.
Variable P : provider W.

Lemma webCitationsOf_nonempty (gs : option (list groundingChunk)) (c : jsstring) :
  In c (webCitationsOf gs) -> c <> [].
Proof.
  destruct gs as [gs | ]; cbn [webCitationsOf]; [ | intros []].
  intros H. apply in_flat_map in H. destruct H as [g [_ H]].
  destruct (web g) as [wb | ]; [ | destruct H].
  destruct (truthy (optString (uri wb))) eqn:U; [ | destruct H].
  destruct H as [<- | []].
  pose proof (orElse_truthy (optString (title wb)) _ U) as T.
  intros E. rewrite E in T. discriminate.
Qed.

End Generation.

(** X3.  [generateRAGResponse] always answers: its text is never empty, its
    citations are absent or a non-empty list of non-empty strings, and when
    the generation call throws the answer is the fixed failure message. *)
Theorem generateRAGResponse_answers (W : Type) (P : provider W) (d : Store.DB)
    (query : jsstring) (contextChunks : list DocumentChunk) (w : W) :
  let r := fst (generateRAGResponse P d query contextChunks w) in
  text r <> []
  /\ citations r <> Some []
  /\ (forall l c, citations r = Some l -> In c l -> c <> [])
  /\ ((forall prompt instruction,
         fst (generateContent P prompt instruction w) = GenerateThrows) ->
      r = failure).
Proof.
  cbv zeta. unfold generateRAGResponse, bind, ret.
  match goal with
  | |- context [generateContent P ?p ?i w] =>
      destruct (generateContent P p i w) as [res w'] eqn:G;
      assert (Gf : fst (generateContent P p i w) = res) by now rewrite G
  end.
  destruct res as [ | response]; cbn [fst text citations].
  - repeat split; discriminate.
  - split; [ | split; [ | split ] ].
    + intros E.
      assert (T : truthy (orElse (optString (responseText response))
                                 (js "No response generated.")) = true)
        by (apply orElse_truthy; reflexivity).
      rewrite E in T. discriminate.
    + destruct (webCitationsOf (groundingChunks response)); discriminate.
    + intros l c E Hc.
      destruct (webCitationsOf (groundingChunks response)) as [ | x xs] eqn:Wc;
        [discriminate | ].
      injection E as <-. apply (@webCitationsOf_nonempty (groundingChunks response)).
      now rewrite Wc.
    + intros Hall. rewrite Hall in Gf. discriminate.
Qed.

(** X4.  [generateRAGResponse] sends exactly one generation request, whether it
    succeeds or not.  Its prompt holds the line of every context chunk,
    title and text, and the query; its system instruction is the stored
    instruction, or the generic one when none or an empty one is stored,
    followed by the name of the application. *)
Theorem generateRAGResponse_request (W : Type) (P : provider W) (d : Store.DB)
    (query : jsstring) (contextChunks : list DocumentChunk) (w : W)
    (log : list (jsstring * jsstring)) :
  exists prompt instruction,
    snd (snd (generateRAGResponse (recorded P) d query contextChunks (w, log)))
    = log ++ [(prompt, instruction)]
    /\ includes query prompt = true
    /\ (forall c, In c contextChunks -> includes (sourceLine c) prompt = true)
    /\ instruction
       = orElse (optString (Store.systemInstruction (Store.getSettings d)))
                (js "You are an AI assistant.")
         ++ newline ++ newline ++ js "Your name is "
         ++ orElse (Store.appName (Store.getSettings d)) (js "Samastha AI") ++ js ".".
Proof.
  unfold generateRAGResponse, bind, ret.
  cbn [recorded generateContent].
  match goal with
  | |- context [generateContent P ?p ?i w] =>
      exists p, i; destruct (generateContent P p i w) as [res w'] eqn:G
  end.
  split; [destruct res; reflexivity | ].
  split; [ | split; [ | reflexivity] ].
  - do 8 apply includes_skip. apply (includes_app query []).
  - intros c Hc. do 3 apply includes_skip. apply includes_prefix.
    unfold contextTextOf. apply join_includes.
    apply (in_map (fun c => js "[Source: " ++ docTitle c ++ js "]: " ++ Matcher.text c)).
    exact Hc.
Qed.

End RetrievalFacts.

(* ================================================================== *)
(** ** Further properties of the chunker, and the text extraction *)

Module IngestionFacts.

Import JSString Chunker ChunkerSpec PdfService.
Import StringFacts ChunkerFacts.

Lemma dropWhile_split (p : N -> bool) (s : jsstring) :
  exists pre, s = pre ++ dropWhile p s /\ forallb p pre = true.
Proof.
  induction s as [ | c s IH]; cbn [dropWhile].
  - exists []. split; reflexivity.
  - destruct (p c) eqn:E.
    + destruct IH as [pre [E1 E2]]. exists (c :: pre). split.
      * cbn [app]. now rewrite <- E1.
      * cbn [forallb]. now rewrite E, E2.
    + exists []. split; reflexivity.
Qed.

Lemma dropWhile_fixed (p : N -> bool) (s : jsstring) :
  match s with [] => True | c :: _ => p c = false end -> dropWhile p s = s.
Proof. destruct s as [ | c s]; cbn [dropWhile]; [reflexivity | now intros ->]. Qed.

(** What [trim] returns is empty, or begins and ends with a character that
    is not white space. *)
Lemma trim_ends (s : jsstring) :
  match trim s with [] => True | c :: _ => isWhiteSpace c = false end
  /\ match rev (trim s) with [] => True | c :: _ => isWhiteSpace c = false end.
Proof.
  unfold trim, trimEnd, trimStart.
  set (l := dropWhile isWhiteSpace s).
  assert (Hl : match l with [] => True | c :: _ => isWhiteSpace c = false end).
  { destruct l as [ | c r] eqn:E; [exact I | ]. eapply dropWhile_head; exact E. }
  set (d := dropWhile isWhiteSpace (rev l)).
  assert (Hd : match d with [] => True | c :: _ => isWhiteSpace c = false end).
  { destruct d as [ | c r] eqn:E; [exact I | ]. eapply dropWhile_head; exact E. }
  split; [ | now rewrite rev_involutive].
  destruct (dropWhile_split isWhiteSpace (rev l)) as [pre [E _]]. fold d in E.
  assert (El : l = rev d ++ rev pre).
  { rewrite <- (rev_involutive l), E, rev_app_distr. reflexivity. }
  destruct (rev d) as [ | c r] eqn:R; [exact I | ].
  rewrite El in Hl. exact Hl.
Qed.

Lemma trim_fixed (s : jsstring) :
  match s with [] => True | c :: _ => isWhiteSpace c = false end ->
  match rev s with [] => True | c :: _ => isWhiteSpace c = false end ->
  trim s = s.
Proof.
  intros H1 H2. unfold trim, trimEnd, trimStart.
  rewrite (dropWhile_fixed isWhiteSpace s H1).
  rewrite (dropWhile_fixed isWhiteSpace (rev s) H2).
  apply rev_involutive.
Qed.

Lemma trim_idempotent (s : jsstring) : trim (trim s) = trim s.
Proof. destruct (trim_ends s). now apply trim_fixed. Qed.

Lemma trim_length (s : jsstring) : length (trim s) <= length s.
Proof.
  unfold trim, trimEnd, trimStart. rewrite length_rev.
  etransitivity; [apply dropWhile_length | ]. rewrite length_rev.
  apply dropWhile_length.
Qed.

(** The chunks before the filter: each is the [trim] of the buffer. *)
Lemma chunkText_trimmed_buffers (text : jsstring) (chunkSize : nat) (c : jsstring) :
  In c (chunkText text chunkSize) ->
  exists buffer, c = trim buffer
    /\ (length buffer <= chunkSize \/ In buffer (sentencesOf text)).
Proof.
  unfold chunkText.
  set (Q := fun c : jsstring => exists buffer, c = trim buffer
              /\ (length buffer <= chunkSize \/ In buffer (sentencesOf text))).
  assert (Inv : forall sentences chunks cur,
            incl sentences (sentencesOf text) ->
            Forall Q chunks ->
            (length cur <= chunkSize \/ In cur (sentencesOf text)) ->
            Forall Q (fst (fold_left (addSentence chunkSize) sentences (chunks, cur)))
            /\ (length (snd (fold_left (addSentence chunkSize) sentences (chunks, cur)))
                  <= chunkSize
                \/ In (snd (fold_left (addSentence chunkSize) sentences (chunks, cur)))
                      (sentencesOf text))).
  { induction sentences as [ | s sentences IH]; intros chunks cur Hs Hc Hcur.
    - cbn [fold_left fst snd]. auto.
    - cbn [fold_left]. unfold addSentence at 2 4 6.
      destruct (chunkSize <? length (cur ++ s)) eqn:E.
      + apply IH.
        * intros x Hx. apply Hs. now right.
        * apply Forall_app. split; [exact Hc | ].
          constructor; [ | constructor]. exists cur. split; [reflexivity | exact Hcur].
        * right. apply Hs. now left.
      + apply IH.
        * intros x Hx. apply Hs. now right.
        * exact Hc.
        * left. apply Nat.ltb_ge in E. exact E. }
  destruct (Inv (sentencesOf text) [] []) as [I1 I2].
  { apply incl_refl. }
  { constructor. }
  { left. cbn. lia. }
  destruct (fold_left (addSentence chunkSize) (sentencesOf text) ([], []))
    as [chunks cur].
  cbn [fst snd] in I1, I2.
  intros H. apply filter_In in H. destruct H as [H _].
  destruct (truthy (trim cur)).
  - apply in_app_or in H. destruct H as [H | [<- | []]].
    + rewrite Forall_forall in I1. exact (I1 c H).
    + exists cur. split; [reflexivity | exact I2].
  - rewrite Forall_forall in I1. exact (I1 c H).
Qed.

(** X5.  Every chunk is trimmed: it neither begins nor ends with white space.
    It is at most [chunkSize] characters long, unless it is a single
    sentence that is longer by itself: [chunkSize] does not bound a chunk. *)
Theorem chunkText_chunks (text : jsstring) (chunkSize : nat) (c : jsstring) :
  In c (chunkText text chunkSize) ->
  trim c = c
  /\ (length c <= chunkSize \/ exists sentence, In sentence (sentencesOf text) /\ c = trim sentence).
Proof.
  intros H. destruct (chunkText_trimmed_buffers _ _ _ H) as [buffer [-> Hb]].
  split; [apply trim_idempotent | ].
  destruct Hb as [Hb | Hb].
  - left. etransitivity; [apply trim_length | exact Hb].
  - right. exists buffer. split; [exact Hb | reflexivity].
Qed.

Lemma chunkText_chunks_witness :
  In (js "Hello world.") (chunkText (js "Hello world. Hi.") 5)
  /\ trim (js "Hello world.") = js "Hello world."
  /\ (length (js "Hello world.") <= 5
      \/ exists sentence,
           In sentence (sentencesOf (js "Hello world. Hi."))
           /\ js "Hello world." = trim sentence).
Proof.
  assert (H : In (js "Hello world.") (chunkText (js "Hello world. Hi.") 5))
    by (left; reflexivity).
  split; [exact H | ].
  exact (@chunkText_chunks (js "Hello world. Hi.") 5 (js "Hello world.") H).
Defined.

Lemma truthy_length (s : jsstring) : truthy s = (0 <? length s).
Proof. destruct s; reflexivity. Qed.

(** X6.  A text without sentence terminator and without a line feed after white
    space is not split, however long it is: it gives its [trim] as the only
    chunk, whatever [chunkSize], or no chunk when it is blank. *)
Theorem chunkText_unterminated (text : jsstring) (chunkSize : nat) :
  unterminated text = true ->
  chunkText text chunkSize = if truthy (trim text) then [trim text] else [].
Proof.
  intros H. unfold chunkText, sentencesOf, matchSentences.
  rewrite (matchesFrom_unterminated (length text) text H).
  cbn [fold_left]. unfold addSentence. cbn [app].
  assert (F : truthy (trim text) = true ->
              filter (fun c : jsstring => 0 <? length c) [trim text] = [trim text]).
  { intros T. cbn [filter]. now rewrite <- truthy_length, T. }
  destruct (chunkSize <? length text); destruct (truthy (trim text)) eqn:T;
    try reflexivity.
  - change (filter (fun c : jsstring => 0 <? length c) ([[]] ++ [trim text]))
      with (filter (fun c : jsstring => 0 <? length c) [trim text]).
    now apply F.
  - now apply F.
Qed.

Lemma chunkText_unterminated_witness :
  unterminated (js " no full stop anywhere in this line ") = true
  /\ chunkText (js " no full stop anywhere in this line ") 10
     = [js "no full stop anywhere in this line"].
Proof.
  assert (H : unterminated (js " no full stop anywhere in this line ") = true)
    by reflexivity.
  split; [exact H | ].
  exact (@chunkText_unterminated (js " no full stop anywhere in this line ") 10 H).
Defined.

Lemma takeWhile_incl (p : N -> bool) (s : jsstring) (c : N) :
  In c (takeWhile p s) -> In c s.
Proof.
  induction s as [ | x s IH]; cbn [takeWhile]; [auto | ].
  destruct (p x); [ | intros []]. intros [-> | H]; [now left | right; auto].
Qed.

Lemma dropWhile_incl (p : N -> bool) (s : jsstring) (c : N) :
  In c (dropWhile p s) -> In c s.
Proof.
  induction s as [ | x s IH]; cbn [dropWhile]; [auto | ].
  destruct (p x); [intros H; right; auto | auto].
Qed.

(** The matches are made of characters of the text. *)
Lemma matchesFrom_incl (n : nat) : forall (s m : jsstring) (c : N),
  In m (matchesFrom n s) -> In c m -> In c s.
Proof.
  induction n as [ | n IH]; intros s m c Hm Hc; [destruct s; destruct Hm | ].
  destruct s as [ | x rest]; [destruct Hm | ].
  cbn [matchesFrom] in Hm.
  set (s := x :: rest) in *.
  destruct (truthy (takeWhile notTerminator s)
            && truthy (takeWhile isTerminator (dropWhile notTerminator s))).
  - destruct Hm as [<- | Hm].
    + apply in_app_or in Hc. destruct Hc as [Hc | Hc].
      * eapply takeWhile_incl; eauto.
      * eapply dropWhile_incl, takeWhile_incl; eauto.
    + eapply dropWhile_incl, dropWhile_incl, IH; eauto.
  - destruct rest as [ | x' rest']; [destruct Hm | ].
    destruct (isWhiteSpace x && (x' =? 10)%N).
    + destruct Hm as [<- | Hm].
      * destruct Hc as [<- | [<- | []]]; [now left | right; now left].
      * right. right. eapply IH; eauto.
    + right. eapply IH; eauto.
Qed.

Lemma content_blank_chars (s : jsstring) :
  (forall c, In c s -> isWhiteSpace c = true) -> content s = [].
Proof.
  induction s as [ | x s IH]; intros H; [reflexivity | ].
  unfold content in *. cbn [filter]. rewrite (H x) by now left. cbn [negb].
  apply IH. intros c Hc. apply H. now right.
Qed.

Lemma content_concat_blank (l : list jsstring) :
  (forall m c, In m l -> In c m -> isWhiteSpace c = true) -> content (concat l) = [].
Proof.
  intros H. apply content_blank_chars. intros c Hc.
  apply in_concat in Hc. destruct Hc as [m [Hm Hc]]. eauto.
Qed.

(** X7.  A text of white space only, the empty text included, gives no chunk. *)
Theorem chunkText_blank (text : jsstring) (chunkSize : nat) :
  forallb isWhiteSpace text = true -> chunkText text chunkSize = [].
Proof.
  intros H. rewrite forallb_forall in H.
  assert (C : content (concat (chunkText text chunkSize)) = []).
  { rewrite chunkText_content. apply content_concat_blank.
    intros m c Hm Hc. apply H. unfold sentencesOf in Hm.
    destruct (matchSentences text) as [ | m0 found] eqn:E.
    - destruct Hm as [<- | []]. exact Hc.
    - eapply (matchesFrom_incl (length text)); [ | exact Hc].
      unfold matchSentences in E. rewrite E. exact Hm. }
  destruct (chunkText text chunkSize) as [ | c rest] eqn:E; [reflexivity | exfalso].
  assert (Hc : In c (chunkText text chunkSize)) by (rewrite E; now left).
  pose proof (@chunkText_nonempty _ _ _ Hc) as Hne.
  destruct (chunkText_trimmed_buffers _ _ _ Hc) as [buffer [Eb _]].
  pose proof (proj1 (trim_ends buffer)) as Hh. rewrite <- Eb in Hh.
  destruct c as [ | x c]; [now apply Hne | ].
  cbn [concat] in C. rewrite content_app in C. unfold content at 1 in C.
  cbn [filter] in C. rewrite Hh in C. discriminate.
Qed.

Lemma chunkText_blank_witness :
  forallb isWhiteSpace [32; 10; 9; 10; 32]%N = true
  /\ chunkText [32; 10; 9; 10; 32]%N 500 = [].
Proof.
  assert (H : forallb isWhiteSpace [32; 10; 9; 10; 32]%N = true) by reflexivity.
  split; [exact H | ].
  exact (@chunkText_blank [32; 10; 9; 10; 32]%N 500 H).
Defined.

Lemma content_join_space (items : list jsstring) :
  content (join (js " ") items) = content (concat items).
Proof.
  induction items as [ | a items IH]; [reflexivity | ].
  destruct items as [ | b items].
  - cbn [join concat]. now rewrite app_nil_r.
  - change (join (js " ") (a :: b :: items))
      with (a ++ js " " ++ join (js " ") (b :: items)).
    change (concat (a :: b :: items)) with (a ++ concat (b :: items)).
    rewrite !content_app, IH. reflexivity.
Qed.

Lemma extract_fold (ps : list (list jsstring)) : forall acc : jsstring,
  content (fold_left addPage ps acc) = content acc ++ content (concat (concat ps)).
Proof.
  induction ps as [ | p ps IH]; intros acc; cbn [fold_left concat].
  - now rewrite app_nil_r.
  - rewrite IH. unfold addPage. rewrite !content_app, content_join_space.
    change (content newline) with (@nil N). rewrite app_nil_r.
    rewrite concat_app, content_app, <- !app_assoc. reflexivity.
Qed.

(** X8.  [extractTextFromPdf] returns the number of pages and a text that holds,
    white space apart, the text items of all the pages in their order: the
    extraction only adds a space between the items and a line feed after
    every page. *)
Theorem extractTextFromPdf_content (file : File) (ps : list (list jsstring)) :
  pages file = Some ps ->
  exists text,
    extractTextFromPdf file = Some (text, length ps)
    /\ content text = content (concat (concat ps))
    /\ length (filter (fun c => (c =? 10)%N) text)
       = length ps + length (filter (fun c => (c =? 10)%N) (concat (concat ps))).
Proof.
  intros H. unfold extractTextFromPdf. rewrite H. eexists. split; [reflexivity | ].
  split; [apply (extract_fold ps []) | ].
  assert (G : forall acc,
    length (filter (fun c => (c =? 10)%N) (fold_left addPage ps acc))
    = length (filter (fun c => (c =? 10)%N) acc) + length ps
      + length (filter (fun c => (c =? 10)%N) (concat (concat ps)))).
  { clear H. induction ps as [ | p ps IH]; intros acc; cbn [fold_left concat length].
    - cbn [filter length]. lia.
    - rewrite IH. unfold addPage. rewrite !filter_app, !length_app.
      assert (J : length (filter (fun c => (c =? 10)%N) (join (js " ") p))
                  = length (filter (fun c => (c =? 10)%N) (concat p))).
      { clear. induction p as [ | a p IHp]; [reflexivity | ].
        destruct p as [ | b p].
        - cbn [join concat]. now rewrite app_nil_r.
        - change (join (js " ") (a :: b :: p))
            with (a ++ js " " ++ join (js " ") (b :: p)).
          change (concat (a :: b :: p)) with (a ++ concat (b :: p)).
          rewrite !filter_app, !length_app, IHp. reflexivity. }
      rewrite J, concat_app, filter_app, length_app.
      cbn [newline filter N.eqb Pos.eqb length]. lia. }
  rewrite G. cbn [filter length]. lia.
Qed.

Lemma extractTextFromPdf_content_witness :
  pages AdminSpec.samplePdf
  = Some [ [js "Samastha was"; js "founded in 1926."]; [js "It runs madrasas."] ]
  /\ exists text,
       extractTextFromPdf AdminSpec.samplePdf = Some (text, 2)
       /\ content text = js "Samasthawasfoundedin1926.Itrunsmadrasas."
       /\ length (filter (fun c => (c =? 10)%N) text) = 2.
Proof.
  split; [reflexivity | ].
  exact (@extractTextFromPdf_content AdminSpec.samplePdf
           [ [js "Samastha was"; js "founded in 1926."]; [js "It runs madrasas."] ]
           eq_refl).
Defined.

End IngestionFacts.

(* ================================================================== *)
(** ** Properties of the store *)

Module StoreFacts.

Import JSNumber JSString World MockDB StoreSpec.
Import StringFacts MatcherFacts.

Lemma strictEq_refl (a : jsstring) : strictEq a a = true.
Proof. now apply strictEq_eq. Qed.

Lemma strictEq_false (a b : jsstring) : strictEq a b = false <-> a <> b.
Proof.
  split.
  - intros H E. apply strictEq_eq in E. congruence.
  - intros H. destruct (strictEq a b) eqn:E; [ | reflexivity].
    apply strictEq_eq in E. contradiction.
Qed.

Lemma removelast_length (A : Type) (l : list A) :
  length (removelast l) = Nat.pred (length l).
Proof.
  rewrite removelast_firstn_len, length_firstn. lia.
Qed.

Section Lists.

Variable A : Type.
Variable p : A -> bool.

Lemma findIndex_none (xs : list A) :
  findIndex p xs = None <-> (forall x, In x xs -> p x = false).
Proof.
  induction xs as [ | x xs IH]; cbn [findIndex].
  - split; [intros _ x [] | reflexivity].
  - destruct (p x) eqn:E.
    + split; [discriminate | ]. intros H. rewrite (H x) in E by now left. discriminate.
    + destruct (findIndex p xs) as [i | ].
      * split; [discriminate | ]. intros H.
        assert (N : Some i = None) by (apply IH; intros y Hy; apply H; now right).
        discriminate.
      * split; [ | reflexivity]. intros _ y [<- | Hy]; [exact E | ].
        now apply IH.
Qed.

Lemma findIndex_some (xs : list A) (i : nat) :
  findIndex p xs = Some i -> exists x, In x xs /\ p x = true.
Proof.
  destruct (findIndex p xs) eqn:E; [ | discriminate]. intros _.
  destruct (existsb p xs) eqn:X.
  - apply existsb_exists in X. exact X.
  - assert (N : findIndex p xs = None).
    { apply findIndex_none. intros x Hx.
      destruct (p x) eqn:Px; [ | reflexivity].
      assert (existsb p xs = true) by (apply existsb_exists; eauto). congruence. }
    congruence.
Qed.

Lemma assign_length (i : nat) (v : A) (xs : list A) :
  length (assign i v xs) = length xs.
Proof.
  revert i. induction xs as [ | x xs IH]; intros [ | i]; cbn [assign length]; auto.
Qed.

Lemma find_assign (v : A) (xs : list A) : forall i,
  findIndex p xs = Some i -> p v = true -> find p (assign i v xs) = Some v.
Proof.
  induction xs as [ | x xs IH]; intros i; cbn [findIndex]; [discriminate | ].
  destruct (p x) eqn:E.
  - intros [= <-] Pv. cbn [assign find]. now rewrite Pv.
  - destruct (findIndex p xs) as [j | ]; [ | discriminate].
    intros [= <-] Pv. cbn [assign find]. rewrite E. now apply IH.
Qed.

Lemma filter_assign (v : A) (xs : list A) : forall i,
  findIndex p xs = Some i -> p v = true ->
  filter (fun x => negb (p x)) (assign i v xs) = filter (fun x => negb (p x)) xs.
Proof.
  induction xs as [ | x xs IH]; intros i; cbn [findIndex]; [discriminate | ].
  destruct (p x) eqn:E.
  - intros [= <-] Pv. cbn [assign filter]. now rewrite Pv, E.
  - destruct (findIndex p xs) as [j | ]; [ | discriminate].
    intros [= <-] Pv. cbn [assign filter]. rewrite E. cbn [negb]. f_equal. now apply IH.
Qed.

Lemma find_app_new (v : A) (xs : list A) :
  (forall x, In x xs -> p x = false) -> p v = true -> find p (xs ++ [v]) = Some v.
Proof.
  induction xs as [ | x xs IH]; intros H Pv; cbn [app find].
  - now rewrite Pv.
  - rewrite (H x) by now left. apply IH; [ | exact Pv]. intros y Hy. apply H. now right.
Qed.

Lemma filter_none (xs : list A) :
  (forall x, In x xs -> p x = false) -> filter p xs = [].
Proof.
  induction xs as [ | x xs IH]; intros H; cbn [filter]; [reflexivity | ].
  rewrite (H x) by now left. apply IH. intros y Hy. apply H. now right.
Qed.

Lemma filter_all (xs : list A) :
  (forall x, In x xs -> p x = true) -> filter p xs = xs.
Proof.
  induction xs as [ | x xs IH]; intros H; cbn [filter]; [reflexivity | ].
  rewrite (H x) by now left. f_equal. apply IH. intros y Hy. apply H. now right.
Qed.

End Lists.

Lemma map_assign (A B : Type) (f : A -> B) (p : A -> bool) (v : A) (xs : list A) :
  (forall x, p x = true -> f x = f v) ->
  forall i, findIndex p xs = Some i -> map f (assign i v xs) = map f xs.
Proof.
  intros Hf. induction xs as [ | x xs IH]; intros i; cbn [findIndex]; [discriminate | ].
  destruct (p x) eqn:E.
  - intros [= <-]. cbn [assign map]. now rewrite (Hf x E).
  - destruct (findIndex p xs) as [j | ]; [ | discriminate].
    intros [= <-]. cbn [assign map]. f_equal. now apply IH.
Qed.

Section Clock.

Variable W : Type.
Variable P : provider W.

(** [logAction] writes the log and nothing else. *)
Lemma logAction_frame (a u d : jsstring) (sev : Log.Severity) (s : Storage) (w : W) :
  let s' := fst (logAction P a u d sev s w) in
  samastha_docs s' = samastha_docs s /\ samastha_chunks s' = samastha_chunks s
  /\ samastha_settings s' = samastha_settings s /\ samastha_leads s' = samastha_leads s
  /\ samastha_reviews s' = samastha_reviews s.
Proof.
  cbv zeta. unfold logAction, getLogs, bind, ret.
  destruct (samastha_logs s); repeat destruct (dateNow P _); cbn [fst];
    repeat split; reflexivity.
Qed.

Lemma logAction_logs (a u d : jsstring) (sev : Log.Severity) (s : Storage) (w : W) :
  exists entry logs,
    samastha_logs (fst (logAction P a u d sev s w)) = Some (entry :: logs)
    /\ Log.action entry = a /\ Log.user entry = u /\ Log.details entry = d
    /\ Log.severity entry = sev
    /\ logs = (if 100 <? length (fst (getLogs P s w))
               then removelast (fst (getLogs P s w)) else fst (getLogs P s w)).
Proof.
  unfold logAction, bind, ret.
  destruct (getLogs P s w) as [logs w1]. destruct (dateNow P w1) as [n1 w2].
  destruct (dateNow P w2) as [n2 w3]. cbn [fst setLogs samastha_logs].
  eexists. eexists. split; [reflexivity | ]. repeat split; reflexivity.
Qed.

Lemma logAction_bound (a u d : jsstring) (sev : Log.Severity) (s : Storage) (w : W)
    (logs : list Log.t) :
  samastha_logs s = Some logs ->
  exists logs', samastha_logs (fst (logAction P a u d sev s w)) = Some logs'
    /\ length logs' = if 100 <? length logs then length logs else S (length logs).
Proof.
  intros H. destruct (logAction_logs a u d sev s w) as [e [l [E [_ [_ [_ [_ El]]]]]]].
  unfold getLogs in El. rewrite H in El. cbn [ret fst] in El.
  exists (e :: l). split; [exact E | ]. cbn [length]. rewrite El.
  destruct (100 <? length logs) eqn:C; [ | reflexivity].
  rewrite removelast_length. apply Nat.ltb_lt in C. lia.
Qed.

End Clock.

Section Operations.

Variable W : Type.
Variable P : provider W.

Lemma addDocument_frame (doc : Doc.t) (s : Storage) (w : W) :
  let s' := fst (addDocument P doc s w) in
  samastha_docs s' = Some (getDocuments s ++ [doc])
  /\ samastha_chunks s' = samastha_chunks s
  /\ samastha_settings s' = samastha_settings s /\ samastha_leads s' = samastha_leads s
  /\ samastha_reviews s' = samastha_reviews s.
Proof.
  cbv zeta. unfold addDocument.
  destruct (logAction_frame P (js "Upload") (js "Admin")
              (js "Uploaded document: " ++ Doc.title doc) Log.Info
              (setDocs (getDocuments s ++ [doc]) s) w) as [E1 [E2 [E3 [E4 E5]]]].
  rewrite E1, E2, E3, E4, E5. repeat split; reflexivity.
Qed.

Lemma deleteDocument_frame (id : jsstring) (s : Storage) (w : W) :
  let s' := fst (deleteDocument P id s w) in
  samastha_docs s' = Some (filter (fun d => negb (strictEq (Doc.id d) id)) (getDocuments s))
  /\ samastha_chunks s'
     = Some (filter (fun c => negb (strictEq (Matcher.docId c) id)) (getChunks s))
  /\ samastha_settings s' = samastha_settings s /\ samastha_leads s' = samastha_leads s
  /\ samastha_reviews s' = samastha_reviews s.
Proof.
  cbv zeta. unfold deleteDocument.
  destruct (find (fun d => strictEq (Doc.id d) id) (getDocuments s)) as [d | ].
  - match goal with
    | |- context [logAction P ?a ?u ?dd ?sv ?st w] =>
        destruct (logAction_frame P a u dd sv st w) as [E1 [E2 [E3 [E4 E5]]]]
    end.
    rewrite E1, E2, E3, E4, E5. repeat split; reflexivity.
  - cbn [ret fst]. repeat split; reflexivity.
Qed.

Lemma logAction_keeps (a u d : jsstring) (sev : Log.Severity) (s : Storage) (w : W) :
  samastha_logs s = None \/ logged_between 1 s ->
  logged_between 2 (fst (logAction P a u d sev s w)).
Proof.
  intros [H | [logs [H B]]].
  - destruct (logAction_logs P a u d sev s w) as [e [l [E [_ [_ [_ [_ El]]]]]]].
    unfold getLogs in El. rewrite H in El. unfold bind, ret in El.
    destruct (dateNow P w) as [n w1]. cbn [fst length Nat.ltb Nat.leb] in El.
    exists (e :: l). split; [exact E | ]. rewrite El. cbn [length]. lia.
  - destruct (logAction_bound P a u d sev s w H) as [logs' [E L]].
    exists logs'. split; [exact E | ]. rewrite L.
    destruct (100 <? length logs) eqn:C.
    + apply Nat.ltb_lt in C. lia.
    + apply Nat.ltb_ge in C. lia.
Qed.

Lemma logged_weaken (s s' : Storage) (lo : nat) :
  samastha_logs s' = samastha_logs s -> logged_between lo s -> logged_between lo s'.
Proof. intros E [logs [H B]]. exists logs. rewrite E. auto. Qed.

Lemma logged_relax (s : Storage) : logged_between 2 s -> logged_between 1 s.
Proof. intros [logs [H B]]. exists logs. split; [exact H | lia]. Qed.

Lemma seed_step (s : Storage) (w : W) :
  samastha_logs s = None \/ logged_between 2 s ->
  getDocuments s = [] \/ logged_between 2 s ->
  logged_between 2 (fst (seed P s w)).
Proof.
  intros H H'. unfold seed.
  destruct (getDocuments s) as [ | d ds] eqn:D.
  - unfold bind, ret. destruct (dateNow P w) as [now w1].
    match goal with
    | |- context [addDocument P ?doc s w1] =>
        assert (L : logged_between 2 (fst (addDocument P doc s w1)));
        [ | destruct (addDocument P doc s w1) as [s1 w2] ]
    end.
    { unfold addDocument. apply logAction_keeps.
      destruct H as [H | H]; [left; exact H | right].
      apply logged_relax. eapply logged_weaken; [ | exact H]. reflexivity. }
    cbn [fst] in *. eapply logged_weaken; [ | exact L]. reflexivity.
  - cbn [ret fst]. destruct H' as [H' | H']; [discriminate | exact H'].
Qed.

Lemma perform_keeps (o : operation) (s : Storage) (w : W) :
  logged_between 2 s -> logged_between 2 (fst (perform P o s w)).
Proof.
  intros H. destruct o; cbn [perform ret fst].
  - unfold addDocument. apply logAction_keeps. right. apply logged_relax.
    eapply logged_weaken; [ | exact H]. reflexivity.
  - eapply logged_weaken; [ | exact H]. reflexivity.
  - unfold deleteDocument.
    destruct (find (fun d => strictEq (Doc.id d) id) (getDocuments s)).
    + apply logAction_keeps. right. apply logged_relax.
      eapply logged_weaken; [ | exact H]. reflexivity.
    + cbn [ret fst]. eapply logged_weaken; [ | exact H]. reflexivity.
  - eapply logged_weaken; [ | exact H]. reflexivity.
  - unfold updateChunk.
    destruct (findIndex _ _); (eapply logged_weaken; [ | exact H]); reflexivity.
  - unfold saveSettings. apply logAction_keeps. right. apply logged_relax.
    eapply logged_weaken; [ | exact H]. reflexivity.
  - eapply logged_weaken; [ | exact H]. reflexivity.
  - unfold updateReview, bind. destruct (getReviews P s w) as [reviews w1].
    apply logAction_keeps. right. apply logged_relax.
    eapply logged_weaken; [ | exact H]. reflexivity.
  - apply logAction_keeps. right. now apply logged_relax.
  - apply seed_step; right; exact H.
Qed.

Lemma produced_logged (s : Storage) : produced P s -> logged_between 2 s.
Proof.
  induction 1 as [w | o s w Hs IH].
  - apply seed_step; left; reflexivity.
  - now apply perform_keeps.
Qed.

(** From the loaded store, [k] further entries. *)
Lemma produced_filled (w : W) (k : nat) :
  exists s, produced P s
    /\ exists logs, samastha_logs s = Some logs /\ length logs = Nat.min (2 + k) 101.
Proof.
  induction k as [ | k [s [Hs [logs [E L]]]]].
  - exists (fst (seed P emptyStorage w)). split; [constructor | ].
    unfold seed, emptyStorage, getDocuments, parsedOrEmpty, samastha_docs, bind, ret.
    destruct (dateNow P w) as [now w1].
    match goal with
    | |- context [addDocument P ?doc ?s0 w1] =>
        destruct (logAction_logs P (js "Upload") (js "Admin")
                    (js "Uploaded document: " ++ Doc.title doc) Log.Info
                    (setDocs (getDocuments s0 ++ [doc]) s0) w1)
          as [e [l [E [_ [_ [_ [_ El]]]]]]];
        change (fst (logAction P (js "Upload") (js "Admin")
                       (js "Uploaded document: " ++ Doc.title doc) Log.Info
                       (setDocs (getDocuments s0 ++ [doc]) s0) w1))
          with (fst (addDocument P doc s0 w1)) in E;
        destruct (addDocument P doc s0 w1) as [s1 w2]
    end.
    cbn [fst] in *. exists (e :: l). split; [exact E | ].
    unfold getLogs, setDocs, samastha_logs, bind, ret in El.
    destruct (dateNow P w1) as [n w3]. cbn [fst length Nat.ltb Nat.leb] in El.
    rewrite El. reflexivity.
  - exists (fst (perform P (LogAction [] [] [] Log.Info) s w)).
    split; [now constructor | ]. cbn [perform].
    destruct (logAction_bound P [] [] [] Log.Info s w E) as [logs' [E' L']].
    exists logs'. split; [exact E' | ]. rewrite L', L.
    destruct (100 <? Nat.min (2 + k) 101) eqn:C.
    + apply Nat.ltb_lt in C. lia.
    + apply Nat.ltb_ge in C. lia.
Qed.

End Operations.

(** The store of the chat assistant is a view of the whole store. *)
Lemma view_store (s : Storage) (lead : Store.Lead) :
  Store.getChunks (view s) = getChunks s
  /\ Store.getSettings (view s) = appSettingsOf (getSettings s)
  /\ Store.addLead lead (view s) = view (addLead lead s).
Proof. repeat split. Qed.

(** X9.  In every store the program produces from an empty [localStorage], the
    audit log is there and holds at least 2 and at most 101 entries; the
    bound of 101 is reached. *)
Theorem audit_log_bounded (W : Type) (P : provider W) :
  (forall s, produced P s -> logged_between 2 s)
  /\ (forall w : W, exists s,
        produced P s /\ exists logs, samastha_logs s = Some logs /\ length logs = 101).
Proof.
  split.
  - apply produced_logged.
  - intros w. destruct (produced_filled P w 99) as [s [Hs [logs [E L]]]].
    exists s. split; [exact Hs | ]. exists logs. split; [exact E | ].
    rewrite L. reflexivity.
Qed.

Lemma filter_filter_implies (A : Type) (p q : A -> bool) (l : list A) :
  (forall x, p x = true -> q x = true) -> filter p (filter q l) = filter p l.
Proof.
  intros H. induction l as [ | x l IH]; cbn [filter]; [reflexivity | ].
  destruct (q x) eqn:Q; cbn [filter].
  - now rewrite IH.
  - destruct (p x) eqn:Px; [ | exact IH]. rewrite (H x Px) in Q. discriminate.
Qed.

(** X10.  [deleteDocument] removes the document and all its chunks: no document
    and no chunk of that id is left, so that the matcher never returns a
    passage of a deleted document; the documents and chunks of every other
    id, the leads and the settings are as before. *)
Theorem deleteDocument_cascade (W : Type) (P : provider W) (id : jsstring)
    (s : Storage) (w : W) :
  let s' := fst (deleteDocument P id s w) in
  (forall d, In d (getDocuments s') -> Doc.id d <> id)
  /\ (forall q topK c,
        In c (Matcher.findBestMatches q (getChunks s') topK) -> Matcher.docId c <> id)
  /\ (forall other, other <> id ->
        filter (fun c => strictEq (Matcher.docId c) other) (getChunks s')
        = filter (fun c => strictEq (Matcher.docId c) other) (getChunks s)
        /\ filter (fun d => strictEq (Doc.id d) other) (getDocuments s')
           = filter (fun d => strictEq (Doc.id d) other) (getDocuments s))
  /\ getLeads s' = getLeads s /\ getSettings s' = getSettings s.
Proof.
  cbv zeta. destruct (deleteDocument_frame P id s w) as [E1 [E2 [E3 [E4 E5]]]].
  assert (D : getDocuments (fst (deleteDocument P id s w))
              = filter (fun d => negb (strictEq (Doc.id d) id)) (getDocuments s))
    by (unfold getDocuments at 1; now rewrite E1).
  assert (C : getChunks (fst (deleteDocument P id s w))
              = filter (fun c => negb (strictEq (Matcher.docId c) id)) (getChunks s))
    by (unfold getChunks at 1; now rewrite E2).
  assert (L : getLeads (fst (deleteDocument P id s w)) = getLeads s)
    by (unfold getLeads; now rewrite E4).
  assert (S : getSettings (fst (deleteDocument P id s w)) = getSettings s)
    by (unfold getSettings; now rewrite E3).
  rewrite D, C, L, S.
  split; [ | split; [ | split; [ | split; reflexivity ] ] ].
  - intros d Hd. apply filter_In in Hd. destruct Hd as [_ Hd].
    apply negb_true_iff, strictEq_false in Hd. exact Hd.
  - intros q topK c Hc. apply findBestMatches_incl in Hc.
    apply filter_In in Hc. destruct Hc as [_ Hc].
    apply negb_true_iff, strictEq_false in Hc. exact Hc.
  - intros other Ho. split; apply filter_filter_implies; intros x Hx;
      apply strictEq_eq in Hx; apply negb_true_iff, strictEq_false; congruence.
Qed.

(** X11.  [updateChunk] replaces the first chunk that has the id of the new one,
    and writes nothing when there is none: the ids stay as they are, in
    their order, a lookup by the id finds the new chunk, and the chunks of
    every other id are untouched. *)
Theorem updateChunk_replaces (updatedChunk : Matcher.DocumentChunk) (s : Storage) :
  let s' := updateChunk updatedChunk s in
  let same := fun c => strictEq (Matcher.id c) (Matcher.id updatedChunk) in
  map Matcher.id (getChunks s') = map Matcher.id (getChunks s)
  /\ filter (fun c => negb (same c)) (getChunks s')
     = filter (fun c => negb (same c)) (getChunks s)
  /\ ((exists c, In c (getChunks s) /\ Matcher.id c = Matcher.id updatedChunk) ->
      find same (getChunks s') = Some updatedChunk)
  /\ ((forall c, In c (getChunks s) -> Matcher.id c <> Matcher.id updatedChunk) ->
      s' = s).
Proof.
  cbv zeta. unfold updateChunk.
  set (same := fun c => strictEq (Matcher.id c) (Matcher.id updatedChunk)).
  assert (Pv : same updatedChunk = true) by apply strictEq_refl.
  destruct (findIndex same (getChunks s)) as [i | ] eqn:F.
  - change (getChunks (setChunks (assign i updatedChunk (getChunks s)) s))
      with (assign i updatedChunk (getChunks s)).
    split; [ | split; [ | split ] ].
    + apply (map_assign Matcher.id same); [ | exact F].
      intros x Hx. now apply strictEq_eq in Hx.
    + now apply filter_assign.
    + intros _. now apply find_assign.
    + intros H. exfalso. destruct (findIndex_some _ _ F) as [x [Hx Px]].
      apply strictEq_eq in Px. exact (H x Hx Px).
  - split; [reflexivity | split; [reflexivity | split; [ | reflexivity ] ] ].
    intros [c [Hc Ec]]. exfalso.
    rewrite findIndex_none in F. specialize (F c Hc). unfold same in F.
    rewrite Ec, strictEq_refl in F. discriminate.
Qed.

(** X12.  [updateReview] is an upsert: afterwards the reviews are stored, a lookup
    by the id of the review finds it, the reviews of other ids are as
    [getReviews] showed them before, and the list is one longer exactly when
    the id was new. *)
Theorem updateReview_upsert (W : Type) (P : provider W) (review : Review.t)
    (s : Storage) (w : W) :
  let before := fst (getReviews P s w) in
  let s' := fst (updateReview P review s w) in
  let same := fun r => strictEq (Review.id r) (Review.id review) in
  exists after,
    samastha_reviews s' = Some after
    /\ find same after = Some review
    /\ filter (fun r => negb (same r)) after = filter (fun r => negb (same r)) before
    /\ length after = (if existsb same before then length before else S (length before)).
Proof.
  cbv zeta. unfold updateReview, bind.
  destruct (getReviews P s w) as [before w1]. cbn [fst].
  set (same := fun r => strictEq (Review.id r) (Review.id review)).
  assert (Pv : same review = true) by apply strictEq_refl.
  match goal with
  | |- context [logAction P ?a ?u ?d ?sv ?st w1] =>
      destruct (logAction_frame P a u d sv st w1) as [_ [_ [_ [_ E5]]]]
  end.
  rewrite E5. cbn [setReviews samastha_reviews].
  eexists. split; [reflexivity | ].
  destruct (findIndex same before) as [i | ] eqn:F.
  - destruct (findIndex_some _ _ F) as [x [Hx Px]].
    assert (X : existsb same before = true) by (apply existsb_exists; eauto).
    rewrite X. split; [now apply find_assign | ].
    split; [now apply filter_assign | apply assign_length].
  - rewrite findIndex_none in F.
    assert (X : existsb same before = false).
    { destruct (existsb same before) eqn:X; [ | reflexivity].
      apply existsb_exists in X. destruct X as [x [Hx Px]].
      rewrite (F x Hx) in Px. discriminate. }
    rewrite X. split; [now apply find_app_new | ].
    split.
    + rewrite filter_app.
      assert (N : filter (fun r => negb (same r)) [review] = [])
        by (cbn [filter]; unfold same; now rewrite strictEq_refl).
      unfold same in N. rewrite N. apply app_nil_r.
    + rewrite length_app. cbn [length]. lia.
Qed.

Lemma over_over (A : Type) (a b : option A) : over a (over a b) = over a b.
Proof. destruct a, b; reflexivity. Qed.

Lemma spread_idempotent (a b : Settings.t) : spread a (spread a b) = spread a b.
Proof. unfold spread. cbn. now rewrite !over_over. Qed.

Lemma over_some (A : Type) (a b : option A) : a <> None -> over a b <> None.
Proof. destruct b; [discriminate | auto]. Qed.

(** X13.  [getSettings] always returns the fields the defaults define, whatever is
    stored.  After [saveSettings] it returns the saved object, each absent
    field filled in from the defaults, and saving what [getSettings]
    returned does not change what it returns. *)
Theorem getSettings_complete (W : Type) (P : provider W) :
  (forall s, complete (getSettings s))
  /\ (forall settings s w,
        getSettings (fst (saveSettings P settings s w)) = spread defaults settings)
  /\ (forall s w, getSettings (fst (saveSettings P (getSettings s) s w)) = getSettings s).
Proof.
  assert (S : forall settings s w,
            getSettings (fst (saveSettings P settings s w)) = spread defaults settings).
  { intros settings s w. unfold saveSettings, getSettings.
    destruct (logAction_frame P (js "Config") (js "Super Admin")
                (js "Updated system settings") Log.Info (setSettings settings s) w)
      as [_ [_ [E3 _]]].
    rewrite E3. reflexivity. }
  split; [ | split; [exact S | ] ].
  - intros s. unfold getSettings.
    destruct (samastha_settings s) as [data | ]; unfold complete, spread; cbn;
      repeat split; try discriminate; apply over_some; discriminate.
  - intros s w. rewrite S. unfold getSettings.
    destruct (samastha_settings s) as [data | ].
    + apply spread_idempotent.
    + reflexivity.
Qed.

(** X14.  Loading the module again does not seed twice: after [seed] there is a
    document, and [seed] leaves a store that has a document as it is, without
    reading the clock. *)
Theorem seed_once (W : Type) (P : provider W) (s : Storage) (w w' : W) :
  let s' := fst (seed P s w) in
  getDocuments s' <> []
  /\ seed P s' w' = (s', w')
  /\ (getDocuments s <> [] -> seed P s w = (s, w)).
Proof.
  cbv zeta.
  assert (K : forall t v, getDocuments t <> [] -> seed P t v = (t, v)).
  { intros t v H. unfold seed. destruct (getDocuments t); [contradiction | reflexivity]. }
  assert (D : getDocuments (fst (seed P s w)) <> []).
  { unfold seed. destruct (getDocuments s) as [ | d ds] eqn:E.
    - unfold bind, ret. destruct (dateNow P w) as [now w1].
      match goal with
      | |- context [addDocument P ?doc s w1] =>
          destruct (addDocument_frame P doc s w1) as [E1 _];
          destruct (addDocument P doc s w1) as [s1 w2]
      end.
      cbn [fst] in *. unfold getDocuments, addChunks, setChunks, samastha_docs.
      unfold samastha_docs in E1. rewrite E1. cbn [parsedOrEmpty].
      intros C. apply app_eq_nil in C. destruct C as [_ C]. discriminate.
    - cbn [ret fst]. rewrite E. discriminate. }
  split; [exact D | split; [now apply K | apply K] ].
Qed.

End StoreFacts.

(* ================================================================== *)
(** ** Properties of the administration *)

Module AdminFacts.

Import JSNumber JSArray JSString World Embedding Chunker PdfService MockDB Admin.
Import MatcherSpec StoreSpec AdminSpec GeneratorSpec.
Import SortFacts StringFacts MatcherFacts ChunkerFacts EmbeddingFacts StoreFacts.
Import IngestionFacts.

Lemma js_inj (a b : String.string) : js a = js b -> a = b.
Proof.
  unfold js. intros H.
  assert (I : forall x y : list Ascii.ascii,
            map Ascii.N_of_ascii x = map Ascii.N_of_ascii y -> x = y).
  { induction x as [ | c x IH]; intros [ | d y] E; try discriminate; [reflexivity | ].
    cbn [map] in E. injection E as E1 E2. f_equal; [ | now apply IH].
    rewrite <- (Ascii.ascii_N_embedding c), <- (Ascii.ascii_N_embedding d).
    now rewrite E1. }
  apply I in H.
  rewrite <- (String.string_of_list_ascii_of_string a),
          <- (String.string_of_list_ascii_of_string b).
  now rewrite H.
Qed.

Lemma to_uint_nonnil (n : N) : N.to_uint n <> Decimal.Nil.
Proof.
  destruct n as [ | p]; [discriminate | ].
  apply DecimalPos.Unsigned.to_uint_nonnil.
Qed.

(** The decimal numeral of a number determines it. *)
Lemma toString_inj (n m : N) : toString n = toString m -> n = m.
Proof.
  unfold toString. intros H. apply js_inj in H.
  apply DecimalN.Unsigned.to_uint_inj.
  pose proof (DecimalString.NilZero.usu (N.to_uint n) (to_uint_nonnil n)) as U.
  pose proof (DecimalString.NilZero.usu (N.to_uint m) (to_uint_nonnil m)) as V.
  rewrite H in U. congruence.
Qed.

Section MapFrom.

Variables A B : Type.
Variable f : A -> nat -> B.

Lemma mapFrom_length (xs : list A) : forall i, length (mapFrom i f xs) = length xs.
Proof. induction xs as [ | x xs IH]; intros i; cbn [mapFrom length]; auto. Qed.

Lemma mapFrom_map (C : Type) (g : B -> C) (h : A -> C) (xs : list A) :
  (forall x i, g (f x i) = h x) -> forall i, map g (mapFrom i f xs) = map h xs.
Proof.
  intros H. induction xs as [ | x xs IH]; intros i; cbn [mapFrom map]; [reflexivity | ].
  now rewrite H, IH.
Qed.

Lemma mapFrom_seq (C : Type) (g : B -> C) (h : nat -> C) (xs : list A) :
  (forall x i, g (f x i) = h i) ->
  forall i, map g (mapFrom i f xs) = map h (seq i (length xs)).
Proof.
  intros H. induction xs as [ | x xs IH]; intros i; cbn [mapFrom map seq length];
    [reflexivity | ].
  now rewrite H, IH.
Qed.

Lemma mapFrom_Forall (Q : B -> Prop) (xs : list A) :
  (forall x i, Q (f x i)) -> forall i, Forall Q (mapFrom i f xs).
Proof.
  intros H. induction xs as [ | x xs IH]; intros i; cbn [mapFrom]; constructor; auto.
Qed.

End MapFrom.

Lemma embeddingAt_seq (embeddings : list (list number)) : forall pre,
  map (embeddingAt (pre ++ embeddings)) (seq (length pre) (length embeddings))
  = embeddings.
Proof.
  induction embeddings as [ | e es IH]; intros pre; cbn [seq length map];
    [reflexivity | ].
  f_equal.
  - unfold embeddingAt. rewrite nth_error_app2 by lia. now rewrite Nat.sub_diag.
  - specialize (IH (pre ++ [e])). rewrite <- app_assoc, length_app in IH.
    cbn [length app] in IH. rewrite Nat.add_1_r in IH. exact IH.
Qed.

Lemma chunkId_inj (docId : jsstring) (i j : nat) :
  docId ++ js "-chunk-" ++ toString (N.of_nat i)
  = docId ++ js "-chunk-" ++ toString (N.of_nat j) -> i = j.
Proof.
  intros H. apply app_inv_head in H. apply app_inv_head in H.
  apply toString_inj in H. now apply Nat2N.inj.
Qed.

Lemma chunksWithEmbeddings_spec (docId fileName : jsstring) (textChunks : list jsstring)
    (embeddings : list (list number)) :
  length embeddings = length textChunks ->
  let cs := chunksWithEmbeddings docId fileName textChunks embeddings in
  map Matcher.text cs = textChunks
  /\ map Matcher.embedding cs = map Some embeddings
  /\ Forall (fun c => Matcher.docId c = docId /\ Matcher.docTitle c = fileName) cs
  /\ NoDup (map Matcher.id cs).
Proof.
  intros L. cbv zeta. unfold chunksWithEmbeddings.
  split; [ | split; [ | split ] ].
  - rewrite mapFrom_map with (h := fun t => t); [apply map_id | reflexivity].
  - rewrite mapFrom_seq with (h := fun i => Some (embeddingAt embeddings i));
      [ | reflexivity].
    rewrite <- L, <- (map_map (embeddingAt embeddings) Some). f_equal.
    apply (embeddingAt_seq embeddings []).
  - apply mapFrom_Forall. intros x i. split; reflexivity.
  - rewrite mapFrom_seq
      with (h := fun i => docId ++ js "-chunk-" ++ toString (N.of_nat i));
      [ | reflexivity].
    apply NoDup_map_NoDup_ForallPairs; [ | apply seq_NoDup].
    intros i j _ _ E. exact (chunkId_inj _ _ _ E).
Qed.

Lemma filter_docId (docId : jsstring) (cs : list Matcher.DocumentChunk) :
  Forall (fun c => Matcher.docId c = docId) cs ->
  filter (fun c => strictEq (Matcher.docId c) docId) cs = cs.
Proof.
  intros H. apply filter_all. rewrite Forall_forall in H.
  intros c Hc. apply strictEq_eq. auto.
Qed.

(** The run of [handleFileUpload] on a PDF that pdf.js reads. *)
Lemma handleFileUpload_run (W : Type) (P : provider W) (file : File)
    (rest : list File) (ps : list (list jsstring)) (s : Storage) (w : W) :
  type file = js "application/pdf" ->
  pages file = Some ps ->
  exists doc w',
    fst (handleFileUpload P (file :: rest) s w)
    = (Status (js "Done"),
       addChunks
         (chunksWithEmbeddings (docIdOf P ps w) (name file) (chunkText (textOf ps) 500)
            (fst (getEmbeddings P (chunkText (textOf ps) 500) w)))
         (fst (addDocument P doc s w')))
    /\ Doc.id doc = docIdOf P ps w /\ Doc.title doc = name file
    /\ Doc.chunkCount doc = length (chunkText (textOf ps) 500).
Proof.
  intros Ht Hp. unfold handleFileUpload, extractTextFromPdf, docIdOf.
  rewrite Ht, strictEq_refl, Hp. cbn [negb]. fold (textOf ps).
  unfold bind, ret.
  destruct (getEmbeddings P (chunkText (textOf ps) 500) w) as [embeddings w1].
  cbn [fst snd].
  destruct (dateNow P w1) as [now1 w2]. destruct (dateNow P w2) as [now2 w3].
  cbn [fst].
  match goal with
  | |- context [addDocument P ?d s w3] => exists d, w3
  end.
  destruct (addDocument P _ s w3) as [s1 w4]. cbn [fst].
  repeat split; reflexivity.
Qed.

Lemma addChunks_after_addDocument (W : Type) (P : provider W) (doc : Doc.t)
    (chunks : list Matcher.DocumentChunk) (s : Storage) (w : W) :
  let s' := addChunks chunks (fst (addDocument P doc s w)) in
  getDocuments s' = getDocuments s ++ [doc]
  /\ getChunks s' = getChunks s ++ chunks
  /\ getLeads s' = getLeads s /\ getSettings s' = getSettings s.
Proof.
  cbv zeta. destruct (addDocument_frame P doc s w) as [E1 [E2 [E3 [E4 E5]]]].
  unfold getDocuments, getChunks, getLeads, getSettings, addChunks.
  cbn [setChunks samastha_docs samastha_chunks samastha_leads samastha_settings
       parsedOrEmpty].
  unfold getChunks. rewrite E1, E2, E3, E4. repeat split; reflexivity.
Qed.

(** X15.  [handleFileUpload] on a PDF that pdf.js reads: the document is added at
    the end of the documents, with the file's name, the id [doc-] and the
    clock, and the number of its chunks; its chunks are added at the end of
    the chunks, one for every piece [chunkText] makes of the extracted text
    with 500 as size, in their order, each with the document's id and
    name, an id of its own and the vector [getEmbeddings] returned for it;
    none is stored without embedding.  Leads and settings are untouched. *)
Theorem handleFileUpload_stores (W : Type) (P : provider W) (file : File)
    (rest : list File) (ps : list (list jsstring)) (s : Storage) (w : W) :
  type file = js "application/pdf" ->
  pages file = Some ps ->
  let r := fst (handleFileUpload P (file :: rest) s w) in
  let textChunks := chunkText (textOf ps) 500 in
  exists doc chunks,
    fst r = Status (js "Done")
    /\ getDocuments (snd r) = getDocuments s ++ [doc]
    /\ getChunks (snd r) = getChunks s ++ chunks
    /\ Doc.id doc = docIdOf P ps w /\ Doc.title doc = name file
    /\ Doc.chunkCount doc = length chunks
    /\ map Matcher.text chunks = textChunks
    /\ map Matcher.embedding chunks = map Some (fst (getEmbeddings P textChunks w))
    /\ Forall (fun c => Matcher.docId c = Doc.id doc /\ Matcher.docTitle c = name file)
              chunks
    /\ NoDup (map Matcher.id chunks)
    /\ handleInspect (Doc.id doc) (snd r) = handleInspect (Doc.id doc) s ++ chunks
    /\ getLeads (snd r) = getLeads s /\ getSettings (snd r) = getSettings s.
Proof.
  intros Ht Hp. cbv zeta.
  destruct (handleFileUpload_run P file rest s w Ht Hp) as [doc [w' [R [I [T C]]]]].
  rewrite R. cbn [fst snd].
  destruct (chunksWithEmbeddings_spec (docIdOf P ps w) (name file)
              (chunkText (textOf ps) 500)
              (fst (getEmbeddings P (chunkText (textOf ps) 500) w))
              (getEmbeddings_length P _ w)) as [C1 [C2 [C3 C4]]].
  set (chunks := chunksWithEmbeddings (docIdOf P ps w) (name file)
                   (chunkText (textOf ps) 500)
                   (fst (getEmbeddings P (chunkText (textOf ps) 500) w))) in *.
  destruct (addChunks_after_addDocument P doc chunks s w') as [G1 [G2 [G3 G4]]].
  exists doc, chunks.
  split; [reflexivity | split; [exact G1 | split; [exact G2 | ] ] ].
  split; [exact I | split; [exact T | ] ].
  split; [rewrite C, <- C1 at 1; apply length_map | ].
  split; [exact C1 | split; [exact C2 | ] ].
  split; [rewrite I; exact C3 | split; [exact C4 | ] ].
  split; [ | split; [exact G3 | exact G4] ].
  unfold handleInspect. rewrite G2, filter_app. f_equal. apply filter_docId.
  rewrite I. eapply Forall_impl; [ | exact C3]. intros c [H _]. exact H.
Qed.

Lemma handleFileUpload_stores_witness :
  type samplePdf = js "application/pdf"
  /\ pages samplePdf
     = Some [ [js "Samastha was"; js "founded in 1926."]; [js "It runs madrasas."] ]
  /\ exists doc chunks,
       fst (fst (handleFileUpload answeringProvider [samplePdf] loadedStore 7%N))
       = Status (js "Done")
       /\ getDocuments
            (snd (fst (handleFileUpload answeringProvider [samplePdf] loadedStore 7%N)))
          = getDocuments loadedStore ++ [doc]
       /\ getChunks
            (snd (fst (handleFileUpload answeringProvider [samplePdf] loadedStore 7%N)))
          = getChunks loadedStore ++ chunks
       /\ Doc.id doc = js "doc-7" /\ Doc.chunkCount doc = 1
       /\ map Matcher.text chunks
          = [js "Samastha was founded in 1926." ++ newline ++ js "It runs madrasas."]
       /\ map Matcher.embedding chunks = [Some [1%float]].
Proof.
  split; [reflexivity | split; [reflexivity | ] ].
  destruct (@handleFileUpload_stores N answeringProvider samplePdf []
              [ [js "Samastha was"; js "founded in 1926."]; [js "It runs madrasas."] ]
              loadedStore 7%N eq_refl eq_refl)
    as [doc [chunks [H1 [H2 [H3 [H4 [_ [H6 [H7 [H8 _]]]]]]]]]].
  exists doc, chunks.
  split; [exact H1 | split; [exact H2 | split; [exact H3 | ] ] ].
  split; [exact H4 | ].
  split; [rewrite H6, <- (length_map Matcher.text), H7; reflexivity | ].
  split; [exact H7 | exact H8].
Defined.

(** X16.  Without a file, with a file that is not a PDF, or with a PDF that pdf.js
    cannot read, [handleFileUpload] leaves the store as it is and calls
    neither the embedding service nor the clock. *)
Theorem handleFileUpload_refuses (W : Type) (P : provider W) (files : list File)
    (s : Storage) (w : W) :
  match files with
  | [] => True
  | file :: _ => type file <> js "application/pdf" \/ pages file = None
  end ->
  snd (fst (handleFileUpload P files s w)) = s
  /\ snd (handleFileUpload P files s w) = w
  /\ fst (fst (handleFileUpload P files s w)) <> Status (js "Done").
Proof.
  unfold handleFileUpload. destruct files as [ | file rest]; intros H.
  - cbn [ret fst snd]. repeat split. discriminate.
  - destruct (strictEq (type file) (js "application/pdf")) eqn:T; cbn [negb].
    + apply strictEq_eq in T. destruct H as [H | H]; [contradiction | ].
      unfold extractTextFromPdf. rewrite H. cbn [ret fst snd].
      repeat split. discriminate.
    + cbn [ret fst snd]. repeat split. discriminate.
Qed.

Lemma handleFileUpload_refuses_witness :
  (type sampleImage <> js "application/pdf" \/ pages sampleImage = None)
  /\ snd (fst (handleFileUpload answeringProvider [sampleImage] loadedStore 7%N))
     = loadedStore
  /\ snd (handleFileUpload answeringProvider [sampleImage] loadedStore 7%N) = 7%N.
Proof.
  assert (H : type sampleImage <> js "application/pdf" \/ pages sampleImage = None)
    by (right; reflexivity).
  split; [exact H | ].
  destruct (@handleFileUpload_refuses N answeringProvider [sampleImage] loadedStore 7%N H)
    as [H1 [H2 _]].
  split; [exact H1 | exact H2].
Defined.

Lemma filter_fresh (A : Type) (p : A -> bool) (xs ys : list A) :
  (forall x, In x xs -> p x = true) -> (forall y, In y ys -> p y = false) ->
  filter p (xs ++ ys) = xs.
Proof.
  intros Hx Hy. rewrite filter_app, (filter_all p xs Hx), (filter_none p ys Hy).
  apply app_nil_r.
Qed.

(** X17.  Deleting a document right after its upload restores the documents and
    the chunks, provided that the id the upload gave was not in use. *)
Theorem upload_then_delete (W : Type) (P : provider W) (file : File)
    (rest : list File) (ps : list (list jsstring)) (s : Storage) (w w' : W) :
  type file = js "application/pdf" ->
  pages file = Some ps ->
  (forall d, In d (getDocuments s) -> Doc.id d <> docIdOf P ps w) ->
  (forall c, In c (getChunks s) -> Matcher.docId c <> docIdOf P ps w) ->
  let uploaded := snd (fst (handleFileUpload P (file :: rest) s w)) in
  let deleted := fst (handleDelete P true (docIdOf P ps w) uploaded w') in
  getDocuments deleted = getDocuments s /\ getChunks deleted = getChunks s.
Proof.
  intros Ht Hp Fd Fc. cbv zeta.
  destruct (handleFileUpload_run P file rest s w Ht Hp) as [doc [w1 [R [I _]]]].
  rewrite R. cbn [fst snd handleDelete].
  destruct (chunksWithEmbeddings_spec (docIdOf P ps w) (name file)
              (chunkText (textOf ps) 500)
              (fst (getEmbeddings P (chunkText (textOf ps) 500) w))
              (getEmbeddings_length P _ w)) as [_ [_ [C3 _]]].
  set (chunks := chunksWithEmbeddings (docIdOf P ps w) (name file)
                   (chunkText (textOf ps) 500)
                   (fst (getEmbeddings P (chunkText (textOf ps) 500) w))) in *.
  destruct (addChunks_after_addDocument P doc chunks s w1) as [G1 [G2 _]].
  set (uploaded := addChunks chunks (fst (addDocument P doc s w1))) in *.
  destruct (deleteDocument_frame P (docIdOf P ps w) uploaded w') as [E1 [E2 _]].
  unfold getDocuments at 1, getChunks at 1. rewrite E1, E2, G1, G2.
  cbn [parsedOrEmpty]. rewrite Forall_forall in C3.
  split; apply filter_fresh.
  - intros d Hd. apply negb_true_iff, strictEq_false. auto.
  - intros d [<- | []]. apply negb_false_iff, strictEq_eq. exact I.
  - intros c Hc. apply negb_true_iff, strictEq_false. auto.
  - intros c Hc. apply negb_false_iff, strictEq_eq. apply C3. exact Hc.
Qed.

Lemma upload_then_delete_witness :
  type samplePdf = js "application/pdf"
  /\ (forall d, In d (getDocuments loadedStore) -> Doc.id d <> js "doc-7")
  /\ (forall c, In c (getChunks loadedStore) -> Matcher.docId c <> js "doc-7")
  /\ getDocuments
       (fst (handleDelete answeringProvider true (js "doc-7")
               (snd (fst (handleFileUpload answeringProvider [samplePdf] loadedStore 7%N)))
               9%N))
     = getDocuments loadedStore
  /\ getChunks
       (fst (handleDelete answeringProvider true (js "doc-7")
               (snd (fst (handleFileUpload answeringProvider [samplePdf] loadedStore 7%N)))
               9%N))
     = getChunks loadedStore.
Proof.
  assert (Fd : forall d, In d (getDocuments loadedStore) -> Doc.id d <> js "doc-7").
  { intros d [<- | []]. discriminate. }
  assert (Fc : forall c, In c (getChunks loadedStore) -> Matcher.docId c <> js "doc-7").
  { intros c [<- | []]. discriminate. }
  split; [reflexivity | split; [exact Fd | split; [exact Fc | ] ] ].
  exact (@upload_then_delete N answeringProvider samplePdf []
           [ [js "Samastha was"; js "founded in 1926."]; [js "It runs madrasas."] ]
           loadedStore 7%N 9%N eq_refl eq_refl Fd Fc).
Defined.

Section Alike.

Variable q : list number.

Lemma alike_score (a b : Matcher.DocumentChunk) :
  alike a b -> Matcher.scoreOf q a = Matcher.scoreOf q b.
Proof. intros [_ E]. unfold Matcher.scoreOf. now rewrite E. Qed.

Lemma alike_after (a a' b b' : Matcher.DocumentChunk) :
  alike a a' -> alike b b' ->
  after (chunkCompare q) a b = after (chunkCompare q) a' b'.
Proof.
  intros Ha Hb. unfold after, SortCompare, chunkCompare.
  now rewrite (alike_score Ha), (alike_score Hb).
Qed.

Lemma insert_alike (x x' : Matcher.DocumentChunk) (l l' : list Matcher.DocumentChunk) :
  alike x x' -> Forall2 alike l l' ->
  Forall2 alike (insert (chunkCompare q) x l) (insert (chunkCompare q) x' l').
Proof.
  intros Hx H. induction H as [ | y y' l l' Hy H IH]; cbn [insert].
  - constructor; [exact Hx | constructor].
  - rewrite (alike_after Hx Hy). destruct (after (chunkCompare q) x' y').
    + constructor; assumption.
    + constructor; [exact Hx | constructor; assumption].
Qed.

Lemma sort_alike (l l' : list Matcher.DocumentChunk) :
  Forall2 alike l l' ->
  Forall2 alike (sort (chunkCompare q) l) (sort (chunkCompare q) l').
Proof.
  induction 1 as [ | x x' l l' Hx H IH]; cbn [sort]; [constructor | ].
  now apply insert_alike.
Qed.

Lemma firstn_alike (n : nat) (l l' : list Matcher.DocumentChunk) :
  Forall2 alike l l' -> Forall2 alike (firstn n l) (firstn n l').
Proof.
  intros H. revert n. induction H as [ | x x' l l' Hx H IH]; intros [ | n];
    cbn [firstn]; constructor; auto.
Qed.

End Alike.

Lemma alike_refl (l : list Matcher.DocumentChunk) : Forall2 alike l l.
Proof. induction l; constructor; [split; reflexivity | assumption ]. Qed.

Lemma assign_alike (v : Matcher.DocumentChunk) (xs : list Matcher.DocumentChunk) :
  (forall c, In c xs -> Matcher.id c = Matcher.id v ->
             Matcher.embedding c = Matcher.embedding v) ->
  forall i,
    findIndex (fun c => strictEq (Matcher.id c) (Matcher.id v)) xs = Some i ->
    Forall2 alike (assign i v xs) xs.
Proof.
  intros H. induction xs as [ | x xs IH]; intros i; cbn [findIndex]; [discriminate | ].
  destruct (strictEq (Matcher.id x) (Matcher.id v)) eqn:E.
  - intros [= <-]. cbn [assign]. constructor; [ | apply alike_refl].
    apply strictEq_eq in E. split; [now symmetry | ].
    symmetry. apply H; [now left | exact E].
  - destruct (findIndex _ xs) as [j | ]; [ | discriminate].
    intros [= <-]. cbn [assign]. constructor; [split; reflexivity | ].
    apply IH; [ | reflexivity]. intros c Hc. apply H. now right.
Qed.

(** X18.  The passage editor changes the text of a chunk and keeps its embedding:
    the chunk is stored with the new text, and for every query the matcher
    returns chunks of the same ids and embeddings, in the same order, as
    before the edit. *)
Theorem editPassage_keeps_ranking (chunk : Matcher.DocumentChunk)
    (newText : option jsstring) (s : Storage) (q : list number) (topK : nat) :
  (forall c, In c (getChunks s) -> Matcher.id c = Matcher.id chunk ->
             Matcher.embedding c = Matcher.embedding chunk) ->
  let s' := editPassage chunk newText s in
  Forall2 alike (Matcher.findBestMatches q (getChunks s') topK)
                (Matcher.findBestMatches q (getChunks s) topK)
  /\ (forall t, newText = Some t -> t <> [] ->
        (exists c, In c (getChunks s) /\ Matcher.id c = Matcher.id chunk) ->
        exists c', find (fun c => strictEq (Matcher.id c) (Matcher.id chunk)) (getChunks s')
                   = Some c'
                   /\ Matcher.text c' = t
                   /\ Matcher.embedding c' = Matcher.embedding chunk).
Proof.
  intros H. cbv zeta. unfold editPassage.
  destruct newText as [t | ].
  2:{ split; [apply alike_refl | discriminate]. }
  destruct (truthy t) eqn:T.
  2:{ split; [apply alike_refl | ].
      intros t' [= <-] Ht. destruct t; [contradiction | discriminate]. }
  set (edited := {| Matcher.id := Matcher.id chunk; Matcher.docId := Matcher.docId chunk;
                    Matcher.docTitle := Matcher.docTitle chunk; Matcher.text := t;
                    Matcher.embedding := Matcher.embedding chunk |}).
  unfold updateChunk.
  change (Matcher.id edited) with (Matcher.id chunk).
  destruct (findIndex (fun c => strictEq (Matcher.id c) (Matcher.id chunk)) (getChunks s))
    as [i | ] eqn:F.
  - change (getChunks (setChunks (assign i edited (getChunks s)) s))
      with (assign i edited (getChunks s)).
    split.
    + rewrite !findBestMatches_eq. apply firstn_alike, sort_alike.
      apply (assign_alike edited); [exact H | exact F].
    + intros t' [= <-] _ _. exists edited. split; [ | split; reflexivity].
      apply (find_assign (fun c => strictEq (Matcher.id c) (Matcher.id chunk)));
        [exact F | apply strictEq_refl].
  - split; [apply alike_refl | ].
    intros t' _ _ [c [Hc Ec]]. exfalso.
    rewrite findIndex_none in F. specialize (F c Hc). cbn beta in F.
    rewrite Ec, strictEq_refl in F. discriminate.
Qed.

Lemma editPassage_keeps_ranking_witness :
  let s := addChunks [seedChunk] emptyStorage in
  let s' := editPassage seedChunk (Some (js "Samastha was founded in 1926.")) s in
  (forall c, In c (getChunks s) -> Matcher.id c = Matcher.id seedChunk ->
             Matcher.embedding c = Matcher.embedding seedChunk)
  /\ Forall2 alike (Matcher.findBestMatches [1%float] (getChunks s') 3)
                   (Matcher.findBestMatches [1%float] (getChunks s) 3)
  /\ map Matcher.text (getChunks s') = [js "Samastha was founded in 1926."].
Proof.
  intros s s'.
  assert (H : forall c, In c (getChunks s) -> Matcher.id c = Matcher.id seedChunk ->
                Matcher.embedding c = Matcher.embedding seedChunk).
  { intros c [<- | []] _. reflexivity. }
  split; [exact H | ].
  split; [ | reflexivity].
  exact (proj1 (@editPassage_keeps_ranking seedChunk
                  (Some (js "Samastha was founded in 1926.")) s [1%float] 3 H)).
Defined.

Lemma orElse_nonempty (a d : jsstring) : d <> [] -> orElse a d <> [].
Proof. unfold orElse. destruct a; cbn [truthy]; [auto | discriminate]. Qed.

(** X19.  The password that [handleLogin] asks for, on a login page that has
    synchronised its settings with the store, is the password that was
    saved, and the default one [rasheequ.designs] when none or an empty one
    was saved; the address is fixed.  In particular the general settings
    form, saved with an empty password field, brings the default password
    back, and no store makes the login accept an empty password. *)
Theorem handleLogin_password (W : Type) (P : provider W) :
  (forall settings s w email password,
     handleLogin (getSettings (fst (MockDB.saveSettings P settings s w))) email password
     = strictEq email (js "rasheequ.designs@gmail.com")
       && strictEq password
            (Settings.orElseOpt (Settings.adminPassword settings) (js "rasheequ.designs")))
  /\ (forall f s w email password,
        handleLogin (getSettings (snd (fst (handleGeneralSave P f s w)))) email password
        = strictEq email (js "rasheequ.designs@gmail.com")
          && strictEq password (orElse (adminPassword f) (js "rasheequ.designs")))
  /\ (forall s email, handleLogin (getSettings s) email [] = false).
Proof.
  assert (S : forall settings s w,
            getSettings (fst (MockDB.saveSettings P settings s w))
            = spread defaults settings).
  { intros settings s w. unfold MockDB.saveSettings, getSettings.
    destruct (logAction_frame P (js "Config") (js "Super Admin")
                (js "Updated system settings") Log.Info (setSettings settings s) w)
      as [_ [_ [E3 _]]].
    rewrite E3. reflexivity. }
  assert (A : forall settings s w email password,
     handleLogin (getSettings (fst (MockDB.saveSettings P settings s w))) email password
     = strictEq email (js "rasheequ.designs@gmail.com")
       && strictEq password
            (Settings.orElseOpt (Settings.adminPassword settings) (js "rasheequ.designs"))).
  { intros settings s w email password. rewrite S. unfold handleLogin.
    cbn [spread Settings.adminPassword defaults].
    destruct (Settings.adminPassword settings); reflexivity. }
  split; [exact A | split].
  - intros f s w email password. unfold handleGeneralSave, saveSettings, bind, ret.
    specialize (A (updatedSettings f) s w email password).
    destruct (MockDB.saveSettings P (updatedSettings f) s w) as [s1 w1].
    cbn [fst snd] in *. exact A.
  - intros s email. unfold handleLogin.
    assert (V : Settings.orElseOpt (Settings.adminPassword (getSettings s))
                  (js "rasheequ.designs") <> []).
    { unfold Settings.orElseOpt. destruct (Settings.adminPassword (getSettings s));
        [apply orElse_nonempty | ]; discriminate. }
    destruct (Settings.orElseOpt _ _) as [ | c r]; [contradiction | ].
    cbn [strictEq]. apply andb_false_r.
Qed.

End AdminFacts.

(* ================================================================== *)
(** ** Further properties of the conversation and of the live session *)

Module ConversationFacts.

Import ChunkerSpec.
Import JSNumber JSString World Embedding Chat Live.
Import EmbeddingSpec ChatSpec LiveSpec GeneratorSpec ConversationSpec.
Import StringFacts EmbeddingFacts ChatFacts LiveFacts.

Section Steps.

Variable W : Type.
Variable P : provider W.

Lemma handleSend_cases (st : State) (w : W) :
  (truthy (trim (input st)) = false /\ handleSend P st w = (st, w))
  \/ (truthy (trim (input st)) = true /\ waitingForNumber st = false
      /\ handleSend P st w = processQuery P (input st) false (setInput [] st) w)
  \/ (truthy (trim (input st)) = true /\ waitingForNumber st = true
      /\ validContact (input st) = false
      /\ exists m, fst (handleSend P st w)
                   = setMessages (fun prev => prev ++ [m]) (setInput [] st)
                   /\ role m = model /\ content m = validationFailure)
  \/ (truthy (trim (input st)) = true /\ waitingForNumber st = true
      /\ validContact (input st) = true
      /\ exists u r lead,
           messages (fst (handleSend P st w)) = messages st ++ [u; r]
           /\ role u = user /\ content u = input st /\ role r = model
           /\ content r <> []
           /\ waitingForNumber (fst (handleSend P st w)) = false
           /\ Store.leads (db (fst (handleSend P st w))) = Store.leads (db st) ++ [lead]
           /\ Store.phoneNumber lead = input st
           /\ Store.queryContext lead
              = substring0 100 (lastContextOf (messages st)) ++ js "...").
Proof.
  destruct (truthy (trim (input st))) eqn:B.
  2:{ left. split; [reflexivity | now apply handleSend_blank]. }
  destruct (waitingForNumber st) eqn:Wt.
  2:{ right; left. repeat split. now apply handleSend_normal. }
  destruct (validContact (input st)) eqn:V.
  - right; right; right. repeat split. now apply handleSend_valid_shape.
  - right; right; left. repeat split. now apply handleSend_invalid_shape.
Qed.

(** A step adds at most two messages at the end of the conversation. *)
Lemma step_appends (e : event) (st : State) (w : W) :
  exists more, messages (fst (step P e st w)) = messages st ++ more
               /\ length more <= 2.
Proof.
  destruct e; cbn [step].
  - unfold loadAndSync. cbn [messages]. destruct (messages st) as [ | m ms] eqn:E.
    + unfold bind, ret. destruct (dateNow P w) as [n w1]. cbn [fst setMessages messages].
      eexists. split; [reflexivity | cbn; lia].
    + cbn [ret fst messages]. exists []. split; [now rewrite app_nil_r | cbn; lia].
  - exists []. cbn [ret fst setInput messages]. split; [now rewrite app_nil_r | cbn; lia].
  - destruct (handleSend_cases st w)
      as [[_ H] | [[_ [_ H]] | [[_ [_ [_ [m [H _]]]]] | [_ [_ [_ [u [r [l [H _]]]]]]]]]].
    + rewrite H. exists []. cbn [fst]. split; [now rewrite app_nil_r | cbn; lia].
    + rewrite H.
      destruct (processQuery_shape P (input st) false (setInput [] st) w)
        as [u [b [Hm _]]].
      exists [u; b]. split; [exact Hm | cbn; lia].
    + rewrite H. exists [m]. split; [reflexivity | cbn; lia].
    + exists [u; r]. split; [exact H | cbn; lia].
  - unfold handleKnowMore, bind, ret.
    destruct (dateNow P w) as [n1 w1]. destruct (dateNow P w1) as [n2 w2].
    cbn [fst setWaitingForNumber setMessages messages].
    eexists. split; [reflexivity | cbn; lia].
  - unfold handleAudioCaptured.
    destruct (blobToBase64 result) as [audio | ].
    2:{ cbn [ret fst]. exists []. split; [now rewrite app_nil_r | cbn; lia]. }
    unfold bind, ret.
    destruct (transcribeAudio P audio w) as [[t | ] w1].
    + destruct (truthy t).
      * destruct waiting.
        -- cbn [fst]. exists []. split; [now rewrite app_nil_r | cbn; lia].
        -- destruct (processQuery_shape P t true (setIsLoading true st) w1)
             as [u [b [Hm _]]].
           exists [u; b]. split; [exact Hm | cbn; lia].
      * cbn [fst]. exists []. split; [now rewrite app_nil_r | cbn; lia].
    + cbn [fst]. exists []. split; [now rewrite app_nil_r | cbn; lia].
  - exists []. cbn [ret fst setDb messages]. split; [now rewrite app_nil_r | cbn; lia].
Qed.

End Steps.

(** X20.  No handler removes or rewrites a message: after any sequence of events
    the conversation is the one before, followed by at most two new
    messages for every event. *)
Theorem conversation_grows (W : Type) (P : provider W) (es : list event)
    (st : State) (w : W) :
  exists more,
    messages (fst (runEvents P es st w)) = messages st ++ more
    /\ length more <= 2 * length es.
Proof.
  revert st w. induction es as [ | e es IH]; intros st w; cbn [runEvents].
  - exists []. cbn [fst length]. split; [now rewrite app_nil_r | lia].
  - destruct (step_appends P e st w) as [m1 [E1 L1]].
    destruct (step P e st w) as [st1 w1]. cbn [fst] in E1.
    destruct (IH st1 w1) as [m2 [E2 L2]].
    exists (m1 ++ m2). rewrite E2, E1, <- app_assoc, length_app.
    split; [reflexivity | cbn [length]; lia].
Qed.

Section Leads.

Variable W : Type.
Variable P : provider W.

Lemma handleSend_valid_db (st : State) (w : W) :
  waitingForNumber st = true ->
  truthy (trim (input st)) = true ->
  validContact (input st) = true ->
  exists lead,
    db (fst (handleSend P st w)) = Store.addLead lead (db st)
    /\ Store.phoneNumber lead = input st.
Proof.
  intros Hw Hb Hv. unfold handleSend. rewrite Hb. cbn [negb setInput waitingForNumber].
  rewrite Hw. unfold validContact in Hv. apply negb_true_iff in Hv. rewrite Hv.
  run. eexists. cbn. split; reflexivity.
Qed.

Lemma processQuery_loading (q : jsstring) (v : bool) (st : State) (w : W) :
  isLoading (fst (processQuery P q v st w)) = false
  /\ input (fst (processQuery P q v st w)) = input st.
Proof. unfold processQuery. run. split; reflexivity. Qed.

Lemma step_db (e : event) (st : State) (w : W) :
  (exists d, e = StoreChange d /\ db (fst (step P e st w)) = d)
  \/ db (fst (step P e st w)) = db st
  \/ (e = Send /\ waitingForNumber st = true /\ truthy (trim (input st)) = true
      /\ validContact (input st) = true
      /\ exists lead,
           db (fst (step P e st w)) = Store.addLead lead (db st)
           /\ Store.phoneNumber lead = input st).
Proof.
  destruct e; cbn [step].
  - right; left. unfold loadAndSync. cbn [messages].
    destruct (messages st); [ | reflexivity].
    unfold bind, ret. destruct (dateNow P w). reflexivity.
  - right; left. reflexivity.
  - destruct (handleSend_cases P st w)
      as [[_ H] | [[_ [_ H]] | [[_ [_ [_ [m [H _]]]]] | [B [Wt [V _]]]]]].
    + right; left. now rewrite H.
    + right; left. rewrite H.
      destruct (processQuery_shape P (input st) false (setInput [] st) w)
        as [u [b [_ [_ [_ [_ [_ [_ Hd]]]]]]]].
      exact Hd.
    + right; left. now rewrite H.
    + right; right. repeat split; try assumption. now apply handleSend_valid_db.
  - right; left. unfold handleKnowMore, bind, ret.
    destruct (dateNow P w) as [n1 w1]. destruct (dateNow P w1). reflexivity.
  - right; left. unfold handleAudioCaptured.
    destruct (blobToBase64 result) as [audio | ]; [ | reflexivity].
    unfold bind, ret.
    destruct (transcribeAudio P audio w) as [[t | ] w1]; [ | reflexivity].
    destruct (truthy t); [ | reflexivity].
    destruct waiting; [reflexivity | ].
    destruct (processQuery_shape P t true (setIsLoading true st) w1)
      as [u [b [_ [_ [_ [_ [_ [_ Hd]]]]]]]].
    exact Hd.
  - left. eexists. split; reflexivity.
Qed.

End Leads.

(** X21.  The chat component writes to the store in one place only.  A step
    leaves the store as it is, unless it is a change made elsewhere, or the
    sending of a valid contact while one is awaited: then one lead with the
    text as entered is added at the end of the leads, and the chunks and
    the settings stay as they are. *)
Theorem lead_only_by_contact (W : Type) (P : provider W) (e : event) (st : State)
    (w : W) :
  let st' := fst (step P e st w) in
  (exists d, e = StoreChange d /\ db st' = d)
  \/ db st' = db st
  \/ (e = Send /\ waitingForNumber st = true /\ validContact (input st) = true
      /\ Store.chunks (db st') = Store.chunks (db st)
      /\ Store.settings (db st') = Store.settings (db st)
      /\ exists lead,
           Store.leads (db st') = Store.leads (db st) ++ [lead]
           /\ Store.phoneNumber lead = input st).
Proof.
  cbv zeta. destruct (step_db P e st w) as [H | [H | [E [Wt [_ [V [lead [H Hp]]]]]]]].
  - left. exact H.
  - right; left. exact H.
  - right; right. rewrite H. cbn [Store.addLead Store.chunks Store.settings Store.leads].
    repeat split; try assumption. exists lead. split; [reflexivity | exact Hp].
Qed.

(** X22.  The settings effect can run again and again: the welcome message is put
    once, into an empty conversation; on a conversation that has a message
    the effect changes nothing but the component's copy of the settings and
    does not read the clock. *)
Theorem loadAndSync_idempotent (W : Type) (P : provider W) (st : State) (w w' : W) :
  let st1 := fst (loadAndSync P st w) in
  loadAndSync P st1 w' = (st1, w')
  /\ messages st1 <> []
  /\ settings st1 = Store.getSettings (db st)
  /\ (messages st <> [] -> messages st1 = messages st /\ snd (loadAndSync P st w) = w).
Proof.
  cbv zeta. unfold loadAndSync at 2 3 4 5 6. cbn [messages].
  destruct (messages st) as [ | m ms] eqn:E.
  - unfold bind, ret. destruct (dateNow P w) as [n w1]. cbn [fst snd].
    split; [reflexivity | ]. split; [discriminate | ]. split; [reflexivity | ].
    intros H. now contradiction H.
  - cbn [ret fst snd]. split.
    + reflexivity.
    + cbn [messages settings]. repeat split; try reflexivity; try discriminate.
      unfold loadAndSync. cbn [messages]. rewrite E. reflexivity.
Qed.

Lemma splitComma_plain (s : jsstring) : ~ In 44%N s -> splitComma s = [s].
Proof.
  induction s as [ | c s IH]; intros H; cbn [splitComma]; [reflexivity | ].
  destruct (c =? 44)%N eqn:E.
  - apply N.eqb_eq in E. subst c. contradiction H. now left.
  - rewrite IH; [reflexivity | ]. intros Hin. apply H. now right.
Qed.

Lemma splitComma_fields (header rest : jsstring) :
  ~ In 44%N header -> splitComma (header ++ 44%N :: rest) = header :: splitComma rest.
Proof.
  induction header as [ | c h IH]; intros H; cbn [splitComma app].
  - reflexivity.
  - destruct (c =? 44)%N eqn:E.
    + apply N.eqb_eq in E. subst c. contradiction H. now left.
    + rewrite IH; [reflexivity | ]. intros Hin. apply H. now right.
Qed.

(** X23.  [handleAudioCaptured] reads the [waitingForNumber] of the render in
    which the recording was started, [waiting], not the one of the state.
    When the reader has failed, the promise of [blobToBase64] stays pending:
    no transcription is asked for and the component stays loading.
    Otherwise the component is not left loading, and neither the store nor
    the state's [waitingForNumber] changes.  With [waiting] set, the
    transcription goes into the input field and nothing is sent.  Without
    it, also when a contact is awaited by now, a transcription that is not
    empty is sent as a question of the user and answered.  A failed or
    empty transcription changes neither the conversation nor the input.
    What is transcribed is the second field of the data URL between commas:
    the payload, when the header has no comma and the payload none. *)
Theorem handleAudioCaptured_fills_input (W : Type) (P : provider W) (waiting : bool)
    (result : option jsstring) (st : State) (w : W) :
  let st' := fst (handleAudioCaptured P waiting result st w) in
  (blobToBase64 result = None ->
   handleAudioCaptured P waiting result st w = (setIsLoading true st, w))
  /\ (forall audio, blobToBase64 result = Some audio ->
      let t := fst (transcribeAudio P audio w) in
      isLoading st' = false /\ db st' = db st
      /\ waitingForNumber st' = waitingForNumber st
      /\ (waiting = true ->
          messages st' = messages st
          /\ input st' = match t with
                         | Some x => if truthy x then x else input st
                         | None => input st
                         end)
      /\ (waiting = false -> forall x, t = Some x -> x <> [] ->
          input st' = input st
          /\ exists u b,
               messages st' = messages st ++ [u; b]
               /\ role u = user /\ Chat.content u = x /\ isAudio u = Some true
               /\ role b = model)
      /\ (t = None \/ t = Some [] ->
          messages st' = messages st /\ input st' = input st))
  /\ (result = None <-> blobToBase64 result = None)
  /\ (forall header payload,
        ~ In 44%N header -> ~ In 44%N payload ->
        blobToBase64 (Some (header ++ 44%N :: payload)) = Some (Some payload)).
Proof.
  cbv zeta. split; [ | split; [ | split ] ].
  - intros E. unfold handleAudioCaptured. now rewrite E.
  - intros audio E. unfold handleAudioCaptured. rewrite E. unfold bind, ret.
    destruct (transcribeAudio P audio w) as [[t | ] w1]; cbn [fst].
    + destruct (truthy t) eqn:T.
      * assert (N : Some t = None \/ Some t = Some [] -> False).
        { intros [H | H]; [discriminate | ]. injection H as ->. discriminate. }
        destruct waiting.
        -- cbn [fst]. do 3 (split; [reflexivity | ]).
           split; [intros _; split; reflexivity | ].
           split; [discriminate | ]. intros H. destruct (N H).
        -- destruct (processQuery_loading P t true (setIsLoading true st) w1) as [L I].
           destruct (processQuery_shape P t true (setIsLoading true st) w1)
             as (u & b & Hm & Hu & Hc & Hb & _ & Hw & Hd).
           split; [exact L | ]. split; [exact Hd | ]. split; [exact Hw | ].
           split; [discriminate | ]. split; [ | intros H; destruct (N H)].
           intros _ x Hx _. injection Hx as <-. split; [exact I | ].
           exists u, b. repeat split; try assumption.
           revert Hm. unfold processQuery. run. cbn. rewrite <- app_assoc. cbn.
           intros Hm. apply app_inv_head in Hm. injection Hm as <- _. reflexivity.
      * destruct t; [ | discriminate T]. cbn [fst].
        do 3 (split; [reflexivity | ]).
        split; [intros _; split; reflexivity | ].
        split; [ | intros _; split; reflexivity].
        intros _ x Hx. injection Hx as <-. intros N. now contradiction N.
    + cbn [fst]. do 3 (split; [reflexivity | ]).
      split; [intros _; split; reflexivity | ].
      split; [ | intros _; split; reflexivity].
      intros _ x Hx. discriminate.
  - destruct result; cbn [blobToBase64]; split; intros H; try discriminate; reflexivity.
  - intros header payload Hh Hp. cbn [blobToBase64].
    rewrite (@splitComma_fields header payload Hh), (@splitComma_plain payload Hp).
    reflexivity.
Qed.

(** A recording started before the know-more button was pressed and ended
    after it: the question is sent although a contact is awaited; and a
    recording that cannot be read leaves the component loading. *)
Lemma handleAudioCaptured_fills_input_witness :
  let st := fst (step lecturingProvider KnowMore
                   (fst (step lecturingProvider Sync (initial sampleDb) 0)) 0) in
  let dataUrl := js "data:audio/webm;base64,GkXfo59ChoEB" in
  waitingForNumber st = true
  /\ blobToBase64 (Some dataUrl) = Some (Some (js "GkXfo59ChoEB"))
  /\ (exists u b,
        messages (fst (handleAudioCaptured lecturingProvider false (Some dataUrl) st 0))
        = messages st ++ [u; b]
        /\ role u = user /\ Chat.content u = js "What is Samastha?"
        /\ isAudio u = Some true /\ role b = model)
  /\ waitingForNumber
       (fst (handleAudioCaptured lecturingProvider false (Some dataUrl) st 0)) = true
  /\ isLoading (fst (handleAudioCaptured lecturingProvider false None st 0)) = true.
Proof.
  intros st dataUrl.
  pose proof (@handleAudioCaptured_fills_input nat lecturingProvider false
                (Some dataUrl) st 0) as [_ [H [_ Hp]]].
  pose proof (@handleAudioCaptured_fills_input nat lecturingProvider false
                None st 0) as [Hn _].
  assert (E : blobToBase64 (Some dataUrl) = Some (Some (js "GkXfo59ChoEB"))).
  { apply (Hp (js "data:audio/webm;base64") (js "GkXfo59ChoEB")).
    - cbn. intuition discriminate.
    - cbn. intuition discriminate. }
  destruct (H _ E) as (_ & _ & Hw & _ & Hq & _).
  split; [reflexivity | ]. split; [exact E | ].
  split; [ | split].
  - destruct (Hq eq_refl (js "What is Samastha?") eq_refl) as [_ Hm]; [discriminate | ].
    exact Hm.
  - rewrite Hw. reflexivity.
  - rewrite (Hn eq_refl). reflexivity.
Defined.

Lemma startsWith_bold (s : jsstring) :
  startsWith boldMarker s
  = match s with
    | c :: c' :: _ => (42 =? c)%N && (42 =? c')%N
    | _ => false
    end.
Proof.
  destruct s as [ | c [ | c' r]]; cbn [startsWith boldMarker]; try reflexivity.
  - now rewrite andb_false_r.
  - now rewrite andb_true_r.
Qed.

Lemma removeBold_pair (c c' : N) (r : jsstring) :
  removeBold (c :: c' :: r)
  = if (c =? 42)%N && (c' =? 42)%N then removeBold r else c :: removeBold (c' :: r).
Proof. reflexivity. Qed.

Lemma removeBold_no_marker (n : nat) : forall s : jsstring,
  length s <= n ->
  includes boldMarker (removeBold s) = false
  /\ (forall c r, s = c :: r -> (42 =? c)%N = false ->
                  exists r', removeBold s = c :: r').
Proof.
  induction n as [ | n IH]; intros s L.
  - destruct s; [ | cbn in L; lia]. split; [reflexivity | discriminate].
  - destruct s as [ | c [ | c' r]].
    + split; [reflexivity | discriminate].
    + split; [ | intros ? ? [= <- <-] _; now exists [] ].
      cbn [removeBold includes]. rewrite startsWith_bold. reflexivity.
    + cbn [length] in L. rewrite removeBold_pair.
      destruct ((c =? 42)%N && (c' =? 42)%N) eqn:B.
      * split; [apply IH; lia | ].
        intros ? ? [= <- <-] C. apply andb_true_iff in B. destruct B as [B _].
        rewrite N.eqb_sym in B. congruence.
      * destruct (IH (c' :: r)) as [I1 I2]; [cbn [length]; lia | ].
        split; [ | intros ? ? [= <- <-] _; eexists; reflexivity ].
        cbn [includes]. rewrite I1, orb_false_r, startsWith_bold.
        destruct (42 =? c)%N eqn:C; [ | destruct (removeBold (c' :: r)); reflexivity].
        destruct (42 =? c')%N eqn:C'.
        -- rewrite (N.eqb_sym c), (N.eqb_sym c'), C, C' in B. discriminate.
        -- destruct (I2 c' r eq_refl C') as [r' ->]. now rewrite C'.
Qed.

Lemma removeBold_unmarked (n : nat) : forall s : jsstring,
  length s <= n -> includes boldMarker s = false -> removeBold s = s.
Proof.
  induction n as [ | n IH]; intros s L H.
  - destruct s; [reflexivity | cbn in L; lia].
  - destruct s as [ | c [ | c' r]]; try reflexivity.
    cbn [length] in L. cbn [includes] in H. apply orb_false_iff in H.
    destruct H as [H1 H2]. rewrite startsWith_bold in H1.
    rewrite removeBold_pair, (N.eqb_sym c), (N.eqb_sym c'), H1.
    f_equal. apply IH; [cbn [length]; lia | exact H2].
Qed.

(** X24.  The report that follows a valid contact carries a copy for sharing: the
    text of the report without any bold marker [**], followed by a footer
    with the name of the application.  A text without marker is copied as it
    is. *)
Theorem report_share_copy (W : Type) (P : provider W) (st : State) (w : W) :
  waitingForNumber st = true ->
  truthy (trim (input st)) = true ->
  validContact (input st) = true ->
  exists u r text,
    messages (fst (handleSend P st w)) = messages st ++ [u; r]
    /\ Chat.content r = reportContentOf (topicQueryOf (messages st) (input st)) text
    /\ shareContent r
       = Some (removeBold text ++ newline ++ newline ++ js "Generated by "
               ++ Store.appName (settings st))
    /\ includes boldMarker (removeBold text) = false
    /\ (includes boldMarker text = false -> removeBold text = text).
Proof.
  intros Hw Hb Hv. unfold handleSend. rewrite Hb. cbn [negb setInput waitingForNumber].
  rewrite Hw. unfold validContact in Hv. apply negb_true_iff in Hv. rewrite Hv.
  run. do 3 eexists. cbn [fst messages setIsLoading setMessages setDb
                           setWaitingForNumber setInput].
  rewrite <- app_assoc. cbn [app].
  split; [reflexivity | ]. cbn [Chat.content shareContent settings].
  split; [reflexivity | split; [reflexivity | split ] ].
  - exact (proj1 (@removeBold_no_marker _ _ (le_n _))).
  - apply (@removeBold_unmarked _ _ (le_n _)).
Qed.

Lemma report_share_copy_witness :
  waitingForNumber (awaitingWith (js "+91 95265 69313")) = true
  /\ validContact (input (awaitingWith (js "+91 95265 69313"))) = true
  /\ exists u r text,
       messages (fst (handleSend answeringProvider (awaitingWith (js "+91 95265 69313")) 0%N))
       = messages (awaitingWith (js "+91 95265 69313")) ++ [u; r]
       /\ Chat.content r
          = reportContentOf (js "Samastha Kerala Jamiyyathul Ulama") text
       /\ shareContent r
          = Some (removeBold text ++ newline ++ newline ++ js "Generated by "
                  ++ js "Samastha AI")
       /\ includes boldMarker (removeBold text) = false
       /\ (includes boldMarker text = false -> removeBold text = text).
Proof.
  split; [reflexivity | split; [reflexivity | ] ].
  exact (@report_share_copy N answeringProvider (awaitingWith (js "+91 95265 69313")) 0%N
           eq_refl eq_refl eq_refl).
Defined.

Section Awaiting.

Variable W : Type.
Variable P : provider W.

Lemma step_waiting (e : event) (st : State) (w : W) :
  waitingForNumber (fst (step P e st w)) = true ->
  e = KnowMore \/ waitingForNumber st = true.
Proof.
  destruct e; cbn [step]; auto.
  - unfold loadAndSync. cbn [messages]. destruct (messages st); [ | auto].
    unfold bind, ret. destruct (dateNow P w). auto.
  - destruct (handleSend_cases P st w)
      as [[_ H] | [[_ [Wt H]] | [[_ [Wt _]] | [_ [Wt _]]]]]; auto.
    + rewrite H. auto.
    + rewrite H.
      destruct (processQuery_shape P (input st) false (setInput [] st) w)
        as [u [b [_ [_ [_ [_ [_ [Hw _]]]]]]]].
      rewrite Hw. auto.
  - unfold handleAudioCaptured.
    destruct (blobToBase64 result) as [audio | ]; [ | auto].
    unfold bind, ret.
    destruct (transcribeAudio P audio w) as [[t | ] w1]; [ | auto].
    destruct (truthy t); [ | auto].
    destruct waiting; [auto | ].
    destruct (processQuery_shape P t true (setIsLoading true st) w1)
      as [u [b [_ [_ [_ [_ [_ [Hw _]]]]]]]].
    rewrite Hw. auto.
Qed.

Lemma handleKnowMore_asks (st : State) (w : W) :
  exists m, messages (fst (handleKnowMore P st w)) = messages st ++ [m]
            /\ role m = model /\ Chat.content m = contactRequest.
Proof.
  unfold handleKnowMore, bind, ret.
  destruct (dateNow P w) as [n1 w1]. destruct (dateNow P w1) as [n2 w2].
  eexists. split; [reflexivity | split; reflexivity].
Qed.

End Awaiting.

(** X25.  In every state the component can reach, while a contact is awaited the
    conversation holds the request for the mobile number that the know-more
    button put there. *)
Theorem awaiting_shows_request (W : Type) (P : provider W) (st : State) :
  reachable P st ->
  waitingForNumber st = true ->
  exists m, In m (messages st) /\ role m = model /\ Chat.content m = contactRequest.
Proof.
  induction 1 as [d | e st w Hr IH]; intros Hw.
  - discriminate.
  - destruct (step_waiting P e st w Hw) as [-> | Hw0].
    + cbn [step]. destruct (handleKnowMore_asks P st w) as [m [E [R C]]].
      exists m. rewrite E. split; [apply in_or_app; right; now left | auto].
    + destruct (IH Hw0) as [m [Hm [R C]]].
      destruct (step_appends P e st w) as [more [E _]].
      exists m. rewrite E. split; [apply in_or_app; now left | auto].
Qed.

Lemma awaiting_shows_request_witness :
  reachable countingProvider (awaitingWith (js "12345"))
  /\ waitingForNumber (awaitingWith (js "12345")) = true
  /\ exists m, In m (messages (awaitingWith (js "12345")))
               /\ role m = model /\ Chat.content m = contactRequest.
Proof.
  assert (R : reachable countingProvider (awaitingWith (js "12345")))
    by apply awaitingWith_reachable.
  split; [exact R | split; [reflexivity | ] ].
  exact (@awaiting_shows_request nat countingProvider (awaitingWith (js "12345")) R
           eq_refl).
Defined.

Section Session.

Variable W : Type.
Variable P : provider W.

Lemma forEachCall_responses (d : Store.DB) (calls : list functionCall) : forall w : W,
  toolResponses (fst (forEachCall P d calls w))
  = map (fun fc => (Live.id fc, name fc)) (filter isSearch calls)
  /\ audioSent (fst (forEachCall P d calls w)) = [].
Proof.
  induction calls as [ | fc calls IH]; intros w; cbn [forEachCall].
  - split; reflexivity.
  - unfold bind, ret. unfold isSearch at 1. cbn [filter]. fold (isSearch fc).
    destruct (isSearch fc) eqn:S.
    + rewrite searchKnowledgeBase_eq. cbn [fst snd].
      destruct (IH (snd (embedOne P (query fc) w))) as [I1 I2].
      destruct (forEachCall P d calls (snd (embedOne P (query fc) w))) as [more w2].
      cbn [fst] in *. unfold toolResponses, audioSent in *.
      cbn [flat_map app map]. rewrite I1, I2. split; reflexivity.
    + cbn [fst snd]. destruct (IH w) as [I1 I2].
      destruct (forEachCall P d calls w) as [more w2]. cbn [fst app] in *.
      split; assumption.
Qed.

End Session.

(** X26.  The [onmessage] callback answers every function call named
    [search_knowledge_base], in the order of the calls, each response
    carrying the id and the name of its call; a call of another name gets no
    response.  The audio of the message, if any, is handed to the player
    before the calls are answered. *)
Theorem onmessage_correlates (W : Type) (P : provider W) (d : Store.DB)
    (message : serverMessage) (w : W) :
  let out := fst (onmessage P d message w) in
  let calls := match toolCall message with Some calls => calls | None => [] end in
  let audio := match audioData message with
               | Some data => if truthy data then [data] else []
               | None => []
               end in
  toolResponses out = map (fun fc => (Live.id fc, name fc)) (filter isSearch calls)
  /\ audioSent out = audio
  /\ exists responses, out = map AudioData audio ++ responses /\ audioSent responses = [].
Proof.
  cbv zeta. unfold onmessage.
  set (audio := match audioData message with
                | Some data => if truthy data then [AudioData data] else []
                | None => []
                end).
  assert (A : toolResponses audio = []
              /\ audioSent audio
                 = match audioData message with
                   | Some data => if truthy data then [data] else []
                   | None => []
                   end
              /\ audio = map AudioData (audioSent audio)).
  { unfold audio. destruct (audioData message) as [data | ];
      [destruct (truthy data) | ]; repeat split; reflexivity. }
  destruct A as [A1 [A2 A3]].
  destruct (toolCall message) as [calls | ].
  - unfold bind, ret. destruct (forEachCall_responses P d calls w) as [F1 F2].
    destruct (forEachCall P d calls w) as [responses w1]. cbn [fst] in *.
    unfold toolResponses, audioSent in *. rewrite !flat_map_app.
    rewrite A1, F1, F2, app_nil_r, <- A2. cbn [app].
    repeat split. exists responses. split; [now rewrite <- A3 | exact F2].
  - cbn [ret fst filter map]. rewrite A1, <- A2. repeat split.
    exists []. split; [rewrite app_nil_r; exact A3 | reflexivity].
Qed.

Lemma matchesOrNone_bounded (W : Type) (P : provider W)
    (queryEmbedding : list (list number)) (chunks : list Matcher.DocumentChunk)
    (topK : nat) :
  length (matchesOrNone queryEmbedding chunks topK) <= topK
  /\ incl (matchesOrNone queryEmbedding chunks topK) chunks.
Proof.
  unfold matchesOrNone. destruct queryEmbedding as [ | first rest].
  - split; [cbn; lia | intros x []].
  - destruct (0 <? length first)%nat; [ | split; [cbn; lia | intros x []]].
    pose proof (MatcherFacts.findBestMatches_length first chunks topK) as L.
    split; [lia | ]. intros x Hx. eapply MatcherFacts.findBestMatches_incl; eauto.
Qed.

(** X27.  A normal turn: a text that is not blank, sent while no contact is
    awaited, is added to the conversation as the user's message, as it was
    typed, and answered by one message of the model.  The chunks retrieved
    are the matches of the embedding of the text among the chunks of the
    store, at most 5, and none when the embedding is empty; the answer is
    the text, never empty, that [generateRAGResponse] gives for the text
    and these chunks; its citations are the titles of these chunks, in
    their order, followed by the citations of the web.  The input field is
    emptied, the component is no longer loading, and the store is
    untouched. *)
Theorem normal_turn (W : Type) (P : provider W) (st : State) (w : W) :
  waitingForNumber st = false ->
  truthy (trim (input st)) = true ->
  let st' := fst (handleSend P st w) in
  let embedded := getEmbeddings P [input st] (ticks P 2 w) in
  let chunks := matchesOrNone (fst embedded) (Store.getChunks (db st)) 5 in
  let response :=
    fst (Generator.generateRAGResponse P (db st) (input st) chunks (snd embedded)) in
  exists u b,
    messages st' = messages st ++ [u; b]
    /\ role u = user /\ Chat.content u = input st /\ isAudio u = Some false
    /\ role b = model /\ Chat.content b = Generator.text response
    /\ Chat.content b <> []
    /\ citations b
       = Some (map Matcher.docTitle chunks
               ++ match Generator.citations response with
                  | Some cs => cs
                  | None => []
                  end)
    /\ length chunks <= 5 /\ incl chunks (Store.getChunks (db st))
    /\ (fst (embedOne P (input st) (ticks P 2 w)) = [] -> chunks = [])
    /\ input st' = [] /\ isLoading st' = false
    /\ waitingForNumber st' = false /\ db st' = db st.
Proof.
  intros Hw Hb. cbv zeta. rewrite (handleSend_normal P st w Hw Hb).
  destruct (@matchesOrNone_bounded W P
              (fst (getEmbeddings P [input st] (ticks P 2 w)))
              (Store.getChunks (db st)) 5) as [B1 B2].
  pose proof (generateRAGResponse_text P (db st) (input st)
                (matchesOrNone (fst (getEmbeddings P [input st] (ticks P 2 w)))
                   (Store.getChunks (db st)) 5)
                (snd (getEmbeddings P [input st] (ticks P 2 w)))) as T.
  assert (F : fst (embedOne P (input st) (ticks P 2 w)) = [] ->
              matchesOrNone (fst (getEmbeddings P [input st] (ticks P 2 w)))
                (Store.getChunks (db st)) 5 = []).
  { rewrite EmbeddingFacts.getEmbeddings_one. cbn [fst matchesOrNone].
    intros ->. reflexivity. }
  revert B1 B2 T F. unfold processQuery.
  cbn [ticks db input setInput setIsLoading setMessages]. run. intros B1 B2 T F.
  do 2 eexists.
  cbn [messages setIsLoading setMessages setInput waitingForNumber db input isLoading].
  rewrite <- app_assoc. cbn [app].
  split; [reflexivity | ].
  cbn [role Chat.content isAudio citations].
  repeat split; try reflexivity; try assumption.
Qed.

Lemma normal_turn_witness :
  let st := fst (step countingProvider (Typing (js "What is Samastha?"))
                   (fst (step countingProvider Sync (initial sampleDb) 0)) 0) in
  waitingForNumber st = false
  /\ truthy (trim (input st)) = true
  /\ exists u b,
       messages (fst (handleSend answeringProvider st 0%N)) = messages st ++ [u; b]
       /\ Chat.content u = js "What is Samastha?"
       /\ Chat.content b = js "Founded in **1926**."
       /\ citations b
          = Some [js "doc"; js "doc"; js "doc"; js "doc"; js "https://samastha.info"].
Proof.
  intros st. split; [reflexivity | split; [reflexivity | ] ].
  destruct (@normal_turn N answeringProvider st 0%N eq_refl eq_refl)
    as (u & b & Hm & _ & Hu & _ & _ & Hb & _ & Hc & _).
  exists u, b. split; [exact Hm | ]. split; [exact Hu | ].
  split; [rewrite Hb; vm_compute; reflexivity | rewrite Hc; vm_compute; reflexivity].
Defined.

Lemma lastOf_app (A : Type) (xs : list A) (x : A) : lastOf (xs ++ [x]) = Some x.
Proof. unfold lastOf. rewrite rev_app_distr. reflexivity. Qed.

(** X28.  The shortcut [k] asks for the mobile number once: pressing the key
    again changes nothing and does not read the clock.  The key does nothing
    in an input field, on an empty conversation, while the component is
    loading or a contact is awaited, and after a report. *)
Theorem shortcut_asks_once (W : Type) (P : provider W) (tagName : jsstring)
    (st : State) (w w' : W) :
  let k := js "k" in
  let st1 := fst (Shortcuts.handleKeyDown P tagName k st w) in
  Shortcuts.handleKeyDown P tagName k st1 w' = (st1, w')
  /\ (st1 = st \/ st1 = fst (handleKnowMore P st w))
  /\ (waitingForNumber st = true \/ isLoading st = true \/ messages st = []
      \/ tagName = js "INPUT" \/ tagName = js "TEXTAREA"
      \/ (exists m, lastOf (messages st) = Some m
                    /\ truthy (Generator.optString (shareContent m)) = true) ->
      Shortcuts.handleKeyDown P tagName k st w = (st, w)).
Proof.
  cbv zeta. unfold Shortcuts.handleKeyDown.
  destruct (strictEq tagName (js "INPUT") || strictEq tagName (js "TEXTAREA")) eqn:Tg.
  { cbn [ret fst]. repeat split; auto. }
  change (strictEq (js "k") (js "k")) with true. cbv iota.
  assert (Tn : tagName <> js "INPUT" /\ tagName <> js "TEXTAREA").
  { apply orb_false_iff in Tg. destruct Tg as [T1 T2].
    split; intros E; rewrite E in *; discriminate. }
  destruct (lastOf (messages st)) as [msg | ] eqn:L.
  2:{ cbn [ret fst]. rewrite L. repeat split; auto. }
  destruct (Shortcuts.isActionable msg st) eqn:A.
  - unfold Shortcuts.isActionable in A.
    repeat (apply andb_true_iff in A; destruct A as [A ?]).
    repeat match goal with H : negb _ = true |- _ => apply negb_true_iff in H end.
    split; [ | split; [now right | ] ].
    + unfold handleKnowMore, bind, ret.
      destruct (dateNow P w) as [n1 w1]. destruct (dateNow P w1) as [n2 w2].
      cbn [fst setWaitingForNumber setMessages messages].
      rewrite lastOf_app. unfold Shortcuts.isActionable.
      cbn [waitingForNumber negb andb]. rewrite !andb_false_r. reflexivity.
    + intros [Hx | [Hx | [Hx | [Hx | [Hx | [m [Hm Hx]]]]]]]; exfalso.
      * congruence.
      * congruence.
      * rewrite Hx in L. discriminate.
      * now apply (proj1 Tn).
      * now apply (proj2 Tn).
      * injection Hm as <-. congruence.
  - cbn [ret fst]. rewrite L, A. repeat split; auto.
Qed.

End ConversationFacts.

(* ================================================================== *)
(** ** Properties of the audio helpers *)

Module AudioFacts.

Import JSNumber JSString Audio AudioSpec.

Local Open Scope N_scope.

Lemma decode_encode (n : N) : n < 64 -> decodeChar (encodeSextet n) = Some n.
Proof.
  intros H.
  assert (A : forallb (fun k => match decodeChar (encodeSextet k) with
                                | Some k' => k' =? k
                                | None => false
                                end) (map N.of_nat (seq 0 64)) = true)
    by (vm_compute; reflexivity).
  rewrite forallb_forall in A.
  specialize (A n). 
  assert (I : In n (map N.of_nat (seq 0 64))).
  { apply in_map_iff. exists (N.to_nat n). split; [apply N2Nat.id | ].
    apply in_seq. lia. }
  specialize (A I). destruct (decodeChar (encodeSextet n)); [ | discriminate].
  apply N.eqb_eq in A. now subst.
Qed.

Lemma encode_not_equals (n : N) : n < 64 -> encodeSextet n <> equalsSign.
Proof.
  intros H E. pose proof (decode_encode H) as D. rewrite E in D. discriminate.
Qed.

Lemma encode_not_space (n : N) : n < 64 -> isAsciiWhitespace (encodeSextet n) = false.
Proof.
  intros H. pose proof (decode_encode H) as D.
  destruct (isAsciiWhitespace (encodeSextet n)) eqn:S; [ | reflexivity].
  unfold isAsciiWhitespace in S.
  repeat (apply orb_true_iff in S; destruct S as [S | S]);
    apply N.eqb_eq in S; rewrite S in D; discriminate.
Qed.

Lemma three_induction (P : list N -> Prop) :
  P [] -> (forall a, P [a]) -> (forall a b, P [a; b]) ->
  (forall a b c rest, P rest -> P (a :: b :: c :: rest)) ->
  forall l, P l.
Proof.
  intros H0 H1 H2 H3.
  assert (A : forall n l, (length l <= n)%nat -> P l).
  { induction n as [ | n IH]; intros l L.
    - destruct l; [exact H0 | cbn in L; lia].
    - destruct l as [ | a [ | b [ | c rest]]]; auto.
      apply H3, IH. cbn [length] in L. lia. }
  intros l. exact (A (length l) l (le_n _)).
Qed.

Lemma sextets_alphabet (bytes : list N) :
  Forall (fun b => b < 256) bytes -> Forall inAlphabet (sextets bytes).
Proof.
  induction bytes as [ | a | a b | a b c rest IH] using three_induction; intros H.
  - constructor.
  - inversion_clear H as [ | ? ? Ha _]. cbn [sextets].
    repeat constructor; eexists; (split; [ | reflexivity]); euclid.
  - inversion_clear H as [ | ? ? Ha H']. inversion_clear H' as [ | ? ? Hb _].
    cbn [sextets]. repeat constructor; eexists; (split; [ | reflexivity]); euclid.
  - inversion_clear H as [ | ? ? Ha H']. inversion_clear H' as [ | ? ? Hb H''].
    inversion_clear H'' as [ | ? ? Hc Hr]. cbn [sextets].
    repeat (constructor; [eexists; (split; [ | reflexivity]); euclid | ]).
    now apply IH.
Qed.

Lemma decodeSextets_sextets (bytes : list N) :
  Forall (fun b => b < 256) bytes -> decodeSextets (sextets bytes) = Some bytes.
Proof.
  induction bytes as [ | a | a b | a b c rest IH] using three_induction; intros H.
  - reflexivity.
  - inversion_clear H as [ | ? ? Ha _]. cbn [sextets decodeSextets].
    rewrite !decode_encode by euclid. f_equal. f_equal. euclid.
  - inversion_clear H as [ | ? ? Ha H']. inversion_clear H' as [ | ? ? Hb _].
    cbn [sextets decodeSextets]. rewrite !decode_encode by euclid.
    f_equal. f_equal; [euclid | f_equal; euclid].
  - inversion_clear H as [ | ? ? Ha H']. inversion_clear H' as [ | ? ? Hb H''].
    inversion_clear H'' as [ | ? ? Hc Hr].
    change (sextets (a :: b :: c :: rest))
      with (encodeSextet (a / 4) :: encodeSextet ((a mod 4) * 16 + b / 16)
            :: encodeSextet ((b mod 16) * 4 + c / 64) :: encodeSextet (c mod 64)
            :: sextets rest).
    change (decodeSextets (?x :: ?y :: ?z :: ?t :: ?r))
      with (match decodeChar x, decodeChar y, decodeChar z, decodeChar t,
                  decodeSextets r with
            | Some x', Some y', Some z', Some t', Some bytes' =>
                Some (x' * 4 + y' / 16 :: (y' mod 16) * 16 + z' / 4
                      :: (z' mod 4) * 64 + t' :: bytes')
            | _, _, _, _, _ => None
            end).
    rewrite !decode_encode by euclid. rewrite (IH Hr).
    f_equal. f_equal; [euclid | f_equal; [euclid | f_equal; euclid] ].
Qed.

Lemma padding_step (n : nat) : padding (S (S (S n))) = padding n.
Proof.
  unfold padding. replace (S (S (S n))) with (n + 1 * 3)%nat by lia.
  now rewrite Nat.Div0.mod_add.
Qed.

(** The lengths of the encoded string. *)
Lemma sextets_lengths (bytes : list N) :
  Nat.modulo (length (sextets bytes ++ padding (length bytes))) 4 = 0%nat
  /\ Nat.modulo (length (sextets bytes)) 4 <> 1%nat
  /\ (padding (length bytes) <> [] -> sextets bytes <> []).
Proof.
  induction bytes as [ | a | a b | a b c rest IH] using three_induction.
  - repeat split; try discriminate. intros H. now contradiction H.
  - repeat split; discriminate.
  - repeat split; discriminate.
  - destruct IH as [I1 [I2 I3]].
    change (length (a :: b :: c :: rest)) with (S (S (S (length rest)))).
    rewrite padding_step.
    change (sextets (a :: b :: c :: rest))
      with ([encodeSextet (a / 4); encodeSextet ((a mod 4) * 16 + b / 16);
             encodeSextet ((b mod 16) * 4 + c / 64); encodeSextet (c mod 64)]
            ++ sextets rest).
    rewrite <- app_assoc, !length_app.
    change (length [encodeSextet (a / 4); encodeSextet ((a mod 4) * 16 + b / 16);
                    encodeSextet ((b mod 16) * 4 + c / 64); encodeSextet (c mod 64)])
      with (1 * 4)%nat.
    rewrite <- length_app in *.
    rewrite !(Nat.add_comm (1 * 4)), !Nat.Div0.mod_add.
    repeat split; try assumption. discriminate.
Qed.

Lemma stripPadding_two (s : jsstring) : stripPadding (s ++ [equalsSign; equalsSign]) = s.
Proof.
  unfold stripPadding. rewrite rev_app_distr. cbn [rev app].
  change (equalsSign =? equalsSign) with true. cbn match. apply rev_involutive.
Qed.

Lemma stripPadding_one (s : jsstring) (x : N) (r : jsstring) :
  rev s = x :: r -> x <> equalsSign -> stripPadding (s ++ [equalsSign]) = s.
Proof.
  intros E H. unfold stripPadding. rewrite rev_app_distr, E. cbn [rev app].
  change (equalsSign =? equalsSign) with true. cbn match.
  apply N.eqb_neq in H. rewrite H.
  rewrite <- (rev_involutive s), E. reflexivity.
Qed.

Lemma stripPadding_none (s : jsstring) :
  match rev s with x :: _ => x <> equalsSign | [] => True end -> stripPadding s = s.
Proof.
  unfold stripPadding. destruct (rev s) as [ | x [ | y r]]; intros H; try reflexivity;
    apply N.eqb_neq in H; now rewrite H.
Qed.

Lemma alphabet_last (s : jsstring) :
  Forall inAlphabet s -> match rev s with x :: _ => x <> equalsSign | [] => True end.
Proof.
  intros H. apply Forall_rev in H. destruct (rev s) as [ | x r]; [exact I | ].
  inversion_clear H as [ | ? ? [n [Hn ->]] _]. now apply encode_not_equals.
Qed.

Lemma stripPadding_sextets (bytes : list N) :
  Forall (fun b => b < 256) bytes ->
  stripPadding (sextets bytes ++ padding (length bytes)) = sextets bytes.
Proof.
  intros H. pose proof (alphabet_last (sextets_alphabet H)) as L.
  destruct (sextets_lengths bytes) as [_ [_ Hne]].
  unfold padding in *. destruct (Nat.modulo (length bytes) 3) as [ | [ | [ | k]]].
  - rewrite app_nil_r. now apply stripPadding_none.
  - apply stripPadding_two.
  - destruct (rev (sextets bytes)) as [ | x r] eqn:E.
    + exfalso. apply Hne; [discriminate | ].
      rewrite <- (rev_involutive (sextets bytes)), E. reflexivity.
    + now apply (stripPadding_one _ E).
  - rewrite app_nil_r. now apply stripPadding_none.
Qed.

Lemma filter_spaces (s : jsstring) :
  Forall (fun c => inAlphabet c \/ c = equalsSign) s ->
  filter (fun c => negb (isAsciiWhitespace c)) s = s.
Proof.
  induction 1 as [ | c s Hc H IH]; cbn [filter]; [reflexivity | ].
  assert (W : isAsciiWhitespace c = false).
  { destruct Hc as [[n [Hn ->]] | ->]; [now apply encode_not_space | reflexivity]. }
  rewrite W. cbn [negb]. now rewrite IH.
Qed.

(** [atob] gives back the bytes that [btoa] was given. *)
Lemma atob_btoa (bytes : list N) :
  Forall (fun b => b < 256) bytes ->
  exists data, btoa bytes = Some data /\ atob data = Some bytes.
Proof.
  intros H. unfold btoa.
  assert (F : forallb (fun c => c <=? 255) bytes = true).
  { apply forallb_forall. rewrite Forall_forall in H. intros c Hc.
    apply N.leb_le. specialize (H c Hc). lia. }
  rewrite F. eexists. split; [reflexivity | ].
  unfold atob. rewrite filter_spaces.
  - destruct (sextets_lengths bytes) as [L1 [L2 _]]. rewrite L1. cbn [Nat.eqb].
    rewrite (stripPadding_sextets H).
    destruct (Nat.modulo (length (sextets bytes)) 4 =? 1)%nat eqn:E.
    + apply Nat.eqb_eq in E. contradiction.
    + now apply decodeSextets_sextets.
  - apply Forall_app. split.
    + eapply Forall_impl; [ | exact (sextets_alphabet H)]. intros c Hc. now left.
    + unfold padding. destruct (Nat.modulo (length bytes) 3) as [ | [ | [ | k]]];
        repeat constructor; now right.
Qed.

Lemma toInt16_range (x : number) : (-32768 <= toInt16 x < 32768)%Z.
Proof.
  unfold toInt16. cbv zeta.
  destruct (32768 <=? truncate x mod 65536)%Z eqn:E;
    [apply Z.leb_le in E | apply Z.leb_gt in E]; euclid.
Qed.

Lemma bytesOfInt16_bytes (v : Z) : Forall (fun b => b < 256) (bytesOfInt16 v).
Proof. unfold bytesOfInt16. repeat constructor; euclid. Qed.

Lemma int16sOfBytes_bytes (vs : list Z) :
  Forall (fun v => (-32768 <= v < 32768)%Z) vs ->
  int16sOfBytes (flat_map bytesOfInt16 vs) = Some vs.
Proof.
  induction 1 as [ | v vs Hv H IH]; [reflexivity | ].
  cbn [flat_map bytesOfInt16 app int16sOfBytes]. rewrite IH. f_equal. f_equal.
  destruct (32768 <=? _)%Z eqn:E; [apply Z.leb_le in E | apply Z.leb_gt in E]; euclid.
Qed.

Lemma map_fixed (A : Type) (f : A -> A) (l : list A) :
  Forall (fun x => f x = x) l -> map f l = l.
Proof. induction 1 as [ | x l Hx H IH]; cbn [map]; [reflexivity | now rewrite Hx, IH]. Qed.

(** X29.  The coding of the audio that is sent and the decoding of the audio
    that is received are inverse to each other.  For every block of
    samples, [onaudioprocess] produces base64 data, [btoa] does not throw.
    On that data [onAudioData] returns at once when there is no output
    audio context; with one, it plays a buffer into which it has written,
    for every sample [x], the number [ToInt16(x * 32768) / 32768]: the
    bytes, the binary string and the base64 coding lose nothing.  The empty
    block is the exception: its data is the empty string, on which
    [onAudioData] throws, a buffer of length 0 being refused. *)
Theorem pcm_round_trip (inputData : list number) :
  exists data,
    onaudioprocess inputData = Some data
    /\ (inputData = [] <-> data = [])
    /\ onAudioData false data = Some Skipped
    /\ onAudioData true data
       = match inputData with
         | [] => None
         | _ :: _ =>
             Some (Played (map (fun x => fround (ofInt16 (toInt16 (x * 32768)) / 32768)%float)
                               inputData))
         end.
Proof.
  unfold onaudioprocess, onAudioData, base64ToUint8Array.
  set (int16 := map (fun x => toInt16 (x * 32768)%float) inputData).
  assert (R : Forall (fun v => (-32768 <= v < 32768)%Z) int16).
  { unfold int16. apply Forall_forall. intros v Hv. apply in_map_iff in Hv.
    destruct Hv as [x [<- _]]. apply toInt16_range. }
  assert (B : Forall (fun b => b < 256) (flat_map bytesOfInt16 int16)).
  { apply Forall_flat_map. apply Forall_forall. intros v _. apply bytesOfInt16_bytes. }
  assert (C : map fromCharCode (flat_map bytesOfInt16 int16) = flat_map bytesOfInt16 int16).
  { apply map_fixed. eapply Forall_impl; [ | exact B].
    intros b Hb. cbn beta in Hb. unfold fromCharCode. apply N.mod_small. lia. }
  rewrite C. destruct (atob_btoa B) as [data [E1 E2]].
  exists data. split; [exact E1 | ]. split.
  - unfold btoa in E1.
    destruct (forallb (fun c => c <=? 255) (flat_map bytesOfInt16 int16)); [ | discriminate].
    injection E1 as <-. unfold int16.
    destruct inputData as [ | x rest]; [split; reflexivity | ].
    split; [discriminate | ]. cbn [map flat_map bytesOfInt16 app sextets].
    destruct (flat_map bytesOfInt16 (map (fun x0 => toInt16 (x0 * 32768)%float) rest))
      as [ | c l]; discriminate.
  - split; [reflexivity | ]. cbn [negb]. rewrite E2.
    assert (D : map (fun c => c mod 256) (flat_map bytesOfInt16 int16)
                = flat_map bytesOfInt16 int16).
    { apply map_fixed. eapply Forall_impl; [ | exact B].
      intros b Hb. now apply N.mod_small. }
    rewrite D, (int16sOfBytes_bytes R). unfold int16.
    destruct inputData as [ | x rest]; [reflexivity | ].
    cbn [map]. now rewrite map_map.
Qed.

End AudioFacts.

(* ================================================================== *)
(** ** The list of leads of the admin panel *)

Module LeadsFacts.

Import JSNumber JSArray JSString MockDB Admin Binary64 MatcherSpec.
Import IEEE SortFacts.

Local Open Scope Z_scope.

Lemma digits_unique (m : positive) (d : Z) :
  2 ^ (d - 1) <= Zpos m < 2 ^ d -> Zpos (digits2_pos m) = d.
Proof.
  intros [H1 H2]. pose proof (digits2_pos_bounds m) as [B1 B2].
  assert (D : 0 < d).
  { destruct (Z.ltb_spec 0 d) as [ | N]; [assumption | exfalso].
    assert (2 ^ d <= 2 ^ 0) by (destruct (Z.ltb_spec d 0);
      [rewrite Z.pow_neg_r by assumption; cbn; lia | apply Z.pow_le_mono_r; lia]).
    cbn in *. lia. }
  destruct (Z.lt_trichotomy (Zpos (digits2_pos m)) d) as [L | [E | G]]; [ | exact E | ].
  - exfalso. assert (2 ^ Zpos (digits2_pos m) <= 2 ^ (d - 1))
      by (apply Z.pow_le_mono_r; lia). lia.
  - exfalso. assert (2 ^ d <= 2 ^ (Zpos (digits2_pos m) - 1))
      by (apply Z.pow_le_mono_r; lia). lia.
Qed.

(** A mantissa in canonical position is not rounded. *)
Lemma binary_round_aux_canonical (s : bool) (m : positive) (e : Z) :
  fexp prec emax (Zpos (digits2_pos m) + e) = e ->
  e <= emax - prec ->
  binary_round_aux prec emax s (Zpos m) e loc_Exact = S754_finite s m e.
Proof.
  intros H L. unfold binary_round_aux, shr_fexp.
  cbn [Zdigits2 shr_record_of_loc]. rewrite H.
  replace (e - e) with 0 by (z_ops; lia).
  cbn [shr shr_m loc_of_shr_record round_nearest_even Zdigits2 shr_record_of_loc].
  rewrite H. replace (e - e) with 0 by (z_ops; lia). cbn [shr shr_m].
  apply Z.leb_le in L. now rewrite L.
Qed.

(** An integer below [2 ^ 53] is a number, exactly. *)
Lemma binary_round_exact (s : bool) (m : positive) :
  Zpos m < 2 ^ 53 ->
  exists mz ez,
    binary_round prec emax s m 0 = S754_finite s mz ez
    /\ Zpos mz * 2 ^ (ez + 1074) = Zpos m * 2 ^ 1074.
Proof.
  intros B. unfold binary_round.
  pose proof (digits2_pos_bounds m) as [B1 B2].
  set (d := Zpos (digits2_pos m)) in *.
  assert (D1 : 1 <= d) by (unfold d; lia).
  assert (D2 : d <= 53).
  { destruct (Z.leb_spec d 53) as [ | G]; [assumption | exfalso].
    assert (2 ^ 53 <= 2 ^ (d - 1)) by (apply Z.pow_le_mono_r; lia). lia. }
  assert (F : fexp prec emax (d + 0) = d - 53).
  { unfold fexp, SpecFloat.emin, prec, emax. z_ops. lia. }
  rewrite F.
  pose proof (@shl_align_val m 0 (d - 53)) as V.
  destruct (shl_align m 0 (d - 53)) as [mz ez] eqn:S.
  assert (Ez : ez = d - 53 /\ Zpos mz = Zpos m * 2 ^ (53 - d)).
  { unfold shl_align in S. replace (d - 53 - 0) with (d - 53) in S by lia.
    destruct (d - 53) as [ | p | p] eqn:P.
    - injection S as <- <-. replace (53 - d) with 0 by lia. split; lia.
    - lia.
    - injection S as <- <-. split; [reflexivity | ].
      change (PosDef.Pos.iter xO m p) with (Pos.iter xO m p).
      rewrite iter_xO. f_equal. f_equal. lia. }
  destruct Ez as [-> Em].
  exists mz, (d - 53). split.
  - apply binary_round_aux_canonical.
    + assert (Dz : Zpos (digits2_pos mz) = 53).
      { apply digits_unique. rewrite Em. split.
        - replace (2 ^ (53 - 1)) with (2 ^ (d - 1) * 2 ^ (53 - d))
            by (rewrite <- Z.pow_add_r by lia; f_equal; lia).
          apply Z.mul_le_mono_nonneg_r; [apply Z.pow_nonneg; lia | exact B1].
        - replace (2 ^ 53) with (2 ^ d * 2 ^ (53 - d))
            by (rewrite <- Z.pow_add_r by lia; f_equal; lia).
          apply Z.mul_lt_mono_pos_r; [apply Z.pow_pos_nonneg; lia | exact B2]. }
      rewrite Dz. unfold fexp, SpecFloat.emin, prec, emax. z_ops. lia.
    + unfold prec, emax. lia.
  - cbn [fst] in V. apply V; lia.
Qed.

Lemma toNumber_exact (n : N) :
  (n < 2 ^ 53)%N ->
  is_nan (toNumber n) = false /\ ordZ (toNumber n) = Z.of_N n * 2 ^ 1074.
Proof.
  intros B. unfold toNumber, ordZ.
  assert (S : Prim2SF (of_uint63 (Uint63.of_Z (Z.of_N n)))
              = binary_normalize prec emax (Z.of_N n) 0 false).
  { rewrite of_uint63_spec, Uint63.of_Z_spec. f_equal.
    apply Z.mod_small. split; [lia | ].
    assert (Z.of_N n < 2 ^ 53).
    { change (2 ^ 53) with (Z.of_N (2 ^ 53)). lia. }
    change Uint63Axioms.wB with (2 ^ 63). lia. }
  assert (V : Prim2SF (of_uint63 (Uint63.of_Z (Z.of_N n))) <> S754_nan
              /\ valZ (Prim2SF (of_uint63 (Uint63.of_Z (Z.of_N n))))
                 = Z.of_N n * 2 ^ 1074).
  { rewrite S. destruct n as [ | p]; cbn [Z.of_N binary_normalize].
    - split; [discriminate | reflexivity].
    - destruct (@binary_round_exact false p) as [mz [ez [E Ev]]].
      { change (2 ^ 53) with (Z.of_N (2 ^ 53)). lia. }
      rewrite E. split; [discriminate | ]. cbn [valZ cond_Zopp]. exact Ev. }
  destruct V as [V1 V2]. split; [ | exact V2].
  destruct (is_nan (of_uint63 (Uint63.of_Z (Z.of_N n)))) eqn:I; [ | reflexivity].
  exfalso. apply V1. now apply is_nan_SF.
Qed.

(** The comparator of the leads asks for a move exactly when the first lead
    is the older one. *)
Lemma after_timestamp (a b : Store.Lead) :
  (Store.timestamp a < 2 ^ 53)%N -> (Store.timestamp b < 2 ^ 53)%N ->
  after byTimestampDesc a b
  = (Z.of_N (Store.timestamp a) <? Z.of_N (Store.timestamp b)).
Proof.
  intros Ha Hb.
  destruct (toNumber_exact Ha) as [Na Oa]. destruct (toNumber_exact Hb) as [Nb Ob].
  assert (E : (Z.of_N (Store.timestamp a) <? Z.of_N (Store.timestamp b))
              = (ordZ (toNumber (Store.timestamp a))
                 <? ordZ (toNumber (Store.timestamp b)))).
  { rewrite Oa, Ob. destruct (Z.ltb_spec (Z.of_N (Store.timestamp a))
                                         (Z.of_N (Store.timestamp b)));
      symmetry; [apply Z.ltb_lt | apply Z.ltb_ge]; nia. }
  rewrite E, <- (@ltb_ordZ _ _ Na Nb), <- (@sub_pos _ _ Na Nb).
  unfold after, SortCompare, gt, byTimestampDesc.
  destruct (isNaN (toNumber (Store.timestamp b) - toNumber (Store.timestamp a))%float)
    eqn:I; [ | reflexivity].
  rewrite (@MatcherFacts.ltb_nan_r _ _ I). reflexivity.
Qed.

(** X30.  The admin panel lists the leads newest first: the list is a
    rearrangement of the stored leads, no lead comes before a newer one, and
    leads of the same time keep the order in which they were recorded. *)
Theorem loadLeads_newest_first (s : Storage) :
  (forall l, In l (getLeads s) -> (Store.timestamp l < 2 ^ 53)%N) ->
  Permutation (loadLeads s) (getLeads s)
  /\ StronglySorted (fun a b => (Store.timestamp b <= Store.timestamp a)%N) (loadLeads s)
  /\ (forall t, filter (fun l => (Store.timestamp l =? t)%N) (loadLeads s)
                = filter (fun l => (Store.timestamp l =? t)%N) (getLeads s)).
Proof.
  intros H. unfold loadLeads.
  set (key := fun l : Store.Lead => Z.of_N (Store.timestamp l)).
  set (dom := fun l : Store.Lead => (Store.timestamp l < 2 ^ 53)%N).
  assert (AK : forall x y, dom x -> dom y -> after byTimestampDesc x y = (key x <? key y)).
  { intros x y Dx Dy. now apply after_timestamp. }
  assert (FD : Forall dom (getLeads s)) by now apply Forall_forall.
  split; [apply sort_perm | split].
  - pose proof (@sort_sorted _ byTimestampDesc key dom AK (getLeads s) FD) as SS.
    clear - SS. induction SS as [ | x l SS IH Hx]; constructor; [exact IH | ].
    eapply Forall_impl; [ | exact Hx]. unfold desc, key. intros; lia.
  - intros t. apply (@sort_stable _ byTimestampDesc key dom AK); [ | exact FD].
    intros a b Ea Eb. apply N.eqb_eq in Ea, Eb. unfold key. congruence.
Qed.

Lemma loadLeads_newest_first_witness :
  let lead := fun i t =>
    {| Store.id := i; Store.phoneNumber := js "+91 95265 69313";
       Store.queryContext := js "..."; Store.timestamp := t |} in
  let s := addLead (lead (js "c") 1700000000500%N)
             (addLead (lead (js "b") 1700000000900%N)
                (addLead (lead (js "a") 1700000000500%N) emptyStorage)) in
  (forall l, In l (getLeads s) -> (Store.timestamp l < 2 ^ 53)%N)
  /\ map Store.id (loadLeads s) = [js "b"; js "a"; js "c"]
  /\ StronglySorted (fun a b => (Store.timestamp b <= Store.timestamp a)%N) (loadLeads s).
Proof.
  intros lead s.
  assert (H : forall l, In l (getLeads s) -> (Store.timestamp l < 2 ^ 53)%N).
  { intros l [<- | [<- | [<- | []]]]; reflexivity. }
  split; [exact H | split; [vm_compute; reflexivity | ] ].
  exact (proj1 (proj2 (@loadLeads_newest_first s H))).
Defined.

End LeadsFacts.

